(** * esp-voice-server: a shallow embedding of the core and its properties

    The development follows the TypeScript sources:
    - [src/core/pcm.ts]               the 16-byte PCM1 stream header (module [Pcm]);
    - the WebSocket server            the per-connection frame classifier (module [Ws])
                                      and its message listener (module [Listener]);
    - the session manager             buffering under quotas (module [Session]);
    - [src/core/audio-conversion.ts]  linear-interpolation resampling (module [Audio]).

    Around these: PCM1 files and WAV headers of [src/core/pcm.ts] (module
    [PcmFile]); the other operations of the session manager (module
    [SessionMore]); the connection table and the heartbeat of the WebSocket
    server (module [Conn]); the WAV decoder of [src/core/audio-conversion.ts]
    (module [Wav]); and the voice server of [src/index.ts], which puts the
    WebSocket server and the session manager together (module [Voice]).

    Conventions.  Byte counts, lengths and millisecond timestamps are JavaScript
    numbers that only ever hold integers here; they are modelled in [Z].  The
    resampler really computes with fractions, so there a JavaScript number is an
    IEEE-754 binary64 value ([spec_float] at precision 53).  A call that can
    raise returns a [JsResult].  Everything the outside world decides (the
    clock, how an injected callback comes back) is an argument of the
    operation that consults it.  An injected callback is an observer: the
    call and its arguments are recorded among the events of the operation,
    and the callback does not call back into the object that notifies it. *)

From Stdlib Require Import ZArith List Lia Bool.
From Stdlib Require Import Strings.String Strings.Ascii Strings.Byte.
From Stdlib Require Import Floats.SpecFloat.
From stdpp Require Import base option list gmap strings.

Local Open Scope Z_scope.

(** ** Results of JavaScript calls *)

Inductive JsError :=
  | RangeError          (* out-of-range value or index *)
  | CallbackError.      (* whatever an injected callback threw *)

Inductive JsResult (A : Type) :=
  | Ret (a : A)
  | Throw (e : JsError).
Arguments Ret {A} a.
Arguments Throw {A} e.

Definition bindR {A B} (r : JsResult A) (k : A -> JsResult B) : JsResult B :=
  match r with
  | Ret a => k a
  | Throw e => Throw e
  end.

Notation "'let*' x ':=' r 'in' k" := (bindR r (fun x => k))
  (at level 10, x name, r at level 100, k at level 200).

(** How an injected callback comes back to the code that called it.  The
    callbacks are typed [void | Promise<void>]: a callback either returns
    (possibly a promise that later fulfils), throws before returning, or
    returns a promise that later rejects. *)
Inductive Outcome :=
  | Returns
  | ThrowsSync
  | RejectsLater.

(** ** Buffers *)

(** The contents of a Node [Buffer] or of an [ArrayBuffer]. *)
Abbreviation Buffer := (list byte).

#[global] Instance byte_eq_decision : EqDecision byte := Byte.byte_eq_dec.

(** [!x] for a value that is either null or an object. *)
Definition is_null {A} (o : option A) : bool :=
  match o with
  | None => true
  | Some _ => false
  end.

Definition u8 (b : byte) : Z := Z.of_N (Byte.to_N b).

(** Storing a number into a byte cell keeps its low eight bits. *)
Definition byte_of_Z (z : Z) : byte :=
  match Byte.of_N (Z.to_N (Z.land z 255)) with
  | Some b => b
  | None => x00
  end.

Definition bytes_of_string (s : string) : Buffer :=
  List.map byte_of_ascii (list_ascii_of_string s).

Definition string_of_bytes (bs : Buffer) : string :=
  string_of_list_ascii (List.map ascii_of_byte bs).

(** [Buffer.alloc n]: [n] zero bytes. *)
Definition alloc (n : nat) : Buffer := List.repeat x00 n.

(** Overwrite [buf] from offset [off] with [bs]; the callers below check
    that the bytes fit. *)
Fixpoint poke (off : nat) (bs : list byte) (buf : Buffer) : Buffer :=
  match bs with
  | [] => buf
  | b :: bs' => poke (S off) bs' (<[off := b]> buf)
  end.

(** ** JavaScript numbers where fractions matter: IEEE-754 binary64 *)

Module Num.

Definition prec : Z := 53.
Definition emax : Z := 1024.
Definition number := spec_float.

Definition NaN : number := S754_nan.

(** The number denoting an integer: exact below 2^53 in magnitude, rounded
    to nearest-even above. *)
Definition of_Z (z : Z) : number := binary_normalize prec emax z 0 false.

Definition add : number -> number -> number := SFadd prec emax.
Definition sub : number -> number -> number := SFsub prec emax.
Definition mul : number -> number -> number := SFmul prec emax.
Definition div : number -> number -> number := SFdiv prec emax.

(** [===] on numbers: NaN differs from everything, the two zeros are equal. *)
Definition strict_eq : number -> number -> bool := SFeqb.

Definition is_finite (x : number) : bool :=
  match x with
  | S754_zero _ | S754_finite _ _ _ => true
  | S754_infinity _ | S754_nan => false
  end.

(** The signed integer [(-1)^s * m]. *)
Definition signed (s : bool) (m : positive) : Z := cond_Zopp s (Zpos m).

(** [Math.floor]: the arguments with a non-negative exponent are integers
    already; otherwise the value is [signed s m / 2^(-e)], and shifting
    right rounds towards minus infinity.  A positive fraction below one
    gives +0. *)
Definition Math_floor (x : number) : number :=
  match x with
  | S754_finite s m e =>
      if 0 <=? e then x
      else binary_normalize prec emax (Z.shiftr (signed s m) (- e)) 0 s
  | _ => x
  end.

(** [Math.round]: the nearest integer, ties towards plus infinity, that is
    [floor (x + 1/2)] computed exactly; a result of zero keeps the sign of
    the argument. *)
Definition Math_round (x : number) : number :=
  match x with
  | S754_finite s m e =>
      if 0 <=? e then x
      else binary_normalize prec emax
             (Z.shiftr (2 * signed s m + 2 ^ (- e)) (- e + 1)) 0 s
  | _ => x
  end.

(** [Math.max] and [Math.min] of two arguments: NaN if either is NaN, and
    +0 counts as larger than -0. *)
Definition Math_max (a b : number) : number :=
  match SFcompare a b with
  | None => NaN
  | Some Lt => b
  | Some Gt => a
  | Some Eq => match a with S754_zero true => b | _ => a end
  end.

Definition Math_min (a b : number) : number :=
  match SFcompare a b with
  | None => NaN
  | Some Lt => a
  | Some Gt => b
  | Some Eq => match a with S754_zero true => a | _ => b end
  end.

(** The integer part (towards zero) of a finite number. *)
Definition trunc (x : number) : Z :=
  match x with
  | S754_finite s m e =>
      if 0 <=? e then signed s m * 2 ^ e
      else cond_Zopp s (Z.shiftr (Zpos m) (- e))
  | _ => 0
  end.

(** The integer a number denotes, if it denotes one. *)
Definition to_integer (x : number) : option Z :=
  match x with
  | S754_zero _ => Some 0
  | S754_finite s m e =>
      if 0 <=? e then Some (signed s m * 2 ^ e)
      else if Zpos m mod 2 ^ (- e) =? 0 then Some (trunc x) else None
  | _ => None
  end.

End Num.

Module Pcm.

(** [PcmHeader] of [src/types/index.ts]. *)
Record PcmHeader := mkPcmHeader {
  magic : string;
  sample_rate : Z;
  channels : Z;
  bits : Z;
  frame_samps : Z;
  reserved : Z
}.

(** *** [DataView] reads.  An access outside the view raises RangeError. *)

Definition getUint8 (view : Buffer) (off : nat) : JsResult Z :=
  match view !! off with
  | Some b => Ret (u8 b)
  | None => Throw RangeError
  end.

(** [getUint16(off, true)] and [getUint32(off, true)]: little endian. *)
Definition getUint16LE (view : Buffer) (off : nat) : JsResult Z :=
  let* b0 := getUint8 view off in
  let* b1 := getUint8 view (off + 1) in
  Ret (Z.lor b0 (Z.shiftl b1 8)).

Definition getUint32LE (view : Buffer) (off : nat) : JsResult Z :=
  let* b0 := getUint8 view off in
  let* b1 := getUint8 view (off + 1) in
  let* b2 := getUint8 view (off + 2) in
  let* b3 := getUint8 view (off + 3) in
  Ret (Z.lor (Z.lor b0 (Z.shiftl b1 8))
             (Z.lor (Z.shiftl b2 16) (Z.shiftl b3 24))).

(** *** [Buffer] writes.  Node checks the value against the field width
    and the offset against the buffer, and raises ERR_OUT_OF_RANGE (a
    RangeError) otherwise; then it stores the value byte by byte, shifting
    right by eight between stores. *)

Definition writeUIntLE (width : nat) (value : Z) (off : nat) (buf : Buffer)
  : JsResult Buffer :=
  if (0 <=? value) && (value <? 2 ^ (8 * Z.of_nat width))
     && (off + width <=? length buf)%nat
  then Ret (poke off
              (List.map (fun k => byte_of_Z (Z.shiftr value (8 * Z.of_nat k)))
                        (seq 0 width))
              buf)
  else Throw RangeError.

Definition writeUInt8 := writeUIntLE 1.
Definition writeUInt16LE := writeUIntLE 2.
Definition writeUInt32LE := writeUIntLE 4.

(** [buf.write(s, off, len)]: at most [len] bytes of [s], and no more than
    fit in the buffer. *)
Definition write (s : string) (off len : nat) (buf : Buffer) : Buffer :=
  poke off (take (Nat.min len (length buf - off)) (bytes_of_string s)) buf.

(** [parsePcmHeader], pcm.ts lines 8-34.  [None] is JavaScript's null. *)
Definition parsePcmHeader (buffer : Buffer) : JsResult (option PcmHeader) :=
  let view := buffer in
  if (length buffer <? 16)%nat then Ret None
  else
    let* c0 := getUint8 view 0 in
    let* c1 := getUint8 view 1 in
    let* c2 := getUint8 view 2 in
    let* c3 := getUint8 view 3 in
    let magic := string_of_bytes (List.map byte_of_Z [c0; c1; c2; c3]) in
    if negb (String.eqb magic "PCM1") then Ret None
    else
      let* sample_rate := getUint32LE view 4 in
      let* channels := getUint8 view 8 in
      let* bits := getUint8 view 9 in
      let* frame_samps := getUint16LE view 10 in
      let* reserved := getUint16LE view 12 in
      Ret (Some (mkPcmHeader magic sample_rate channels bits frame_samps reserved)).

(** [createPcmHeader], pcm.ts lines 44-74. *)
Definition createPcmHeader (sampleRate channels bits frameSamps : Z)
  : JsResult Buffer :=
  let headerBuffer := alloc 16 in
  let headerBuffer := write "PCM1" 0 4 headerBuffer in
  let* headerBuffer := writeUInt32LE sampleRate 4 headerBuffer in
  let* headerBuffer := writeUInt8 channels 8 headerBuffer in
  let* headerBuffer := writeUInt8 bits 9 headerBuffer in
  let* headerBuffer := writeUInt16LE frameSamps 10 headerBuffer in
  let* headerBuffer := writeUInt16LE 0 12 headerBuffer in
  let* headerBuffer := writeUInt16LE 0 14 headerBuffer in
  Ret headerBuffer.

(** [calculateDuration], pcm.ts lines 204-213; the result is a fraction of
    a second. *)
Definition calculateDuration (dataSize sampleRate channels bitsPerSample : Z)
  : Num.number :=
  let bytesPerSample :=
    Num.mul (Num.div (Num.of_Z bitsPerSample) (Num.of_Z 8)) (Num.of_Z channels) in
  let totalSamples := Num.div (Num.of_Z dataSize) bytesPerSample in
  Num.div totalSamples (Num.of_Z sampleRate).

End Pcm.


(** ** The frame classifier of the WebSocket server *)

Module Ws.
Import Pcm.

(** What the transport hands to [handleMessage]: a [Buffer], or something
    else, of which only [String(data)] is used. *)
Inductive RawData :=
  | IsBuffer (data : Buffer)
  | NotBuffer (message : string).

Inductive MessageType :=
  | MsgHeader (data : Buffer) (header : PcmHeader)
  | MsgAudio (data : Buffer)
  | MsgEnd
  | MsgText (message : string).

(** [SessionInfo] without the socket.  A null [header] is the state in
    which the connection waits for a stream header; a set [header] is the
    streaming state. *)
Record SessionInfo := mkSessionInfo {
  sessionId : string;
  header : option PcmHeader;
  isAlive : bool
}.

(** Which handlers were injected.  What [onMessage] does when it is called
    is the [Outcome] given to [handleMessage]. *)
Record WebSocketHandlers := mkHandlers {
  onMessage : bool
}.

Inductive Effect :=
  | OnMessage (sessionId : string) (message : MessageType)
  | WarnDataBeforeHeader (sessionId : string)
  | ErrorProcessingMessage
  | SendJsonError.

(** [data.toString('utf8') === lit] for an ASCII literal: decoding yields
    an ASCII character only from its own single byte, so the comparison
    holds exactly when the bytes are those of the literal. *)
Definition utf8_equals (data : Buffer) (lit : string) : bool :=
  bool_decide (data = bytes_of_string lit).

Definition END_signal : string := String "E" (String "N" (String "D" (String zero EmptyString))).

(** The four bytes of the end signal. *)
Definition END_frame : Buffer := bytes_of_string END_signal.

(** [if (this.handlers.onMessage) await this.handlers.onMessage(...)]: the
    await raises both what the handler throws and what its promise rejects
    with. *)
Definition deliver (handlers : WebSocketHandlers) (sessionId : string)
    (messageType : MessageType) (oc : Outcome) : JsResult unit * list Effect :=
  if onMessage handlers then
    (match oc with Returns => Ret tt | _ => Throw CallbackError end,
     [OnMessage sessionId messageType])
  else (Ret tt, []).

(** The body of the try block of [handleMessage]. *)
Definition handleMessage_try (handlers : WebSocketHandlers) (session : SessionInfo)
    (data : RawData) (oc : Outcome) : JsResult unit * SessionInfo * list Effect :=
  match data with
  | NotBuffer message =>
      let '(r, eff) := deliver handlers (sessionId session) (MsgText message) oc in
      (r, session, eff)
  | IsBuffer data =>
      if is_null (header session) && (16 <=? length data)%nat
         && utf8_equals (take 4 data) "PCM1"
      then
        let view := data in
        let parsed :=
          let* sample_rate := getUint32LE view 4 in
          let* channels := getUint8 view 8 in
          let* bits := getUint8 view 9 in
          let* frame_samps := getUint16LE view 10 in
          let* reserved := getUint16LE view 12 in
          Ret (mkPcmHeader "PCM1" sample_rate channels bits frame_samps reserved) in
        match parsed with
        | Throw e => (Throw e, session, [])
        | Ret hdr =>
            let session := mkSessionInfo (sessionId session) (Some hdr) (isAlive session) in
            let '(r, eff) := deliver handlers (sessionId session) (MsgHeader data hdr) oc in
            (r, session, eff)
        end
      else if (length data =? 4)%nat && utf8_equals data END_signal then
        let '(r, eff) := deliver handlers (sessionId session) MsgEnd oc in
        match r with
        | Ret _ =>
            (Ret tt, mkSessionInfo (sessionId session) None (isAlive session), eff)
        | Throw e => (Throw e, session, eff)
        end
      else
        match header session with
        | Some _ =>
            let '(r, eff) := deliver handlers (sessionId session) (MsgAudio data) oc in
            (r, session, eff)
        | None => (Ret tt, session, [WarnDataBeforeHeader (sessionId session)])
        end
  end.

(** [handleMessage], with its catch clause, as one call run from its
    start to its end: nothing else happens on the connection between the
    call of the handler and the moment its promise has settled.  Module
    [Listener] has the calls that overlap. *)
Definition handleMessage (handlers : WebSocketHandlers) (session : SessionInfo)
    (data : RawData) (oc : Outcome) : SessionInfo * list Effect :=
  let '(r, session, eff) := handleMessage_try handlers session data oc in
  match r with
  | Ret _ => (session, eff)
  | Throw _ => (session, eff ++ [ErrorProcessingMessage; SendJsonError])
  end.

(** The session record made by [handleConnection]. *)
Definition handleConnection (sessionId : string) : SessionInfo :=
  mkSessionInfo sessionId None true.

(** The frames of a connection in arrival order, when the handler called
    for a frame has settled before the next frame arrives: every call of
    [handleMessage] is then at its end when the next one begins.  The
    listener itself does not wait for that; [Listener.run] below has the
    frames that arrive earlier. *)
Fixpoint feed (handlers : WebSocketHandlers) (session : SessionInfo)
    (frames : list (RawData * Outcome)) : SessionInfo * list Effect :=
  match frames with
  | [] => (session, [])
  | (data, oc) :: rest =>
      let '(session, eff) := handleMessage handlers session data oc in
      let '(session, eff') := feed handlers session rest in
      (session, eff ++ eff')
  end.

End Ws.

(** ** The message listener: calls of [handleMessage] that overlap *)

Module Listener.
Import Pcm Ws.

(** [handleMessage] is an async function, and the listener that
    [handleConnection] installs calls it without waiting for its promise:
    [ws.on('message', (data) => { this.handleMessage(ws, session, data) })].
    A call runs until it awaits the injected handler and is suspended
    there; it is resumed when the promise of the handler has settled.  In
    between, later frames are handled on the same [session] object. *)

(** What is left of a suspended call. *)
Inductive Rest :=
  | ResetHeader     (* after the end message: [session.header = null], line 1021 *)
  | JustReturn.     (* after any other message *)

(** A connection: its session object, and the calls suspended at their
    await, oldest first, each with what is left of it and with how the
    handler it awaits settles. *)
Record Connection := mkConnection {
  session : SessionInfo;
  suspended : list (Rest * Outcome)
}.

(** The rest of a call whose handler has fulfilled, run on the session as
    it is by then. *)
Definition finish (rest : Rest) (session : SessionInfo) : SessionInfo :=
  match rest with
  | ResetHeader => mkSessionInfo (sessionId session) None (isAlive session)
  | JustReturn => session
  end.

(** [if (this.handlers.onMessage) await this.handlers.onMessage(...)],
    followed by [rest].  Without a handler nothing is awaited and the rest
    runs at once.  A handler that throws is caught at once.  Any other
    handler suspends the call, even one that returns no promise: [await]
    always gives way. *)
Definition await_onMessage (handlers : WebSocketHandlers) (session : SessionInfo)
    (messageType : MessageType) (oc : Outcome) (rest : Rest)
  : SessionInfo * list Effect * option (Rest * Outcome) :=
  if onMessage handlers then
    match oc with
    | ThrowsSync =>
        (session,
         [OnMessage (sessionId session) messageType; ErrorProcessingMessage; SendJsonError],
         None)
    | _ => (session, [OnMessage (sessionId session) messageType], Some (rest, oc))
    end
  else (finish rest session, [], None).

(** [handleMessage] from its start to its await, or to its end when it
    awaits nothing: the session object afterwards, what was observed, and
    the suspended rest of the call if there is one. *)
Definition handleMessage_start (handlers : WebSocketHandlers) (session : SessionInfo)
    (data : RawData) (oc : Outcome)
  : SessionInfo * list Effect * option (Rest * Outcome) :=
  match data with
  | NotBuffer message =>
      await_onMessage handlers session (MsgText message) oc JustReturn
  | IsBuffer data =>
      if is_null (header session) && (16 <=? length data)%nat
         && utf8_equals (take 4 data) "PCM1"
      then
        let view := data in
        let parsed :=
          let* sample_rate := getUint32LE view 4 in
          let* channels := getUint8 view 8 in
          let* bits := getUint8 view 9 in
          let* frame_samps := getUint16LE view 10 in
          let* reserved := getUint16LE view 12 in
          Ret (mkPcmHeader "PCM1" sample_rate channels bits frame_samps reserved) in
        match parsed with
        | Throw e => (session, [ErrorProcessingMessage; SendJsonError], None)
        | Ret hdr =>
            let session := mkSessionInfo (sessionId session) (Some hdr) (isAlive session) in
            await_onMessage handlers session (MsgHeader data hdr) oc JustReturn
        end
      else if (length data =? 4)%nat && utf8_equals data END_signal then
        await_onMessage handlers session MsgEnd oc ResetHeader
      else
        match header session with
        | Some _ => await_onMessage handlers session (MsgAudio data) oc JustReturn
        | None => (session, [WarnDataBeforeHeader (sessionId session)], None)
        end
  end.

(** A suspended call resumed: after a handler that fulfilled, its rest
    runs; after one that rejected, the catch clause. *)
Definition handleMessage_resume (call : Rest * Outcome) (session : SessionInfo)
  : SessionInfo * list Effect :=
  match snd call with
  | Returns => (finish (fst call) session, [])
  | _ => (session, [ErrorProcessingMessage; SendJsonError])
  end.

(** What happens on a connection: a frame arrives, [oc] telling how the
    handler called for it comes back; or the handler awaited by the
    suspended call number [k] settles. *)
Inductive Event :=
  | Arrive (data : RawData) (oc : Outcome)
  | Settle (k : nat).

Definition step (handlers : WebSocketHandlers) (c : Connection) (e : Event)
  : Connection * list Effect :=
  match e with
  | Arrive data oc =>
      let '(session, eff, call) := handleMessage_start handlers (session c) data oc in
      (mkConnection session
         (suspended c ++ match call with Some call => [call] | None => [] end),
       eff)
  | Settle k =>
      match suspended c !! k with
      | Some call =>
          let '(session, eff) := handleMessage_resume call (session c) in
          (mkConnection session (delete k (suspended c)), eff)
      | None => (c, [])
      end
  end.

Fixpoint run (handlers : WebSocketHandlers) (c : Connection) (events : list Event)
  : Connection * list Effect :=
  match events with
  | [] => (c, [])
  | e :: events =>
      let '(c, eff) := step handlers c e in
      let '(c, eff') := run handlers c events in
      (c, eff ++ eff')
  end.

(** The connection made by [handleConnection]: no call is under way. *)
Definition handleConnection (sessionId : string) : Connection :=
  mkConnection (Ws.handleConnection sessionId) [].

(** The events in which every handler settles before the next frame
    arrives. *)
Definition in_turn (frames : list (RawData * Outcome)) : list Event :=
  flat_map (fun frame => [Arrive (fst frame) (snd frame); Settle 0]) frames.

End Listener.

(** ** The session manager *)

Module Session.
Import Pcm.

(** The values [setSessionData<T>] can be handed: any value.  [JNumber]
    is a number that is an integer; [JOther] is any other primitive value
    (a number that is no integer, a bigint, a symbol), of which all that
    is known is what it counts as in a condition and which one it is,
    told by a number.  Of a function, and of an object that is neither a
    header nor an array of buffers, nothing is known but which one it
    is. *)
Inductive JsValue :=
  | JUndefined
  | JNull
  | JBoolean (b : bool)
  | JNumber (n : Z)
  | JString (s : string)
  | JOther (truthy : bool) (v : nat)
  | JHeader (h : PcmHeader)
  | JBuffers (bs : list Buffer)
  | JFunction (f : nat)
  | JObject (o : nat).

(** A value that can be called. *)
Definition callable (value : JsValue) : bool :=
  match value with
  | JFunction _ => true
  | _ => false
  end.

(** An object, or null: what the setter of [__proto__] takes for a
    prototype. *)
Definition is_prototype (value : JsValue) : bool :=
  match value with
  | JNull | JHeader _ | JBuffers _ | JFunction _ | JObject _ => true
  | _ => false
  end.

(** [StreamingSession] of [src/types/index.ts].  The five declared fields
    hold values of their declared types; every other own property of the
    object (the optional [conversationId] among them) is in [extra]. *)
Record StreamingSession := mkSession {
  sessionId : string;
  dataChunks : list Buffer;
  startTime : Z;
  totalBytes : Z;
  header : option PcmHeader;
  extra : gmap string JsValue
}.

(** A session object with a callable property [then] is a thenable: a
    promise that is resolved with it does not fulfil with it, it calls its
    [then] and settles as that function says. *)
Definition thenable (session : StreamingSession) : bool :=
  match extra session !! "then"%string with
  | Some value => callable value
  | None => false
  end.

Record SessionConfig := mkConfig {
  maxBytes : Z;
  maxDurationMs : Z;
  maxChunks : Z;
  idleTimeoutMs : Z
}.

(** Which callbacks were injected.  What a callback does when it is called
    is the [Outcome] given to the operation that calls it. *)
Record SessionCallbacks := mkCallbacks {
  onCreate : bool;
  onEnd : bool;
  onLimitExceeded : bool;
  onIdle : bool
}.

Record SessionManager := mkManager {
  sessions : gmap string StreamingSession;
  lastActivity : gmap string Z;
  config : SessionConfig;
  callbacks : SessionCallbacks
}.

(** The constructor: the given limits override the defaults. *)
Definition new (maxBytes' maxDurationMs' maxChunks' idleTimeoutMs' : option Z)
    (callbacks : SessionCallbacks) : SessionManager :=
  mkManager ∅ ∅
    (mkConfig (default (5 * 1024 * 1024) maxBytes')
              (default 60000 maxDurationMs')
              (default 200 maxChunks')
              (default 5000 idleTimeoutMs'))
    callbacks.

(** What an operation does besides changing the manager: the callbacks it
    calls, with their arguments, and the lines it logs. *)
Inductive Event :=
  | CallOnCreate (session : StreamingSession)
  | CallOnEnd (session : StreamingSession)
  | CallOnLimitExceeded (session : StreamingSession) (reason : string)
  | LogSessionCreated (sessionId : string)
  | LogSessionEnded (sessionId : string)
  | WarnSessionNotFound (sessionId : string)
  | WarnMaxBytes (sessionId : string) (newTotalBytes maxBytes : Z)
  | WarnMaxDuration (sessionId : string) (duration maxDurationMs : Z)
  | WarnMaxChunks (sessionId : string) (chunkCount maxChunks : Z)
  | ErrorInOnCreate.

Definition set_sessions (m : SessionManager) (ss : gmap string StreamingSession)
    (la : gmap string Z) : SessionManager :=
  mkManager ss la (config m) (callbacks m).

(** [createSession].  [now1] and [now2] are its two readings of the clock.
    The callback is called inside the argument of [Promise.resolve], so
    what it throws leaves [createSession] before [.catch] is attached;
    a promise that rejects is caught, and reported after the call is over. *)
Definition createSession (sessionId : string) (header : option PcmHeader)
    (now1 now2 : Z) (oc : Outcome) (m : SessionManager)
  : JsResult StreamingSession * SessionManager * list Event :=
  let session := mkSession sessionId [] now1 0 header ∅ in
  let m := set_sessions m (<[sessionId := session]> (sessions m))
                          (<[sessionId := now2]> (lastActivity m)) in
  if onCreate (callbacks m) then
    match oc with
    | ThrowsSync => (Throw CallbackError, m, [CallOnCreate session])
    | Returns =>
        (Ret session, m, [CallOnCreate session; LogSessionCreated sessionId])
    | RejectsLater =>
        (Ret session, m,
         [CallOnCreate session; LogSessionCreated sessionId; ErrorInOnCreate])
    end
  else (Ret session, m, [LogSessionCreated sessionId]).

Definition getSession (sessionId : string) (m : SessionManager)
  : option StreamingSession :=
  sessions m !! sessionId.

Definition hasSession (sessionId : string) (m : SessionManager) : bool :=
  negb (is_null (sessions m !! sessionId)).

Definition setHeader (sessionId : string) (header' : PcmHeader) (now : Z)
    (m : SessionManager) : bool * SessionManager :=
  match sessions m !! sessionId with
  | None => (false, m)
  | Some session =>
      let session := mkSession (Session.sessionId session) (dataChunks session)
                       (startTime session) (totalBytes session) (Some header')
                       (extra session) in
      (true, set_sessions m (<[sessionId := session]> (sessions m))
                            (<[sessionId := now]> (lastActivity m)))
  end.

(** [this.callbacks.onLimitExceeded(session, reason)], when injected: a
    plain call, so only a throw comes back to [addChunk]. *)
Definition notifyLimit (m : SessionManager) (session : StreamingSession)
    (reason : string) (oc : Outcome) : JsResult bool * list Event :=
  if onLimitExceeded (callbacks m) then
    (match oc with ThrowsSync => Throw CallbackError | _ => Ret false end,
     [CallOnLimitExceeded session reason])
  else (Ret false, []).

(** [addChunk].  [now1] is the clock read for the duration check, [now2]
    the one stored as last activity. *)
Definition addChunk (sessionId : string) (chunk : Buffer) (now1 now2 : Z)
    (oc : Outcome) (m : SessionManager)
  : JsResult bool * SessionManager * list Event :=
  match sessions m !! sessionId with
  | None => (Ret false, m, [WarnSessionNotFound sessionId])
  | Some session =>
      let newTotalBytes := totalBytes session + Z.of_nat (length chunk) in
      if maxBytes (config m) <? newTotalBytes then
        let '(r, ev) := notifyLimit m session "max_bytes" oc in
        (r, m, WarnMaxBytes sessionId newTotalBytes (maxBytes (config m)) :: ev)
      else
        let duration := now1 - startTime session in
        if maxDurationMs (config m) <? duration then
          let '(r, ev) := notifyLimit m session "max_duration" oc in
          (r, m, WarnMaxDuration sessionId duration (maxDurationMs (config m)) :: ev)
        else if maxChunks (config m) <=? Z.of_nat (length (dataChunks session)) then
          let '(r, ev) := notifyLimit m session "max_chunks" oc in
          (r, m, WarnMaxChunks sessionId (Z.of_nat (length (dataChunks session)))
                   (maxChunks (config m)) :: ev)
        else
          let session := mkSession (Session.sessionId session)
                           (dataChunks session ++ [chunk]) (startTime session)
                           newTotalBytes (header session) (extra session) in
          (Ret true,
           set_sessions m (<[sessionId := session]> (sessions m))
                          (<[sessionId := now2]> (lastActivity m)),
           [])
  end.

(** [getAudioData]; [Buffer.concat] joins the chunks in order. *)
Definition getAudioData (sessionId : string) (m : SessionManager) : option Buffer :=
  match sessions m !! sessionId with
  | None => None
  | Some session =>
      if (length (dataChunks session) =? 0)%nat then None
      else Some (concat (dataChunks session))
  end.

Record Stats := mkStats {
  duration : Z;
  stat_totalBytes : Z;
  chunkCount : Z;
  audioDuration : Num.number
}.

Definition getStats (sessionId : string) (now : Z) (m : SessionManager)
  : option Stats :=
  match sessions m !! sessionId with
  | None => None
  | Some session =>
      let duration := now - startTime session in
      let audioDuration :=
        match header session with
        | Some h =>
            if 0 <? totalBytes session then
              calculateDuration (totalBytes session) (sample_rate h) (channels h) (bits h)
            else Num.of_Z 0
        | None => Num.of_Z 0
        end in
      Some (mkStats duration (totalBytes session)
              (Z.of_nat (length (dataChunks session))) audioDuration)
  end.

(** [endSession] is an async function: [Ret v] is [return v], which
    resolves its promise with [v], and [Throw] is a throw, which rejects
    it.  Resolved with null, or with a session that is no thenable, the
    promise fulfils with that value; [settlement] below tells the two
    apart.  The session is deleted before the callback is awaited. *)
Definition endSession (sessionId : string) (oc : Outcome) (m : SessionManager)
  : JsResult (option StreamingSession) * SessionManager * list Event :=
  match sessions m !! sessionId with
  | None => (Ret None, m, [])
  | Some session =>
      let m := set_sessions m (delete sessionId (sessions m))
                              (delete sessionId (lastActivity m)) in
      if onEnd (callbacks m) then
        match oc with
        | Returns => (Ret (Some session), m, [CallOnEnd session; LogSessionEnded sessionId])
        | _ => (Throw CallbackError, m, [CallOnEnd session])
        end
      else (Ret (Some session), m, [LogSessionEnded sessionId])
  end.

(** What the promise of [endSession] settles to: it fulfils, it rejects,
    or, resolved with a thenable session, it settles as the [then] of that
    session says. *)
Inductive Settlement :=
  | Fulfilled (value : option StreamingSession)
  | Rejected (e : JsError)
  | AsThenSays (session : StreamingSession).

Definition settlement (r : JsResult (option StreamingSession)) : Settlement :=
  match r with
  | Throw e => Rejected e
  | Ret None => Fulfilled None
  | Ret (Some session) =>
      if thenable session then AsThenSays session else Fulfilled (Some session)
  end.

(** [(session as any)[key] = value].  A key that names a declared field
    overwrites that field; the embedding follows this when the value has
    the field's type and answers [None] when it has not, since the object
    then stops being a [StreamingSession].  The key [__proto__] reaches the
    inherited setter, which creates no own property: handed a primitive
    value it does nothing; handed an object or null it puts that in the
    place of the prototype of the session, and the embedding, which does
    not follow prototypes, answers [None] again.  Any other key becomes,
    or overwrites, an own property. *)
Definition assign (session : StreamingSession) (key : string) (value : JsValue)
  : option StreamingSession :=
  let '(mkSession sid chunks start total hdr ext) := session in
  if String.eqb key "sessionId" then
    match value with JString v => Some (mkSession v chunks start total hdr ext) | _ => None end
  else if String.eqb key "dataChunks" then
    match value with JBuffers v => Some (mkSession sid v start total hdr ext) | _ => None end
  else if String.eqb key "startTime" then
    match value with JNumber v => Some (mkSession sid chunks v total hdr ext) | _ => None end
  else if String.eqb key "totalBytes" then
    match value with JNumber v => Some (mkSession sid chunks start v hdr ext) | _ => None end
  else if String.eqb key "header" then
    match value with
    | JHeader v => Some (mkSession sid chunks start total (Some v) ext)
    | JNull => Some (mkSession sid chunks start total None ext)
    | _ => None
    end
  else if String.eqb key "__proto__" then
    (if is_prototype value then None else Some session)
  else Some (mkSession sid chunks start total hdr (<[key := value]> ext)).

(** [setSessionData]; [None] only as explained at [assign]. *)
Definition setSessionData (sessionId : string) (key : string) (value : JsValue)
    (m : SessionManager) : option (bool * SessionManager) :=
  match sessions m !! sessionId with
  | None => Some (false, m)
  | Some session =>
      match assign session key value with
      | None => None
      | Some session =>
          Some (true, set_sessions m (<[sessionId := session]> (sessions m))
                                     (lastActivity m))
      end
  end.

(** *** Sequences of calls

    A client of the manager makes calls one after the other; each call
    answers with a reply and a list of events. *)

Inductive Call :=
  | CreateSession (sessionId : string) (header : option PcmHeader)
      (now1 now2 : Z) (oc : Outcome)
  | SetHeader (sessionId : string) (header : PcmHeader) (now : Z)
  | AddChunk (sessionId : string) (chunk : Buffer) (now1 now2 : Z) (oc : Outcome)
  | GetAudioData (sessionId : string)
  | GetStats (sessionId : string) (now : Z)
  | EndSession (sessionId : string) (oc : Outcome).

Inductive Reply :=
  | SessionReply (r : JsResult StreamingSession)
  | BoolReply (r : JsResult bool)
  | BufferReply (r : option Buffer)
  | StatsReply (r : option Stats)
  | EndReply (r : JsResult (option StreamingSession)).

Definition call (c : Call) (m : SessionManager)
  : Reply * SessionManager * list Event :=
  match c with
  | CreateSession sessionId header now1 now2 oc =>
      let '(r, m, ev) := createSession sessionId header now1 now2 oc m in
      (SessionReply r, m, ev)
  | SetHeader sessionId header now =>
      let '(r, m) := setHeader sessionId header now m in
      (BoolReply (Ret r), m, [])
  | AddChunk sessionId chunk now1 now2 oc =>
      let '(r, m, ev) := addChunk sessionId chunk now1 now2 oc m in
      (BoolReply r, m, ev)
  | GetAudioData sessionId => (BufferReply (getAudioData sessionId m), m, [])
  | GetStats sessionId now => (StatsReply (getStats sessionId now m), m, [])
  | EndSession sessionId oc =>
      let '(r, m, ev) := endSession sessionId oc m in
      (EndReply r, m, ev)
  end.

Fixpoint run (calls : list Call) (m : SessionManager)
  : list (Reply * list Event) * SessionManager :=
  match calls with
  | [] => ([], m)
  | c :: calls =>
      let '(r, m, ev) := call c m in
      let '(rs, m) := run calls m in
      ((r, ev) :: rs, m)
  end.

Definition is_AddChunk (c : Call) : bool :=
  match c with
  | AddChunk _ _ _ _ _ => true
  | _ => false
  end.

(** The chunks that the calls [addChunk(sessionId, _)] answered with true
    handed over, in call order. *)
Fixpoint admitted (sessionId : string) (calls : list Call)
    (replies : list (Reply * list Event)) : list Buffer :=
  match calls, replies with
  | AddChunk sessionId' chunk _ _ _ :: calls, (BoolReply (Ret true), _) :: replies =>
      if String.eqb sessionId' sessionId
      then chunk :: admitted sessionId calls replies
      else admitted sessionId calls replies
  | _ :: calls, _ :: replies => admitted sessionId calls replies
  | _, _ => []
  end.

Definition total_length (chunks : list Buffer) : Z :=
  fold_right (fun chunk acc => Z.of_nat (length chunk) + acc) 0 chunks.

(** The sessions handed to [onEnd] during an operation. *)
Definition end_notifications (ev : list Event) : list StreamingSession :=
  omap (fun e => match e with CallOnEnd session => Some session | _ => None end) ev.

(** *** A session, a reply and an event without the sidecar properties *)

Definition declared (session : StreamingSession) : StreamingSession :=
  mkSession (sessionId session) (dataChunks session) (startTime session)
    (totalBytes session) (header session) ∅.

Definition declared_result {A} (f : A -> A) (r : JsResult A) : JsResult A :=
  match r with
  | Ret a => Ret (f a)
  | Throw e => Throw e
  end.

Definition declared_reply (r : Reply) : Reply :=
  match r with
  | SessionReply r => SessionReply (declared_result declared r)
  | EndReply r => EndReply (declared_result (fmap declared) r)
  | _ => r
  end.

Definition declared_event (e : Event) : Event :=
  match e with
  | CallOnCreate session => CallOnCreate (declared session)
  | CallOnEnd session => CallOnEnd (declared session)
  | CallOnLimitExceeded session reason => CallOnLimitExceeded (declared session) reason
  | _ => e
  end.

Definition declared_step (x : Reply * list Event) : Reply * list Event :=
  (declared_reply x.1, declared_event <$> x.2).

Definition field_names : list string :=
  ["sessionId"; "dataChunks"; "startTime"; "totalBytes"; "header"].

(** The assignment [session[key] = value] replaces the prototype of the
    session. *)
Definition replaces_prototype (key : string) (value : JsValue) : bool :=
  String.eqb key "__proto__" && is_prototype value.

(** The assignment [session[key] = value] touches what makes a thenable:
    it stores a function under [then], or it overwrites one there. *)
Definition changes_thenable (session : StreamingSession) (key : string)
    (value : JsValue) : bool :=
  String.eqb key "then" && (callable value || thenable session).

(** Two managers that differ in sidecar properties only. *)
Definition same_declared (m m' : SessionManager) : Prop :=
  config m = config m'
  /\ callbacks m = callbacks m'
  /\ lastActivity m = lastActivity m'
  /\ declared <$> sessions m = declared <$> sessions m'.

End Session.

(** ** Resampling, [src/core/audio-conversion.ts] *)

Module Audio.
Import Num.

(** The contents of an [Int16Array]. *)
Abbreviation Int16Array := (list Z).

(** [new Int16Array(length)] on an engine that can make arrays of up to
    [capacity] elements.  The argument goes through ToIndex, under which NaN
    counts as 0 and a fraction is dropped; a length that is negative or
    infinite raises RangeError.  The array takes two bytes an element, and
    a data block of more than 2^53 - 1 bytes raises RangeError: that is
    from 2^52 elements on.  So does a block that the engine cannot create,
    for want of memory or because of a limit of its own. *)
Definition newInt16Array_on (capacity : Z) (length : number) : JsResult Int16Array :=
  match length with
  | S754_infinity _ => Throw RangeError
  | _ =>
      let n := trunc length in
      if (0 <=? n) && (n <=? 2 ^ 52 - 1) && (n <=? capacity)
      then Ret (List.repeat 0 (Z.to_nat n))
      else Throw RangeError
  end.

(** [new Int16Array(length)] on an engine that can make every array the
    language allows. *)
Definition newInt16Array (length : number) : JsResult Int16Array :=
  newInt16Array_on (2 ^ 52 - 1) length.

(** The value [pcm[k]] contributes to an arithmetic expression: the
    element when [k] denotes an index of the array, and otherwise
    [undefined], which arithmetic turns into NaN. *)
Definition element (pcm : Int16Array) (k : number) : number :=
  match to_integer k with
  | Some i =>
      if 0 <=? i then
        match pcm !! Z.to_nat i with
        | Some v => of_Z v
        | None => NaN
        end
      else NaN
  | None => NaN
  end.

(** What [out[i] = v] stores in an [Int16Array]: NaN, the zeros and the
    infinities become 0, anything else is cut to an integer and wrapped
    into sixteen signed bits. *)
Definition ToInt16 (v : number) : Z :=
  match v with
  | S754_finite _ _ _ => (trunc v + 32768) mod 65536 - 32768
  | _ => 0
  end.

(** The body of the loop of [resampleInt16Mono] at index [i]. *)
Definition interpolate (pcm : Int16Array) (ratio : number) (i : nat) : Z :=
  let srcPos := div (of_Z (Z.of_nat i)) ratio in
  let i0 := Math_floor srcPos in
  let i1 := Math_min (of_Z (Z.of_nat (length pcm) - 1)) (add i0 (of_Z 1)) in
  let t := sub srcPos i0 in
  let s := add (mul (sub (of_Z 1) t) (element pcm i0)) (mul t (element pcm i1)) in
  ToInt16 (Math_max (of_Z (-32768)) (Math_min (of_Z 32767) (Math_round s))).

(** [for (let i = 0; i < outLen; i++) out[i] = ...]: [steps] iterations
    from index [i] on. *)
Fixpoint fill (pcm : Int16Array) (ratio : number) (steps i : nat)
    (out : Int16Array) : Int16Array :=
  match steps with
  | O => out
  | S steps => fill pcm ratio steps (S i) (<[i := interpolate pcm ratio i]> out)
  end.

Definition outLen (pcm : Int16Array) (srcRate dstRate : number) : number :=
  let ratio := div dstRate srcRate in
  Math_max (of_Z 1) (Math_floor (mul (of_Z (Z.of_nat (length pcm))) ratio)).

(** [resampleInt16Mono], lines 253-272, on an engine that can make arrays
    of up to [capacity] elements.  [outLen] is an integer of at least 1, or
    NaN; in the first case it is the length of [out], in the second [out]
    is empty and [i < outLen] fails at once: either way the loop runs over
    the indices of [out]. *)
Definition resampleInt16Mono_on (capacity : Z) (pcm : Int16Array)
    (srcRate dstRate : number) : JsResult Int16Array :=
  if strict_eq srcRate dstRate then Ret pcm
  else
    let ratio := div dstRate srcRate in
    let outLen := Math_max (of_Z 1)
                    (Math_floor (mul (of_Z (Z.of_nat (length pcm))) ratio)) in
    let* out := newInt16Array_on capacity outLen in
    Ret (fill pcm ratio (length out) 0 out).

(** [resampleInt16Mono] on an engine that can make every array the
    language allows. *)
Definition resampleInt16Mono (pcm : Int16Array) (srcRate dstRate : number)
  : JsResult Int16Array :=
  resampleInt16Mono_on (2 ^ 52 - 1) pcm srcRate dstRate.

End Audio.

(** ** Concrete managers and inputs used as examples below *)

Module Demo.
Import Session.

(** [new SessionManager({maxBytes: 10, maxChunks: 2}, {onCreate, onEnd,
    onLimitExceeded})]. *)
Definition manager0 : SessionManager :=
  new (Some 10) None (Some 2) None (mkCallbacks true true true false).

(** ... after [createSession('s1')] at clock 1000. *)
Definition manager1 : SessionManager :=
  snd (fst (createSession "s1" None 1000 1001 Returns manager0)).

Definition session1 : StreamingSession := mkSession "s1" [] 1000 0 None ∅.

(** ... after [setSessionData('s1', 'totalBytes', 999)]. *)
Definition manager2 : SessionManager :=
mkManager {[ "s1"%string := mkSession "s1" [] 1000 999 None ∅ ]}
  (lastActivity manager1) (config manager1) (callbacks manager1).

(** 5507 samples of silence: an eighth of a second at 44056 Hz. *)
Definition silence : list Z := List.repeat 0 (Z.to_nat 5507).

End Demo.

(** ** The rest of [src/core/pcm.ts]: PCM1 files and WAV headers *)

Module PcmFile.
Import Pcm.

(** [AudioFormat] of [src/types/index.ts]. *)
Record AudioFormat := mkAudioFormat {
  sampleRate : Z;
  channels : Z;
  bitsPerSample : Z
}.

(** [createPcmWithHeader], pcm.ts lines 84-92. *)
Definition createPcmWithHeader (pcmData : Buffer) (sampleRate channels bits : Z)
  : JsResult Buffer :=
  let* header := createPcmHeader sampleRate channels bits 320 in
  Ret (header ++ pcmData).

(** A write of [num / 8], for the two header values computed with a
    division by eight.  Node compares the number itself with the bounds of
    the width and raises outside them; it then stores the integer part.
    The integer products involved are exact in double precision below 2^53
    and far outside every width above it, so the comparison and the stored
    bytes are those of exact arithmetic. *)
Definition writeEighthsLE (width : nat) (num : Z) (off : nat) (buf : Buffer)
  : JsResult Buffer :=
  if (0 <=? num) && (num <=? 8 * (2 ^ (8 * Z.of_nat width) - 1))
     && (off + width <=? length buf)%nat
  then Ret (poke off
              (List.map (fun k => byte_of_Z (Z.shiftr (num / 8) (8 * Z.of_nat k)))
                        (seq 0 width))
              buf)
  else Throw RangeError.

(** [createWavHeader], pcm.ts lines 102-134. *)
Definition createWavHeader (dataSize sampleRate channels bitsPerSample : Z)
  : JsResult Buffer :=
  let byteRate := sampleRate * channels * bitsPerSample in   (* in eighths *)
  let blockAlign := channels * bitsPerSample in              (* in eighths *)
  let header := alloc 44 in
  let header := write "RIFF" 0 4 header in
  let* header := writeUInt32LE (36 + dataSize) 4 header in
  let header := write "WAVE" 8 4 header in
  let header := write "fmt " 12 4 header in
  let* header := writeUInt32LE 16 16 header in
  let* header := writeUInt16LE 1 20 header in
  let* header := writeUInt16LE channels 22 header in
  let* header := writeUInt32LE sampleRate 24 header in
  let* header := writeEighthsLE 4 byteRate 28 header in
  let* header := writeEighthsLE 2 blockAlign 32 header in
  let* header := writeUInt16LE bitsPerSample 34 header in
  let header := write "data" 36 4 header in
  let* header := writeUInt32LE dataSize 40 header in
  Ret header.

(** [wrapPcmToWav], pcm.ts lines 144-152. *)
Definition wrapPcmToWav (pcmData : Buffer) (sampleRate channels bitsPerSample : Z)
  : JsResult Buffer :=
  let* header := createWavHeader (Z.of_nat (length pcmData)) sampleRate channels
                   bitsPerSample in
  Ret (header ++ pcmData).

(** [extractPcmData], pcm.ts lines 159-179. *)
Definition extractPcmData (pcmBuffer : Buffer)
  : JsResult (option (Buffer * AudioFormat)) :=
  if (length pcmBuffer <? 16)%nat then Ret None
  else
    let* header := parsePcmHeader (take 16 pcmBuffer) in
    match header with
    | None => Ret None
    | Some header =>
        let audioData := drop 16 pcmBuffer in
        Ret (Some (audioData,
                   mkAudioFormat (sample_rate header) (Pcm.channels header) (bits header)))
    end.

(** [convertPcmToWav], pcm.ts lines 186-194. *)
Definition convertPcmToWav (pcmBuffer : Buffer) : JsResult (option Buffer) :=
  let* extracted := extractPcmData pcmBuffer in
  match extracted with
  | None => Ret None
  | Some (data, format) =>
      let* wav := wrapPcmToWav data (sampleRate format) (channels format)
                    (bitsPerSample format) in
      Ret (Some wav)
  end.

(** The [width] bytes [writeUIntLE] stores for [value]. *)
Definition le_bytes (width : nat) (value : Z) : Buffer :=
  List.map (fun k => byte_of_Z (Z.shiftr value (8 * Z.of_nat k))) (seq 0 width).

End PcmFile.

(** ** The rest of the session manager *)

Module SessionMore.
Import Pcm Session.

(** What reading a property of a session object gives: the value of an own
    property, or whatever the prototype chain holds under that name
    ([undefined] for a plain object and a name [Object.prototype] lacks);
    the embedding does not follow the chain. *)
Inductive Lookup :=
  | Own (value : JsValue)
  | FromPrototype.

(** [session[key]]. *)
Definition property (session : StreamingSession) (key : string) : Lookup :=
  if String.eqb key "sessionId" then Own (JString (sessionId session))
  else if String.eqb key "dataChunks" then Own (JBuffers (dataChunks session))
  else if String.eqb key "startTime" then Own (JNumber (startTime session))
  else if String.eqb key "totalBytes" then Own (JNumber (totalBytes session))
  else if String.eqb key "header" then
    Own (match header session with Some h => JHeader h | None => JNull end)
  else
    match extra session !! key with
    | Some value => Own value
    | None => FromPrototype
    end.

(** [getSessionData]: [undefined] for a session that does not exist. *)
Definition getSessionData (sessionId key : string) (m : SessionManager) : Lookup :=
  match sessions m !! sessionId with
  | None => Own JUndefined
  | Some session => property session key
  end.

(** [getSessionCount]. *)
Definition getSessionCount (m : SessionManager) : nat := size (sessions m).

(** What the idle sweep does: the callbacks it calls and the errors it logs. *)
Inductive IdleEvent :=
  | CallOnIdle (session : StreamingSession)
  | ErrorInOnIdle (sessionId : string).

(** [checkIdleSessions].  [ids] are the keys of the last-activity table in
    the order the loop visits them, [oc] tells how the idle callback comes
    back for each session.  As in [createSession], what the callback throws
    leaves the function, and with it the loop; a promise that rejects is
    reported afterwards. *)
Fixpoint checkIdleSessions_loop (ids : list string) (now : Z) (oc : string -> Outcome)
    (m : SessionManager) : JsResult unit * list IdleEvent * list IdleEvent :=
  match ids with
  | [] => (Ret tt, [], [])
  | sessionId :: ids =>
      match lastActivity m !! sessionId with
      | None => checkIdleSessions_loop ids now oc m
      | Some lastActivityTime =>
          let idleTime := now - lastActivityTime in
          if idleTimeoutMs (config m) <? idleTime then
            match sessions m !! sessionId with
            | Some session =>
                if onIdle (callbacks m) then
                  match oc sessionId with
                  | ThrowsSync => (Throw CallbackError, [CallOnIdle session], [])
                  | Returns =>
                      let '(r, ev, later) := checkIdleSessions_loop ids now oc m in
                      (r, CallOnIdle session :: ev, later)
                  | RejectsLater =>
                      let '(r, ev, later) := checkIdleSessions_loop ids now oc m in
                      (r, CallOnIdle session :: ev, ErrorInOnIdle sessionId :: later)
                  end
                else checkIdleSessions_loop ids now oc m
            | None => checkIdleSessions_loop ids now oc m
            end
          else checkIdleSessions_loop ids now oc m
      end
  end.

Definition checkIdleSessions (ids : list string) (now : Z) (oc : string -> Outcome)
    (m : SessionManager) : JsResult unit * list IdleEvent :=
  let '(r, ev, later) := checkIdleSessions_loop ids now oc m in
  (r, ev ++ later).



(** The session id a call is about. *)
Definition target (c : Call) : string :=
  match c with
  | CreateSession sessionId _ _ _ _ => sessionId
  | SetHeader sessionId _ _ => sessionId
  | AddChunk sessionId _ _ _ _ => sessionId
  | GetAudioData sessionId => sessionId
  | GetStats sessionId _ => sessionId
  | EndSession sessionId _ => sessionId
  end.

Definition is_CreateSession (c : Call) : bool :=
  match c with
  | CreateSession _ _ _ _ _ => true
  | _ => false
  end.

Definition is_EndSession (c : Call) : bool :=
  match c with
  | EndSession _ _ => true
  | _ => false
  end.

(** The reply of a call that looks a session up and finds none. *)
Definition not_found_reply (c : Call) : option Reply :=
  match c with
  | CreateSession _ _ _ _ _ => None
  | SetHeader _ _ _ => Some (BoolReply (Ret false))
  | AddChunk _ _ _ _ _ => Some (BoolReply (Ret false))
  | GetAudioData _ => Some (BufferReply None)
  | GetStats _ _ => Some (StatsReply None)
  | EndSession _ _ => Some (EndReply (Ret None))
  end.

End SessionMore.

(** ** The connections of the WebSocket server and its heartbeat *)

Module Conn.
Import Pcm Ws.

(** Sockets are numbered in the order in which they connect. *)
Abbreviation WebSocket := nat.

(** What the server knows of a socket: the session object that
    [handleConnection] made for it, which the connection table and the
    handlers registered on the socket share; whether the socket is a key of
    the table [this.sessions]; and whether the message, error and close
    handlers got registered. *)
Record Socket := mkSocket {
  session : SessionInfo;
  inTable : bool;
  wired : bool
}.

(** The handlers of [WebSocketHandlers] besides [onMessage]. *)
Record ConnectionHandlers := mkConnectionHandlers {
  onConnection : bool;
  onClose : bool;
  onError : bool
}.

(** The table is a [Map] keyed by socket: it lists its entries in insertion
    order, which is the order of the socket numbers, since every socket is
    inserted once, when it connects. *)
Record Server := mkServer {
  sockets : list Socket;
  handlers : WebSocketHandlers;
  connectionHandlers : ConnectionHandlers
}.

(** [new VoiceWebSocketServer(config, handlers)] *)
Definition new (handlers : WebSocketHandlers) (connectionHandlers : ConnectionHandlers)
  : Server :=
  mkServer [] handlers connectionHandlers.

(** [getSession(ws)] *)
Definition getSession (ws : WebSocket) (server : Server) : option SessionInfo :=
  match sockets server !! ws with
  | Some socket => if inTable socket then Some (session socket) else None
  | None => None
  end.

(** Calls of injected handlers and operations on sockets; console output is
    not recorded. *)
Inductive ServerEffect :=
  | SendConnectionEstablished (ws : WebSocket) (sessionId : string)
  | CallOnConnection (ws : WebSocket) (sessionId : string)
  | ErrorInOnConnection
  | Frame (ws : WebSocket) (effect : Effect)
  | CallOnError (ws : WebSocket) (sessionId : string)
  | CallOnClose (ws : WebSocket) (sessionId : string)
  | ErrorInOnClose
  | Terminate (ws : WebSocket)
  | Ping (ws : WebSocket).

(** [if (handler) Promise.resolve(handler(...)).catch(log)]: what the
    handler throws leaves the caller, a promise that rejects is logged. *)
Definition notify (present : bool) (oc : Outcome) (call later : ServerEffect)
  : JsResult unit * list ServerEffect :=
  if present then
    match oc with
    | Returns => (Ret tt, [call])
    | ThrowsSync => (Throw CallbackError, [call])
    | RejectsLater => (Ret tt, [call; later])
    end
  else (Ret tt, []).

Definition set_isAlive (isAlive : bool) (socket : Socket) : Socket :=
  mkSocket (mkSessionInfo (sessionId (session socket)) (header (session socket)) isAlive)
    (inTable socket) (wired socket).

Definition set_session (session : SessionInfo) (socket : Socket) : Socket :=
  mkSocket session (inTable socket) (wired socket).

Definition set_inTable (inTable : bool) (socket : Socket) : Socket :=
  mkSocket (session socket) inTable (wired socket).

(** [heartbeat]: the loop over the table, from socket number [ws] on.  What
    [terminate] or [ping] throws is caught and logged. *)
Fixpoint heartbeat_from (ws : WebSocket) (sockets : list Socket)
  : list Socket * list ServerEffect :=
  match sockets with
  | [] => ([], [])
  | socket :: rest =>
      let '(rest, eff) := heartbeat_from (S ws) rest in
      if inTable socket then
        if negb (isAlive (session socket)) then
          (set_inTable false socket :: rest, Terminate ws :: eff)
        else
          (set_isAlive false socket :: rest, Ping ws :: eff)
      else (socket :: rest, eff)
  end.

Definition heartbeat (server : Server) : Server * list ServerEffect :=
  let '(sockets, eff) := heartbeat_from 0%nat (sockets server) in
  (mkServer sockets (handlers server) (connectionHandlers server), eff).

(** [handleConnection] for the next socket.  [sessionId] is the id made up
    from the clock and a random number, [oc] tells how [onConnection] comes
    back.  The pong handler is registered before [onConnection] is called,
    the message, error and close handlers after it. *)
Definition handleConnection (sessionId : string) (oc : Outcome) (server : Server)
  : JsResult unit * Server * list ServerEffect :=
  let ws := length (sockets server) in
  let session := Ws.handleConnection sessionId in
  let '(r, eff) := notify (onConnection (connectionHandlers server)) oc
                     (CallOnConnection ws sessionId) ErrorInOnConnection in
  let wired := match r with Ret _ => true | Throw _ => false end in
  (r,
   mkServer (sockets server ++ [mkSocket session true wired]) (handlers server)
     (connectionHandlers server),
   SendConnectionEstablished ws sessionId :: eff).

(** What happens to a running server: a socket connects, a socket emits
    pong, message, error or close, or the heartbeat timer fires. *)
Inductive ServerEvent :=
  | Connection (sessionId : string) (oc : Outcome)
  | Pong (ws : WebSocket)
  | Message (ws : WebSocket) (data : RawData) (oc : Outcome)
  | Error (ws : WebSocket) (oc : Outcome)
  | Close (ws : WebSocket) (oc : Outcome)
  | HeartbeatTimer.

(** The listener of an event.  A socket emits to the handlers registered on
    it; [handleMessage] catches what it raises.  A message event is a call
    of [handleMessage] run to its end, as in [Ws.feed]. *)
Definition step (event : ServerEvent) (server : Server)
  : JsResult unit * Server * list ServerEffect :=
  match event with
  | Connection sessionId oc => handleConnection sessionId oc server
  | Pong ws =>
      (Ret tt,
       mkServer (alter (set_isAlive true) ws (sockets server)) (handlers server)
         (connectionHandlers server),
       [])
  | Message ws data oc =>
      match sockets server !! ws with
      | Some socket =>
          if wired socket then
            let '(session, eff) := handleMessage (handlers server) (session socket) data oc in
            (Ret tt,
             mkServer (<[ws := set_session session socket]> (sockets server))
               (handlers server) (connectionHandlers server),
             List.map (Frame ws) eff)
          else (Ret tt, server, [])
      | None => (Ret tt, server, [])
      end
  | Error ws oc =>
      match sockets server !! ws with
      | Some socket =>
          if wired socket && onError (connectionHandlers server) then
            (match oc with ThrowsSync => Throw CallbackError | _ => Ret tt end,
             server, [CallOnError ws (sessionId (session socket))])
          else (Ret tt, server, [])
      | None => (Ret tt, server, [])
      end
  | Close ws oc =>
      match sockets server !! ws with
      | Some socket =>
          if wired socket then
            let '(r, eff) := notify (onClose (connectionHandlers server)) oc
                               (CallOnClose ws (sessionId (session socket)))
                               ErrorInOnClose in
            (r,
             mkServer (<[ws := set_inTable false socket]> (sockets server))
               (handlers server) (connectionHandlers server),
             eff)
          else (Ret tt, server, [])
      | None => (Ret tt, server, [])
      end
  | HeartbeatTimer =>
      let '(server, eff) := heartbeat server in
      (Ret tt, server, eff)
  end.

(** The events of a run, one listener after the other.  An exception that
    leaves a listener is uncaught: the run ends with it. *)
Fixpoint run (events : list ServerEvent) (server : Server)
  : JsResult unit * Server * list ServerEffect :=
  match events with
  | [] => (Ret tt, server, [])
  | event :: events =>
      let '(r, server, eff) := step event server in
      match r with
      | Throw e => (Throw e, server, eff)
      | Ret _ =>
          let '(r, server, eff') := run events server in
          (r, server, eff ++ eff')
      end
  end.

(** The events whose callback throws out of its listener. *)
Definition escapes (server : Server) (event : ServerEvent) : bool :=
  match event with
  | Connection _ ThrowsSync => onConnection (connectionHandlers server)
  | Error _ ThrowsSync => onError (connectionHandlers server)
  | Close _ ThrowsSync => onClose (connectionHandlers server)
  | _ => false
  end.

(** What the heartbeat does to one socket: the body of its loop. *)
Definition beat (socket : Socket) : Socket :=
  if inTable socket then
    if negb (isAlive (session socket)) then set_inTable false socket
    else set_isAlive false socket
  else socket.

(** A socket that the next heartbeat will not keep: it has left the table,
    or it has not answered since it was pinged. *)
Definition unanswered (ws : WebSocket) (server : Server) : Prop :=
  exists socket,
    sockets server !! ws = Some socket
    /\ (inTable socket = false \/ isAlive (session socket) = false).

(** A socket in the table that has been pinged and has not answered. *)
Definition pinged (ws : WebSocket) (server : Server) : Prop :=
  exists socket,
    sockets server !! ws = Some socket
    /\ inTable socket = true /\ isAlive (session socket) = false.

(** A socket in the table that has answered. *)
Definition answered (ws : WebSocket) (sid : string) (server : Server) : Prop :=
  exists socket,
    sockets server !! ws = Some socket
    /\ inTable socket = true /\ isAlive (session socket) = true
    /\ sessionId (session socket) = sid.

End Conn.

Module ConnDemo.
Import Ws Conn.

(** A server with all handlers injected, after one socket has connected. *)
Definition server1 : Server :=
  snd (fst (run [Connection "session_1" Returns]
              (new (mkHandlers true) (mkConnectionHandlers true true true)))).

End ConnDemo.

(** ** Decoding WAV files, [src/core/audio-conversion.ts] *)

Module Wav.
Import Num Pcm PcmFile Audio.

(** [DecodedAudio] of [src/types/index.ts]. *)
Record DecodedAudio := mkDecodedAudio {
  pcm : Int16Array;
  sampleRate : Z
}.

(** [buf.toString('ascii', start, end) === lit] for an ASCII literal.
    Decoding as 'ascii' clears the highest bit of every byte, and takes the
    bytes that exist between the two offsets. *)
Definition ascii_equals (buf : Buffer) (start end_ : nat) (lit : string) : bool :=
  bool_decide (List.map (fun b => byte_of_Z (Z.land (u8 b) 127))
                 (take (end_ - start) (drop start buf))
               = bytes_of_string lit).

(** *** [Buffer] reads.  Like the [DataView] reads, they raise RangeError
    outside the buffer. *)

Definition readUInt16LE : Buffer -> nat -> JsResult Z := getUint16LE.
Definition readUInt32LE : Buffer -> nat -> JsResult Z := getUint32LE.

(** Sixteen and thirty-two bits read as a signed number. *)
Definition int16 (z : Z) : Z := (z + 32768) mod 65536 - 32768.
Definition int32 (z : Z) : Z := (z + 2 ^ 31) mod 2 ^ 32 - 2 ^ 31.

Definition readInt16LE (buf : Buffer) (off : nat) : JsResult Z :=
  let* v := getUint16LE buf off in
  Ret (int16 v).

Definition readInt32LE (buf : Buffer) (off : nat) : JsResult Z :=
  let* v := getUint32LE buf off in
  Ret (int32 v).

(** The number a binary32 bit pattern denotes; every such number is a
    binary64 number. *)
Definition float32 (w : Z) : number :=
  let s := Z.testbit w 31 in
  let e := Z.land (Z.shiftr w 23) 255 in
  let m := Z.land w (2 ^ 23 - 1) in
  if e =? 255 then (if m =? 0 then S754_infinity s else NaN)
  else if e =? 0 then binary_normalize prec emax (cond_Zopp s m) (-149) s
  else binary_normalize prec emax (cond_Zopp s (2 ^ 23 + m)) (e - 150) s.

Definition readFloatLE (buf : Buffer) (off : nat) : JsResult number :=
  let* w := getUint32LE buf off in
  Ret (float32 w).

(** [data[k]] inside a bit operation: a missing element counts as 0. *)
Definition element_or_0 (data : Buffer) (k : nat) : Z :=
  match data !! k with
  | Some b => u8 b
  | None => 0
  end.

(** *** The chunk walk *)

(** What the walk has learnt from the format chunk. *)
Record Format := mkFormat {
  fmtFound : bool;
  audioFormat : Z;
  channels : Z;
  fmt_sampleRate : Z;
  bitsPerSample : Z
}.

(** The values before any chunk is read. *)
Definition format0 : Format := mkFormat false 1 1 16000 16.

(** How the walk ends: at a data chunk, or at the end of the buffer. *)
Inductive Walk :=
  | DataChunk (format : Format) (dataOffset : nat) (dataSize : Z)
  | NoDataChunk (format : Format).

(** The [while] loop of [decodeWavToInt16Mono], lines 144-165, from
    [offset] on.  Every round moves the offset forward by at least eight,
    so no walk takes more rounds than the buffer has bytes; [fuel] bounds
    the rounds. *)
Fixpoint chunks (fuel : nat) (wavBuffer : Buffer) (offset : nat) (format : Format)
  : JsResult Walk :=
  match fuel with
  | O => Ret (NoDataChunk format)
  | S fuel =>
      if (offset + 8 <=? length wavBuffer)%nat then
        let* chunkSize := readUInt32LE wavBuffer (offset + 4) in
        let chunkDataStart := (offset + 8)%nat in
        if ascii_equals wavBuffer offset (offset + 4) "fmt " then
          let* format :=
            if 16 <=? chunkSize then
              let* audioFormat := readUInt16LE wavBuffer chunkDataStart in
              let* channels := readUInt16LE wavBuffer (chunkDataStart + 2) in
              let* sampleRate := readUInt32LE wavBuffer (chunkDataStart + 4) in
              let* bitsPerSample := readUInt16LE wavBuffer (chunkDataStart + 14) in
              Ret (mkFormat true audioFormat channels sampleRate bitsPerSample)
            else
              Ret (mkFormat true (audioFormat format) (channels format)
                     (fmt_sampleRate format) (bitsPerSample format)) in
          chunks fuel wavBuffer (chunkDataStart + Z.to_nat chunkSize) format
        else if ascii_equals wavBuffer offset (offset + 4) "data" then
          Ret (DataChunk format chunkDataStart chunkSize)
        else chunks fuel wavBuffer (chunkDataStart + Z.to_nat chunkSize) format
      else Ret (NoDataChunk format)
  end.

(** One round of the same loop: it stops, or it goes on from another
    offset. *)
Inductive Round :=
  | Stop (walk : Walk)
  | Next (offset : nat) (format : Format).

Definition chunk_round (wavBuffer : Buffer) (offset : nat) (format : Format)
  : JsResult Round :=
  if (offset + 8 <=? length wavBuffer)%nat then
    let* chunkSize := readUInt32LE wavBuffer (offset + 4) in
    let chunkDataStart := (offset + 8)%nat in
    if ascii_equals wavBuffer offset (offset + 4) "fmt " then
      let* format :=
        if 16 <=? chunkSize then
          let* audioFormat := readUInt16LE wavBuffer chunkDataStart in
          let* channels := readUInt16LE wavBuffer (chunkDataStart + 2) in
          let* sampleRate := readUInt32LE wavBuffer (chunkDataStart + 4) in
          let* bitsPerSample := readUInt16LE wavBuffer (chunkDataStart + 14) in
          Ret (mkFormat true audioFormat channels sampleRate bitsPerSample)
        else
          Ret (mkFormat true (audioFormat format) (channels format)
                 (fmt_sampleRate format) (bitsPerSample format)) in
      Ret (Next (chunkDataStart + Z.to_nat chunkSize) format)
    else if ascii_equals wavBuffer offset (offset + 4) "data" then
      Ret (Stop (DataChunk format chunkDataStart chunkSize))
    else Ret (Next (chunkDataStart + Z.to_nat chunkSize) format)
  else Ret (Stop (NoDataChunk format)).

(** The loop watched for [rounds] rounds: what it has stopped with, by
    leaving the loop or by raising, or [None] if it is still going. *)
Fixpoint chunks_in (rounds : nat) (wavBuffer : Buffer) (offset : nat) (format : Format)
  : option (JsResult Walk) :=
  match rounds with
  | O => None
  | S rounds =>
      match chunk_round wavBuffer offset format with
      | Throw e => Some (Throw e)
      | Ret (Stop walk) => Some (Ret walk)
      | Ret (Next offset format) => chunks_in rounds wavBuffer offset format
      end
  end.

(** *** Samples *)

(** One sample of integer PCM at offset [base], lines 195-213; [None] for
    a bit depth that is not supported. *)
Definition sample_pcm (data : Buffer) (bitsPerSample : Z) (base : nat)
  : JsResult (option Z) :=
  if bitsPerSample =? 16 then
    let* sample := readInt16LE data base in
    Ret (Some sample)
  else if bitsPerSample =? 24 then
    let b0 := element_or_0 data base in
    let b1 := element_or_0 data (base + 1) in
    let b2 := element_or_0 data (base + 2) in
    let v := Z.lor (Z.lor (Z.shiftl b2 16) (Z.shiftl b1 8)) b0 in
    let v := if negb (Z.land v 8388608 =? 0)           (* 0x800000 *)
             then int32 (Z.lor v 4278190080)           (* 0xff000000 *)
             else v in
    Ret (Some (Z.shiftr v 8))
  else if bitsPerSample =? 32 then
    let* sample := readInt32LE data base in
    Ret (Some (Z.shiftr sample 16))
  else if bitsPerSample =? 8 then
    Ret (Some (match data !! base with
               | Some b => int32 (Z.shiftl (u8 b - 128) 8)
               | None => 0
               end))
  else Ret None.

(** What is stored for a frame whose channels add up to [acc]. *)
Definition mixdown (acc : number) (channels : Z) : Z :=
  ToInt16 (Math_max (of_Z (-32768))
             (Math_min (of_Z 32767) (Math_round (div acc (of_Z channels))))).

(** The loop over the channels of frame [i], from channel [ch] on, for
    integer PCM. *)
Fixpoint mix_pcm (data : Buffer) (bitsPerSample : Z) (bytesPerSample : nat)
    (channels : nat) (i : nat) (steps ch : nat) (acc : number)
  : JsResult (option number) :=
  match steps with
  | O => Ret (Some acc)
  | S steps =>
      let base := ((i * channels + ch) * bytesPerSample)%nat in
      let* sample := sample_pcm data bitsPerSample base in
      match sample with
      | None => Ret None
      | Some sample =>
          mix_pcm data bitsPerSample bytesPerSample channels i steps (S ch)
            (add acc (of_Z sample))
      end
  end.

(** The loop over the frames, from frame [i] on, for integer PCM. *)
Fixpoint frames_pcm (data : Buffer) (bitsPerSample : Z) (bytesPerSample : nat)
    (channels : Z) (steps i : nat) (out : Int16Array) : JsResult (option Int16Array) :=
  match steps with
  | O => Ret (Some out)
  | S steps =>
      let* acc := mix_pcm data bitsPerSample bytesPerSample (Z.to_nat channels) i
                    (Z.to_nat channels) 0 (of_Z 0) in
      match acc with
      | None => Ret None
      | Some acc =>
          frames_pcm data bitsPerSample bytesPerSample channels steps (S i)
            (<[i := mixdown acc channels]> out)
      end
  end.

(** The same two loops for 32-bit IEEE float samples, lines 225-236. *)
Fixpoint mix_float (data : Buffer) (channels : nat) (i : nat) (steps ch : nat)
    (acc : number) : JsResult number :=
  match steps with
  | O => Ret acc
  | S steps =>
      let base := ((i * channels + ch) * 4)%nat in
      let* f := readFloatLE data base in
      let s := Math_max (of_Z (-1)) (Math_min (of_Z 1) f) in
      mix_float data channels i steps (S ch)
        (add acc (Math_round (mul s (of_Z 32767))))
  end.

Fixpoint frames_float (data : Buffer) (channels : Z) (steps i : nat) (out : Int16Array)
  : JsResult Int16Array :=
  match steps with
  | O => Ret out
  | S steps =>
      let* acc := mix_float data (Z.to_nat channels) i (Z.to_nat channels) 0 (of_Z 0) in
      frames_float data channels steps (S i) (<[i := mixdown acc channels]> out)
  end.

(** [Math.floor(data.length / frameBytes)], the argument of
    [new Int16Array]. *)
Definition totalFrames (data : Buffer) (frameBytes : Z) : number :=
  Math_floor (div (of_Z (Z.of_nat (length data))) (of_Z frameBytes)).

(** Lines 179-242 of [decodeWavToInt16Mono]: the data chunk decoded to
    Int16 mono.  As in [resampleInt16Mono], the frame loop runs over the
    indices of [out]. *)
Definition decodeData (format : Format) (data : Buffer) : JsResult (option DecodedAudio) :=
  let channels := channels format in
  let bitsPerSample := bitsPerSample format in
  if audioFormat format =? 1 then
    let bytesPerSample := (bitsPerSample + 7) / 8 in
    let* out := newInt16Array (totalFrames data (bytesPerSample * channels)) in
    let* out := frames_pcm data bitsPerSample (Z.to_nat bytesPerSample) channels
                  (length out) 0 out in
    match out with
    | None => Ret None
    | Some out => Ret (Some (mkDecodedAudio out (fmt_sampleRate format)))
    end
  else if (audioFormat format =? 3) && (bitsPerSample =? 32) then
    let* out := newInt16Array (totalFrames data (4 * channels)) in
    let* out := frames_float data channels (length out) 0 out in
    Ret (Some (mkDecodedAudio out (fmt_sampleRate format)))
  else Ret None.

(** [decodeWavToInt16Mono], lines 115-243.  The chunk walk starts behind
    the twelve bytes of the RIFF header.  The offset of a data chunk is
    never negative. *)
Definition decodeWavToInt16Mono (wavBuffer : Buffer) : JsResult (option DecodedAudio) :=
  if (length wavBuffer <? 44)%nat then Ret None
  else if negb (ascii_equals wavBuffer 0 4 "RIFF")
          || negb (ascii_equals wavBuffer 8 12 "WAVE") then Ret None
  else
    let* walk := chunks (length wavBuffer) wavBuffer 12 format0 in
    match walk with
    | NoDataChunk _ => Ret None
    | DataChunk format dataOffset dataSize =>
        if negb (fmtFound format) then Ret None
        else if Z.of_nat (length wavBuffer) <? Z.of_nat dataOffset + dataSize then Ret None
        else decodeData format (take (Z.to_nat dataSize) (drop dataOffset wavBuffer))
    end.

(** Two and four bytes read as a little-endian number, as [readUInt16LE]
    and [readUInt32LE] do. *)
Definition uint16 (b0 b1 : byte) : Z := Z.lor (u8 b0) (Z.shiftl (u8 b1) 8).

Definition uint32 (b0 b1 b2 b3 : byte) : Z :=
  Z.lor (Z.lor (u8 b0) (Z.shiftl (u8 b1) 8))
        (Z.lor (Z.shiftl (u8 b2) 16) (Z.shiftl (u8 b3) 24)).

(** The samples that a buffer of 16-bit little-endian PCM holds; a last
    odd byte holds none. *)
Fixpoint samples16 (data : Buffer) : Int16Array :=
  match data with
  | b0 :: b1 :: rest => int16 (Z.lor (u8 b0) (Z.shiftl (u8 b1) 8)) :: samples16 rest
  | _ => []
  end.

(** The bytes of an [Int16Array], as [Buffer.from(array.buffer, ...)] shows
    them on a little-endian machine. *)
Definition int16_bytes (samples : Int16Array) : Buffer :=
  flat_map (fun v => [byte_of_Z v; byte_of_Z (Z.shiftr v 8)]) samples.

(** [convertWavToPcmWithHeader], lines 281-316, for an integer target
    rate. *)
Definition convertWavToPcmWithHeader (wavBuffer : Buffer) (targetRate : Z)
  : JsResult (option Buffer) :=
  let* decoded := decodeWavToInt16Mono wavBuffer in
  match decoded with
  | None => Ret None
  | Some decoded =>
      let* resampled := resampleInt16Mono (pcm decoded) (of_Z (sampleRate decoded))
                          (of_Z targetRate) in
      let pcmBuffer := int16_bytes resampled in
      let* result := createPcmWithHeader pcmBuffer targetRate 1 16 in
      Ret (Some result)
  end.

End Wav.

(** ** The voice server, [src/index.ts] *)

Module Voice.
Import Pcm Ws Session SessionMore.

(** What the three plugins of the pipeline answer when they are asked;
    they are external.  An answer is a value, null, or a rejection. *)
Record Pipeline := mkPipeline {
  transcribe : JsResult (option string);
  generate : JsResult (option string);
  synthesize : JsResult (option Buffer)
}.

(** The JSON messages of the voice server, by their [type]. *)
Inductive JsonMessage :=
  | header_received (sessionId : string) (sampleRate channels bits : Z)
  | chunk_error                       (* 'Failed to add audio chunk ...' *)
  | session_ready (sessionId : string)
  | auth_success (userId : string)
  | auth_error
  | transcription (text : string)
  | response (text : string)
  | processing_error.                 (* 'Failed to process audio' *)

(** What a handler does besides changing the session manager: the events
    of the manager, what it sends to the client, and the plugins it calls.
    The console output of the voice server itself is not recorded. *)
Inductive VoiceEffect :=
  | Manager (event : Event)
  | SendJson (message : JsonMessage)
  | SendBinary (data : Buffer)
  | CallTranscribe (audioData : Buffer) (header : PcmHeader)
  | CallGenerate (userInput : string) (sessionId : string)
      (conversationId userId : Lookup)
  | CallSynthesize (text : string).

(** The voice server: its session manager, and whether a pipeline is
    configured.  The map [wsToSessionId] is written and never read. *)
Record VoiceServer := mkVoiceServer {
  sessionManager : SessionManager;
  pipeline : bool
}.

(** The constructor, lines 46-66: the manager gets the three callbacks of
    the voice server, which log and return. *)
Definition new (maxBytes maxDurationMs maxChunks idleTimeoutMs : option Z)
    (pipeline : bool) : VoiceServer :=
  mkVoiceServer
    (Session.new maxBytes maxDurationMs maxChunks idleTimeoutMs
       (mkCallbacks true true true false))
    pipeline.

(** What a handler call is given from outside: two readings of the clock,
    the id made up for a new session, and the answers of the plugins. *)
Record Env := mkEnv {
  now1 : Z;
  now2 : Z;
  newSessionId : string;
  answers : Pipeline
}.

(** [if (x)] for a value read from a session; no property of the prototype
    is involved for the keys used here. *)
Definition truthy (v : Lookup) : bool :=
  match v with
  | Own JUndefined | Own JNull | FromPrototype => false
  | Own (JBoolean b) => b
  | Own (JNumber n) => negb (n =? 0)
  | Own (JString s) => negb (String.eqb s "")
  | Own (JOther b _) => b
  | Own (JHeader _) | Own (JBuffers _) | Own (JFunction _) | Own (JObject _) => true
  end.

Definition value_of (v : Lookup) : JsValue :=
  match v with
  | Own value => value
  | FromPrototype => JUndefined
  end.

Definition with_manager (server : VoiceServer) (m : SessionManager) : VoiceServer :=
  mkVoiceServer m (pipeline server).

(** [onConnection], lines 95-104. *)
Definition onConnection (sessionId : string) (env : Env) (server : VoiceServer)
  : JsResult unit * VoiceServer * list VoiceEffect :=
  let '(r, m, ev) := createSession sessionId None (now1 env) (now2 env) Returns
                       (sessionManager server) in
  (let* _ := r in Ret tt, with_manager server m, List.map Manager ev).

(** [onClose], lines 124-126. *)
Definition onClose (sessionId : string) (server : VoiceServer)
  : JsResult unit * VoiceServer * list VoiceEffect :=
  let '(r, m, ev) := endSession sessionId Returns (sessionManager server) in
  (let* _ := r in Ret tt, with_manager server m, List.map Manager ev).

(** [handleHeader], lines 138-155. *)
Definition handleHeader (sessionId : string) (header : PcmHeader) (env : Env)
    (server : VoiceServer) : JsResult unit * VoiceServer * list VoiceEffect :=
  let '(_, m) := setHeader sessionId header (now1 env) (sessionManager server) in
  (Ret tt, with_manager server m,
   [SendJson (header_received sessionId (sample_rate header) (channels header)
                (bits header))]).

(** [handleAudio], lines 160-169. *)
Definition handleAudio (sessionId : string) (data : Buffer) (env : Env)
    (server : VoiceServer) : JsResult unit * VoiceServer * list VoiceEffect :=
  let '(r, m, ev) := addChunk sessionId data (now1 env) (now2 env) Returns
                       (sessionManager server) in
  match r with
  | Throw e => (Throw e, with_manager server m, List.map Manager ev)
  | Ret success =>
      (Ret tt, with_manager server m,
       List.map Manager ev ++ if success then [] else [SendJson chunk_error])
  end.

(** [!x] for what a plugin answered: null and the empty string count as
    nothing. *)
Definition no_text (answer : option string) : bool :=
  match answer with
  | None => true
  | Some text => String.eqb text ""
  end.

(** The [try] block of [processAudio], lines 240-286; an exception ends it. *)
Definition processAudio_try (audioData : Buffer) (header : PcmHeader)
    (session : StreamingSession) (env : Env) (m : SessionManager)
  : JsResult unit * list VoiceEffect :=
  let call1 := CallTranscribe audioData header in
  match transcribe (answers env) with
  | Throw e => (Throw e, [call1])
  | Ret answer =>
      if no_text answer then (Ret tt, [call1])
      else
        let text := default EmptyString answer in
        let call2 :=
          CallGenerate text (Session.sessionId session)
            (getSessionData (Session.sessionId session) "conversationId" m)
            (getSessionData (Session.sessionId session) "userId" m) in
        match generate (answers env) with
        | Throw e => (Throw e, [call1; SendJson (transcription text); call2])
        | Ret answer =>
            if no_text answer then
              (Ret tt, [call1; SendJson (transcription text); call2])
            else
              let reply := default EmptyString answer in
              let sent := [call1; SendJson (transcription text); call2;
                           SendJson (response reply); CallSynthesize reply] in
              match synthesize (answers env) with
              | Throw e => (Throw e, sent)
              | Ret None => (Ret tt, sent)
              | Ret (Some audioBuffer) => (Ret tt, sent ++ [SendBinary audioBuffer])
              end
        end
  end.

(** [processAudio], lines 229-294. *)
Definition processAudio (session : StreamingSession) (env : Env) (server : VoiceServer)
  : list VoiceEffect :=
  if negb (pipeline server) || is_null (Session.header session) then []
  else
    match getAudioData (Session.sessionId session) (sessionManager server) with
    | None => []
    | Some audioData =>
        if (length audioData =? 0)%nat then []
        else
          match Session.header session with
          | None => []
          | Some header =>
              let '(r, eff) := processAudio_try audioData header session env
                                 (sessionManager server) in
              match r with
              | Ret _ => eff
              | Throw _ => eff ++ [SendJson processing_error]
              end
          end
    end.

(** [handleEnd], lines 174-202. *)
Definition handleEnd (sessionId : string) (env : Env) (server : VoiceServer)
  : JsResult unit * VoiceServer * list VoiceEffect :=
  let '(r, m, ev) := endSession sessionId Returns (sessionManager server) in
  let server := with_manager server m in
  match r with
  | Throw e => (Throw e, server, List.map Manager ev)
  | Ret None => (Ret tt, server, List.map Manager ev)
  | Ret (Some session) =>
      let eff := if pipeline server then processAudio session env server else [] in
      let '(r, m, ev') := createSession (newSessionId env) None (now1 env) (now2 env)
                            Returns (sessionManager server) in
      match r with
      | Throw e => (Throw e, with_manager server m, List.map Manager ev ++ eff
                                                      ++ List.map Manager ev')
      | Ret _ =>
          let conversationId := getSessionData sessionId "conversationId" m in
          let m :=
            if truthy conversationId then
              match setSessionData (newSessionId env) "conversationId"
                      (value_of conversationId) m with
              | Some (_, m) => m
              | None => m
              end
            else m in
          (Ret tt, with_manager server m,
           List.map Manager ev ++ eff ++ List.map Manager ev'
             ++ [SendJson (session_ready (newSessionId env))])
      end
  end.

(** White space as [trim] sees it, among the characters below 256. *)
Definition isWhiteSpace (c : ascii) : bool :=
  let n := nat_of_ascii c in
  ((9 <=? n)%nat && (n <=? 13)%nat) || (n =? 32)%nat || (n =? 160)%nat.

Fixpoint trimStart (s : string) : string :=
  match s with
  | EmptyString => EmptyString
  | String c rest => if isWhiteSpace c then trimStart rest else s
  end.

Definition reverse (s : string) : string :=
  string_of_list_ascii (List.rev (list_ascii_of_string s)).

Definition trim (s : string) : string :=
  reverse (trimStart (reverse (trimStart s))).

(** [handleText], lines 207-224. *)
Definition handleText (sessionId : string) (message : string) (server : VoiceServer)
  : JsResult unit * VoiceServer * list VoiceEffect :=
  if String.prefix "AUTH:" message then
    let userId := trim (String.substring 5 (String.length message - 5) message) in
    if negb (String.eqb userId "") then
      let m := match setSessionData sessionId "userId" (JString userId)
                       (sessionManager server) with
               | Some (_, m) => m
               | None => sessionManager server
               end in
      (Ret tt, with_manager server m, [SendJson (auth_success userId)])
    else (Ret tt, server, [SendJson auth_error])
  else (Ret tt, server, []).

(** [onMessage], lines 109-119. *)
Definition onMessage (sessionId : string) (message : MessageType) (env : Env)
    (server : VoiceServer) : JsResult unit * VoiceServer * list VoiceEffect :=
  match message with
  | MsgHeader data header => handleHeader sessionId header env server
  | MsgAudio data => handleAudio sessionId data env server
  | MsgEnd => handleEnd sessionId env server
  | MsgText message => handleText sessionId message server
  end.

(** The messages that the WebSocket server delivers for one connection, in
    order, each handled to its end; they all carry the session id of the
    connection. *)
Fixpoint onMessages (sessionId : string) (messages : list (MessageType * Env))
    (server : VoiceServer) : JsResult unit * VoiceServer * list VoiceEffect :=
  match messages with
  | [] => (Ret tt, server, [])
  | (message, env) :: messages =>
      let '(r, server, eff) := onMessage sessionId message env server in
      let '(r', server, eff') := onMessages sessionId messages server in
      (let* _ := r in r', server, eff ++ eff')
  end.

End Voice.

Module VoiceDemo.
Import Pcm Ws Session Voice.

(** Plugins that answer. *)
Definition plugins : Pipeline :=
  mkPipeline (Ret (Some "hello"%string)) (Ret (Some "hi"%string)) (Ret (Some [x01; x02])).

Definition env1 : Env := mkEnv 1000 1001 "session_2" plugins.

(** A voice server with a pipeline, one connection, a stream header and one
    chunk of audio. *)
Definition server1 : VoiceServer :=
  snd (fst (onMessages "session_1"
              [(MsgHeader [] (mkPcmHeader "PCM1" 16000 1 16 320 0), env1);
               (MsgAudio [x01; x02; x03; x04], env1)]
              (snd (fst (onConnection "session_1" env1 (new None None None None true)))))).

End VoiceDemo.

(** * Properties *)

(** ** Bytes and little-endian numbers *)

Section Bytes.

Lemma u8_range (b : byte) : 0 <= u8 b < 256.
Proof.
  unfold u8. pose proof (Byte.to_N_bounded b) as H.
  split; [apply N2Z.is_nonneg|]. apply N.lt_succ_r in H. lia.
Qed.

Lemma byte_of_Z_u8 (b : byte) : byte_of_Z (u8 b) = b.
Proof.
  unfold byte_of_Z. pose proof (u8_range b) as H.
  change 255 with (Z.ones 8). rewrite Z.land_ones by lia.
  rewrite Z.mod_small by (change (2 ^ 8) with 256; lia).
  unfold u8. rewrite N2Z.id, Byte.of_to_N. reflexivity.
Qed.

Lemma u8_byte_of_Z (z : Z) : u8 (byte_of_Z z) = z mod 256.
Proof.
  unfold byte_of_Z. change 255 with (Z.ones 8). rewrite Z.land_ones by lia.
  change (2 ^ 8) with 256.
  pose proof (Z.mod_pos_bound z 256 ltac:(lia)) as H.
  destruct (Byte.of_N (Z.to_N (z mod 256))) as [b|] eqn:E.
  - apply Byte.to_of_N in E. unfold u8. rewrite E. lia.
  - apply Byte.of_N_None_iff in E. lia.
Qed.

Lemma u8_inj (a b : byte) : u8 a = u8 b -> a = b.
Proof. intros H. rewrite <- (byte_of_Z_u8 a), <- (byte_of_Z_u8 b), H. reflexivity. Qed.

(** An "or" with a value shifted clear of the low bits is a sum. *)
Lemma lor_shiftl_add (a b n : Z) :
  0 <= n -> 0 <= a < 2 ^ n -> Z.lor a (Z.shiftl b n) = a + b * 2 ^ n.
Proof.
  intros Hn Ha.
  assert (Hland : Z.land a (Z.shiftl b n) = 0).
  { apply Z.bits_inj'. intros k Hk. rewrite Z.land_spec, Z.bits_0.
    destruct (Z.ltb_spec k n) as [Hlt|Hge].
    - rewrite Z.shiftl_spec_low by lia. apply andb_false_r.
    - rewrite <- (Z.mod_small a (2 ^ n)) by lia.
      rewrite Z.mod_pow2_bits_high by lia. reflexivity. }
  rewrite <- Z.lxor_lor by exact Hland.
  rewrite <- Z.add_nocarry_lxor by exact Hland.
  rewrite Z.shiftl_mul_pow2 by lia. reflexivity.
Qed.

Lemma le16 (b0 b1 : byte) :
  Z.lor (u8 b0) (Z.shiftl (u8 b1) 8) = u8 b0 + 256 * u8 b1.
Proof.
  pose proof (u8_range b0). rewrite lor_shiftl_add by (change (2 ^ 8) with 256; lia).
  change (2 ^ 8) with 256. lia.
Qed.

Lemma le32 (b0 b1 b2 b3 : byte) :
  Z.lor (Z.lor (u8 b0) (Z.shiftl (u8 b1) 8))
        (Z.lor (Z.shiftl (u8 b2) 16) (Z.shiftl (u8 b3) 24))
  = u8 b0 + 256 * u8 b1 + 65536 * u8 b2 + 16777216 * u8 b3.
Proof.
  pose proof (u8_range b0). pose proof (u8_range b1).
  pose proof (u8_range b2). pose proof (u8_range b3).
  rewrite le16.
  replace (Z.shiftl (u8 b3) 24) with (Z.shiftl (Z.shiftl (u8 b3) 8) 16)
    by (rewrite Z.shiftl_shiftl by lia; reflexivity).
  rewrite <- Z.shiftl_lor.
  replace (Z.lor (u8 b2) (Z.shiftl (u8 b3) 8)) with (u8 b2 + 256 * u8 b3)
    by (symmetry; apply le16).
  rewrite lor_shiftl_add by (change (2 ^ 16) with 65536; lia).
  change (2 ^ 16) with 65536. lia.
Qed.

Lemma bytes_of_string_of_bytes (bs : Buffer) :
  bytes_of_string (string_of_bytes bs) = bs.
Proof.
  unfold bytes_of_string, string_of_bytes.
  rewrite list_ascii_of_string_of_list_ascii, List.map_map.
  induction bs as [|b bs IH]; [reflexivity|].
  cbn [List.map]. rewrite byte_of_ascii_of_byte, IH. reflexivity.
Qed.

(** The magic test of [parsePcmHeader] compares bytes. *)
Lemma magic_test (b0 b1 b2 b3 : byte) :
  String.eqb (string_of_bytes (List.map byte_of_Z [u8 b0; u8 b1; u8 b2; u8 b3])) "PCM1" = true
  <-> [b0; b1; b2; b3] = bytes_of_string "PCM1".
Proof.
  cbn [List.map]. rewrite !byte_of_Z_u8, String.eqb_eq. split.
  - intros H. rewrite <- H. symmetry. apply bytes_of_string_of_bytes.
  - intros H. rewrite H. reflexivity.
Qed.

End Bytes.

(** ** The stream header codec *)

Section PcmFacts.
Import Pcm.

(** On a buffer of sixteen bytes or more, [parsePcmHeader] answers by the
    first four bytes alone, and reads the fields at their offsets. *)
Lemma parsePcmHeader_long (b0 b1 b2 b3 b4 b5 b6 b7 b8 b9 b10 b11 b12 b13 b14 b15 : byte)
    (rest : Buffer) :
  parsePcmHeader
    (b0 :: b1 :: b2 :: b3 :: b4 :: b5 :: b6 :: b7 :: b8 :: b9 :: b10 :: b11
        :: b12 :: b13 :: b14 :: b15 :: rest)
  = if bool_decide ([b0; b1; b2; b3] = bytes_of_string "PCM1")
    then Ret (Some (mkPcmHeader "PCM1"
                      (u8 b4 + 256 * u8 b5 + 65536 * u8 b6 + 16777216 * u8 b7)
                      (u8 b8) (u8 b9)
                      (u8 b10 + 256 * u8 b11)
                      (u8 b12 + 256 * u8 b13)))
    else Ret None.
Proof.
  unfold parsePcmHeader.
  cbn [length Nat.ltb Nat.leb getUint8 getUint16LE getUint32LE bindR lookup
       list_lookup Nat.add].
  pose proof (magic_test b0 b1 b2 b3) as Hm.
  destruct (String.eqb _ "PCM1") eqn:E; cbn [negb].
  - rewrite bool_decide_eq_true_2 by (apply Hm; reflexivity).
    rewrite le32, !le16.
    assert (Hs : string_of_bytes (List.map byte_of_Z [u8 b0; u8 b1; u8 b2; u8 b3]) = "PCM1"%string)
      by (apply String.eqb_eq; exact E).
    rewrite Hs. reflexivity.
  - rewrite bool_decide_eq_false_2; [reflexivity|].
    intros H. apply Hm in H. congruence.
Qed.

Lemma parsePcmHeader_short (buffer : Buffer) :
  (length buffer < 16)%nat -> parsePcmHeader buffer = Ret None.
Proof.
  intros H. unfold parsePcmHeader.
  destruct (Nat.ltb_spec (length buffer) 16); [reflexivity|lia].
Qed.

(** Every list is shorter than sixteen or starts with sixteen elements. *)
Lemma sixteen_or_less (buffer : Buffer) :
  (length buffer < 16)%nat \/
  exists b0 b1 b2 b3 b4 b5 b6 b7 b8 b9 b10 b11 b12 b13 b14 b15 rest,
    buffer = b0 :: b1 :: b2 :: b3 :: b4 :: b5 :: b6 :: b7 :: b8 :: b9 :: b10
                :: b11 :: b12 :: b13 :: b14 :: b15 :: rest.
Proof.
  do 16 (destruct buffer as [|? buffer]; [left; cbn [length]; lia|]).
  right. repeat eexists.
Qed.

(** C5.  [parsePcmHeader] never raises.  It answers null exactly when the
    buffer is shorter than 16 bytes or does not start with the four bytes
    of "PCM1"; in every other case it answers a header whose magic is
    "PCM1" and whose fields are the little-endian numbers at offsets 4, 8,
    9, 10 and 12, each within the range of its width. *)
Theorem parsePcmHeader_null_iff (buffer : Buffer) :
  (parsePcmHeader buffer = Ret None
   <-> ((length buffer < 16)%nat \/ take 4 buffer <> bytes_of_string "PCM1"))
  /\ (parsePcmHeader buffer = Ret None
      \/ exists b4 b5 b6 b7 b8 b9 b10 b11 b12 b13 b14 b15 rest h,
           buffer = bytes_of_string "PCM1"
                      ++ [b4; b5; b6; b7; b8; b9; b10; b11; b12; b13; b14; b15] ++ rest
           /\ parsePcmHeader buffer = Ret (Some h)
           /\ magic h = "PCM1"%string
           /\ sample_rate h = u8 b4 + 256 * u8 b5 + 65536 * u8 b6 + 16777216 * u8 b7
           /\ channels h = u8 b8
           /\ bits h = u8 b9
           /\ frame_samps h = u8 b10 + 256 * u8 b11
           /\ reserved h = u8 b12 + 256 * u8 b13
           /\ 0 <= sample_rate h < 2 ^ 32
           /\ 0 <= channels h < 2 ^ 8
           /\ 0 <= bits h < 2 ^ 8
           /\ 0 <= frame_samps h < 2 ^ 16
           /\ 0 <= reserved h < 2 ^ 16).
Proof.
  destruct (sixteen_or_less buffer) as [Hshort | Hlong].
  - rewrite (parsePcmHeader_short _ Hshort). split; [|left; reflexivity].
    split; [intros _; left; exact Hshort | reflexivity].
  - destruct Hlong as (b0 & b1 & b2 & b3 & b4 & b5 & b6 & b7 & b8 & b9 & b10
                        & b11 & b12 & b13 & b14 & b15 & rest & ->).
    rewrite parsePcmHeader_long. cbn [take length].
    case_bool_decide as Hm.
    + split.
      * split; [discriminate|]. intros [Hlen | Hne]; [lia | contradiction].
      * right. exists b4, b5, b6, b7, b8, b9, b10, b11, b12, b13, b14, b15, rest.
        eexists. rewrite <- Hm. cbn [app].
        split; [reflexivity|]. split; [reflexivity|]. cbn [magic sample_rate channels bits frame_samps reserved].
        pose proof (u8_range b4). pose proof (u8_range b5). pose proof (u8_range b6).
        pose proof (u8_range b7). pose proof (u8_range b8). pose proof (u8_range b9).
        pose proof (u8_range b10). pose proof (u8_range b11).
        pose proof (u8_range b12). pose proof (u8_range b13).
        change (2 ^ 32) with 4294967296. change (2 ^ 16) with 65536.
        change (2 ^ 8) with 256.
        repeat split; lia.
    + split; [|left; reflexivity].
      split; [intros _; right; exact Hm | reflexivity].
Qed.

End PcmFacts.

Section PcmRoundTrip.
Import Pcm.

Lemma length_poke (bs : list byte) (off : nat) (buf : Buffer) :
  length (poke off bs buf) = length buf.
Proof.
  revert off buf. induction bs as [|b bs IH]; intros off buf; cbn [poke]; [reflexivity|].
  rewrite IH. apply length_insert.
Qed.

(** A write of a value that fits the width, at an offset that fits the
    buffer, does not raise. *)
Lemma writeUIntLE_ok (width : nat) (value : Z) (off : nat) (buf : Buffer) :
  0 <= value < 2 ^ (8 * Z.of_nat width) ->
  (off + width <= length buf)%nat ->
  writeUIntLE width value off buf
  = Ret (poke off
           (List.map (fun k => byte_of_Z (Z.shiftr value (8 * Z.of_nat k))) (seq 0 width))
           buf).
Proof.
  intros Hv Ho. unfold writeUIntLE.
  destruct (Z.leb_spec 0 value); [|lia].
  destruct (Z.ltb_spec value (2 ^ (8 * Z.of_nat width))); [|lia].
  destruct (Nat.leb_spec (off + width) (length buf)); [|lia].
  reflexivity.
Qed.

Lemma writeUIntLE_out_of_range (width : nat) (value : Z) (off : nat) (buf : Buffer) :
  2 ^ (8 * Z.of_nat width) <= value -> writeUIntLE width value off buf = Throw RangeError.
Proof.
  intros Hv. unfold writeUIntLE.
  destruct (Z.ltb_spec value (2 ^ (8 * Z.of_nat width))); [lia|].
  rewrite andb_false_r. reflexivity.
Qed.

Lemma stored_byte (v k : Z) :
  0 <= k -> u8 (byte_of_Z (Z.shiftr v k)) = (v / 2 ^ k) mod 256.
Proof. intros Hk. rewrite u8_byte_of_Z, Z.shiftr_div_pow2 by lia. reflexivity. Qed.

Ltac fits := rewrite ?length_poke; cbn [length Nat.add]; lia.

Lemma createPcmHeader_parse (sampleRate channels bits frameSamps : Z) :
  0 <= sampleRate < 2 ^ 32 ->
  0 <= channels < 2 ^ 8 ->
  0 <= bits < 2 ^ 8 ->
  0 <= frameSamps < 2 ^ 16 ->
  exists buffer,
    createPcmHeader sampleRate channels bits frameSamps = Ret buffer
    /\ length buffer = 16%nat
    /\ parsePcmHeader buffer
       = Ret (Some (mkPcmHeader "PCM1" sampleRate channels bits frameSamps 0)).
Proof.
  intros Hsr Hch Hbi Hfs.
  unfold createPcmHeader, writeUInt32LE, writeUInt16LE, writeUInt8.
  change (write "PCM1" 0 4 (alloc 16)) with
    [x50; x43; x4d; x31; x00; x00; x00; x00; x00; x00; x00; x00; x00; x00; x00; x00].
  rewrite writeUIntLE_ok; [|exact Hsr|fits]. cbn [bindR].
  rewrite writeUIntLE_ok; [|exact Hch|fits]. cbn [bindR].
  rewrite writeUIntLE_ok; [|exact Hbi|fits]. cbn [bindR].
  rewrite writeUIntLE_ok; [|exact Hfs|fits]. cbn [bindR].
  rewrite writeUIntLE_ok; [|cbn; lia|fits]. cbn [bindR].
  rewrite writeUIntLE_ok; [|cbn; lia|fits]. cbn [bindR].
  eexists. split; [reflexivity|]. split; [rewrite !length_poke; reflexivity|].
  cbn [seq List.map poke insert list_insert].
  rewrite parsePcmHeader_long.
  rewrite bool_decide_eq_true_2 by reflexivity.
  change (8 * Z.of_nat 0) with 0. change (8 * Z.of_nat 1) with 8.
  change (8 * Z.of_nat 2) with 16. change (8 * Z.of_nat 3) with 24.
  rewrite !stored_byte by lia.
  change (2 ^ 0) with 1. change (2 ^ 8) with 256 in *.
  change (2 ^ 16) with 65536 in *. change (2 ^ 24) with 16777216.
  change (2 ^ 32) with 4294967296 in *.
  do 3 f_equal.
  all: Z.div_mod_to_equations; lia.
Qed.

(** C3.  For field values within the widths u32, u8, u8 and u16,
    [createPcmHeader] returns sixteen bytes, and [parsePcmHeader] on them
    returns the magic "PCM1", the same four values, and reserved 0.  For
    (16000, 1, 16, 320) this is the header
    {PCM1, 16000, 1, 16, 320, reserved 0}. *)
Theorem createPcmHeader_roundtrip (sampleRate channels bits frameSamps : Z) :
  0 <= sampleRate < 2 ^ 32 ->
  0 <= channels < 2 ^ 8 ->
  0 <= bits < 2 ^ 8 ->
  0 <= frameSamps < 2 ^ 16 ->
  (exists buffer,
     createPcmHeader sampleRate channels bits frameSamps = Ret buffer
     /\ length buffer = 16%nat
     /\ parsePcmHeader buffer
        = Ret (Some (mkPcmHeader "PCM1" sampleRate channels bits frameSamps 0)))
  /\ bindR (createPcmHeader 16000 1 16 320) parsePcmHeader
     = Ret (Some (mkPcmHeader "PCM1" 16000 1 16 320 0)).
Proof.
  intros Hsr Hch Hbi Hfs. split.
  - apply createPcmHeader_parse; assumption.
  - vm_compute. reflexivity.
Qed.

Lemma createPcmHeader_roundtrip_witness :
  (exists buffer,
     createPcmHeader 44100 2 24 1024 = Ret buffer
     /\ length buffer = 16%nat
     /\ parsePcmHeader buffer
        = Ret (Some (mkPcmHeader "PCM1" 44100 2 24 1024 0)))
  /\ bindR (createPcmHeader 16000 1 16 320) parsePcmHeader
     = Ret (Some (mkPcmHeader "PCM1" 16000 1 16 320 0)).
Proof. apply (createPcmHeader_roundtrip 44100 2 24 1024); lia. Defined.

(** Outside the widths nothing is encoded: the write raises. *)
Example createPcmHeader_too_wide :
  createPcmHeader 16000 256 16 320 = Throw RangeError.
Proof. vm_compute. reflexivity. Qed.

End PcmRoundTrip.

(** ** The frame classifier *)

Section WsFacts.
Import Pcm Ws.

(** The header the classifier builds in line is the one [parsePcmHeader]
    returns. *)
Lemma handleMessage_header (handlers : WebSocketHandlers) (session : SessionInfo)
    (data : Buffer) (oc : Outcome) :
  header session = None ->
  (16 <= length data)%nat ->
  take 4 data = bytes_of_string "PCM1" ->
  exists h,
    parsePcmHeader data = Ret (Some h)
    /\ handleMessage_try handlers session (IsBuffer data) oc
       = (fst (deliver handlers (sessionId session) (MsgHeader data h) oc),
          mkSessionInfo (sessionId session) (Some h) (isAlive session),
          snd (deliver handlers (sessionId session) (MsgHeader data h) oc)).
Proof.
  intros Hnull Hlen Hmagic.
  destruct (sixteen_or_less data) as [Hshort | Hlong]; [lia|].
  destruct Hlong as (b0 & b1 & b2 & b3 & b4 & b5 & b6 & b7 & b8 & b9 & b10
                      & b11 & b12 & b13 & b14 & b15 & rest & ->).
  cbn [take] in Hmagic.
  rewrite parsePcmHeader_long, bool_decide_eq_true_2 by exact Hmagic.
  eexists. split; [reflexivity|].
  unfold handleMessage_try. rewrite Hnull.
  cbn [is_null length Nat.leb andb take].
  unfold utf8_equals. rewrite bool_decide_eq_true_2 by exact Hmagic.
  cbn [getUint8 getUint16LE getUint32LE bindR lookup list_lookup Nat.add].
  rewrite le32, !le16. cbn [sessionId].
  destruct (deliver _ _ _ _) as [r eff]. reflexivity.
Qed.

(** The end signal is recognised in both states, and resets the state
    once the handler has returned. *)
Lemma handleMessage_end (handlers : WebSocketHandlers) (session : SessionInfo) :
  handleMessage handlers session (IsBuffer END_frame) Returns
  = (mkSessionInfo (sessionId session) None (isAlive session),
     if onMessage handlers then [OnMessage (sessionId session) MsgEnd] else []).
Proof.
  unfold handleMessage, handleMessage_try.
  change (length END_frame) with 4%nat.
  cbn [Nat.leb andb]. rewrite andb_false_r.
  change ((4 =? 4)%nat && utf8_equals END_frame END_signal) with true.
  cbn match. unfold deliver. destruct (onMessage handlers); reflexivity.
Qed.

Lemma not_end_signal (data : Buffer) :
  data <> END_frame -> (length data =? 4)%nat && utf8_equals data END_signal = false.
Proof.
  intros H. unfold utf8_equals.
  rewrite bool_decide_eq_false_2 by exact H. apply andb_false_r.
Qed.

Lemma handleMessage_audio (handlers : WebSocketHandlers) (session : SessionInfo)
    (h : PcmHeader) (data : Buffer) :
  header session = Some h ->
  data <> END_frame ->
  handleMessage handlers session (IsBuffer data) Returns
  = (session, if onMessage handlers then [OnMessage (sessionId session) (MsgAudio data)] else []).
Proof.
  intros Hh Hend. unfold handleMessage, handleMessage_try.
  rewrite Hh. cbn [is_null andb]. rewrite (not_end_signal _ Hend).
  unfold deliver. destruct (onMessage handlers); reflexivity.
Qed.

Lemma handleMessage_drop (handlers : WebSocketHandlers) (session : SessionInfo)
    (data : Buffer) (oc : Outcome) :
  header session = None ->
  ~ ((16 <= length data)%nat /\ take 4 data = bytes_of_string "PCM1") ->
  data <> END_frame ->
  handleMessage handlers session (IsBuffer data) oc
  = (session, [WarnDataBeforeHeader (sessionId session)]).
Proof.
  intros Hh Hnot Hend. unfold handleMessage, handleMessage_try.
  rewrite Hh. cbn [is_null andb]. rewrite (not_end_signal _ Hend).
  replace ((16 <=? length data)%nat && utf8_equals (take 4 data) "PCM1") with false;
    [reflexivity|].
  symmetry. apply andb_false_iff.
  destruct (Nat.leb_spec 16 (length data)) as [Hle|Hlt]; [right|left; reflexivity].
  unfold utf8_equals. apply bool_decide_eq_false_2. intros Hm. apply Hnot. split; assumption.
Qed.

(** A handler that fails on the end message leaves the header in place:
    the reset comes after the awaited call. *)
Example handleMessage_end_handler_fails (session : SessionInfo) :
  handleMessage (mkHandlers true) session (IsBuffer END_frame) ThrowsSync
  = (session, [OnMessage (sessionId session) MsgEnd; ErrorProcessingMessage; SendJsonError]).
Proof.
  unfold handleMessage, handleMessage_try.
  change (length END_frame) with 4%nat.
  cbn [Nat.leb andb]. rewrite andb_false_r.
  change ((4 =? 4)%nat && utf8_equals END_frame END_signal) with true.
  reflexivity.
Qed.

End WsFacts.

(** ** The session manager: single operations *)

Section SessionFacts.
Import Pcm Session.

(** C1, amended.  On an existing session [addChunk] tests the byte quota
    first, then the duration quota, then the chunk-count quota, all on the
    session as it is before the chunk.  At the first quota that fails it
    warns and calls [onLimitExceeded] (when injected) with the untouched
    session and the reason of that quota; it then answers false, unless
    the callback throws, in which case [addChunk] raises what the callback
    threw; either way the manager is left exactly as it was.  When no
    quota fails it answers true, with the chunk appended, its length added
    to [totalBytes], the last activity of the session set to the clock,
    and nothing notified. *)
Theorem addChunk_quota_order (m : SessionManager) (id : string)
    (session : StreamingSession) (chunk : Buffer) (now1 now2 : Z) (oc : Outcome) :
  sessions m !! id = Some session ->
  let newTotalBytes := totalBytes session + Z.of_nat (length chunk) in
  let notified reason :=
    if onLimitExceeded (callbacks m) then [CallOnLimitExceeded session reason] else [] in
  let refused :=
    if onLimitExceeded (callbacks m)
    then match oc with ThrowsSync => Throw CallbackError | _ => Ret false end
    else Ret false in
  (newTotalBytes > maxBytes (config m) ->
     addChunk id chunk now1 now2 oc m
     = (refused, m,
        WarnMaxBytes id newTotalBytes (maxBytes (config m)) :: notified "max_bytes"%string))
  /\ (newTotalBytes <= maxBytes (config m) ->
      now1 - startTime session > maxDurationMs (config m) ->
      addChunk id chunk now1 now2 oc m
      = (refused, m,
         WarnMaxDuration id (now1 - startTime session) (maxDurationMs (config m))
           :: notified "max_duration"%string))
  /\ (newTotalBytes <= maxBytes (config m) ->
      now1 - startTime session <= maxDurationMs (config m) ->
      Z.of_nat (length (dataChunks session)) >= maxChunks (config m) ->
      addChunk id chunk now1 now2 oc m
      = (refused, m,
         WarnMaxChunks id (Z.of_nat (length (dataChunks session))) (maxChunks (config m))
           :: notified "max_chunks"%string))
  /\ (newTotalBytes <= maxBytes (config m) ->
      now1 - startTime session <= maxDurationMs (config m) ->
      Z.of_nat (length (dataChunks session)) < maxChunks (config m) ->
      addChunk id chunk now1 now2 oc m
      = (Ret true,
         mkManager
           (<[id := mkSession (sessionId session) (dataChunks session ++ [chunk])
                      (startTime session) newTotalBytes (header session)
                      (extra session)]> (sessions m))
           (<[id := now2]> (lastActivity m))
           (config m) (callbacks m),
         [])).
Proof.
  intros Hs newTotalBytes notified refused.
  assert (Hnotify : forall reason,
             notifyLimit m session reason oc = (refused, notified reason)).
  { intros reason. unfold notifyLimit, notified, refused.
    destruct (onLimitExceeded (callbacks m)); reflexivity. }
  unfold addChunk. rewrite Hs. fold newTotalBytes.
  repeat split; intros.
  - destruct (Z.ltb_spec (maxBytes (config m)) newTotalBytes); [|lia].
    rewrite Hnotify. reflexivity.
  - destruct (Z.ltb_spec (maxBytes (config m)) newTotalBytes); [lia|].
    destruct (Z.ltb_spec (maxDurationMs (config m)) (now1 - startTime session)); [|lia].
    rewrite Hnotify. reflexivity.
  - destruct (Z.ltb_spec (maxBytes (config m)) newTotalBytes); [lia|].
    destruct (Z.ltb_spec (maxDurationMs (config m)) (now1 - startTime session)); [lia|].
    destruct (Z.leb_spec (maxChunks (config m)) (Z.of_nat (length (dataChunks session)))); [|lia].
    rewrite Hnotify. reflexivity.
  - destruct (Z.ltb_spec (maxBytes (config m)) newTotalBytes); [lia|].
    destruct (Z.ltb_spec (maxDurationMs (config m)) (now1 - startTime session)); [lia|].
    destruct (Z.leb_spec (maxChunks (config m)) (Z.of_nat (length (dataChunks session)))); [lia|].
    reflexivity.
Qed.

(** C1 as stated fails.  With a limit callback that throws, a chunk that
    breaks the byte quota makes [addChunk] raise what the callback threw:
    no false is answered. *)
Lemma addChunk_limit_callback_throws :
  sessions Demo.manager1 !! "s1"%string = Some Demo.session1
  /\ addChunk "s1" (List.repeat x00 11) 1500 1501 ThrowsSync Demo.manager1
     = (Throw CallbackError, Demo.manager1,
        [WarnMaxBytes "s1" 11 10; CallOnLimitExceeded Demo.session1 "max_bytes"])
  /\ fst (fst (addChunk "s1" (List.repeat x00 11) 1500 1501 ThrowsSync Demo.manager1))
     <> Ret false.
Proof. vm_compute. repeat split; try reflexivity. discriminate. Qed.

(** No session, no admission. *)
Lemma addChunk_not_found (m : SessionManager) (id : string) (chunk : Buffer)
    (now1 now2 : Z) (oc : Outcome) :
  sessions m !! id = None ->
  addChunk id chunk now1 now2 oc m = (Ret false, m, [WarnSessionNotFound id]).
Proof. intros H. unfold addChunk. rewrite H. reflexivity. Qed.

(** Whatever the callback does, a call that does not answer true leaves
    the manager as it was. *)
Lemma addChunk_all_or_nothing (m : SessionManager) (id : string) (chunk : Buffer)
    (now1 now2 : Z) (oc : Outcome) :
  fst (fst (addChunk id chunk now1 now2 oc m)) <> Ret true ->
  snd (fst (addChunk id chunk now1 now2 oc m)) = m.
Proof.
  unfold addChunk. destruct (sessions m !! id) as [session|]; [|reflexivity].
  repeat match goal with
         | |- context [if ?b then _ else _] => destruct b
         | |- context [notifyLimit ?a ?b ?c ?d] => destruct (notifyLimit a b c d)
         end; cbn [fst snd]; congruence.
Qed.

Lemma addChunk_quota_order_witness :
  sessions Demo.manager1 !! "s1"%string = Some Demo.session1
  /\ addChunk "s1" [x01; x02] 1500 1501 Returns Demo.manager1
     = (Ret true,
        mkManager
          (<["s1"%string := mkSession "s1" [[x01; x02]] 1000 2 None ∅]>
             (sessions Demo.manager1))
          (<["s1"%string := 1501]> (lastActivity Demo.manager1))
          (config Demo.manager1) (callbacks Demo.manager1),
        []).
Proof.
  split; [reflexivity|].
  apply (addChunk_quota_order Demo.manager1 "s1" Demo.session1 [x01; x02] 1500 1501 Returns);
    [reflexivity | vm_compute; discriminate | vm_compute; discriminate
    | vm_compute; reflexivity].
Defined.

(** The same session refuses eleven bytes, and the byte quota is the one
    it reports although the call also comes too late. *)
Example addChunk_first_quota_reported :
  addChunk "s1" (List.repeat x00 11) 999999 999999 Returns Demo.manager1
  = (Ret false, Demo.manager1,
     [WarnMaxBytes "s1" 11 10; CallOnLimitExceeded Demo.session1 "max_bytes"]).
Proof. vm_compute. reflexivity. Qed.

(** *** [createSession] *)

(** The session is stored before the callback runs, whatever the callback
    then does. *)
Lemma createSession_inserts (m : SessionManager) (id : string)
    (hdr : option PcmHeader) (now1 now2 : Z) (oc : Outcome) :
  let m' := snd (fst (createSession id hdr now1 now2 oc m)) in
  sessions m' !! id = Some (mkSession id [] now1 0 hdr ∅)
  /\ lastActivity m' !! id = Some now2
  /\ config m' = config m
  /\ callbacks m' = callbacks m.
Proof.
  intros m'. subst m'. unfold createSession. unfold set_sessions; cbn [callbacks].
  destruct (onCreate (callbacks m)); [destruct oc|];
    cbn [fst snd sessions lastActivity config callbacks];
    rewrite !lookup_insert_eq; auto.
Qed.

(** With no callback, or one that returns, even a promise that rejects
    later, the caller gets the fresh session. *)
Lemma createSession_returns (m : SessionManager) (id : string)
    (hdr : option PcmHeader) (now1 now2 : Z) (oc : Outcome) :
  onCreate (callbacks m) = false \/ oc <> ThrowsSync ->
  fst (fst (createSession id hdr now1 now2 oc m)) = Ret (mkSession id [] now1 0 hdr ∅).
Proof.
  intros H. unfold createSession. unfold set_sessions; cbn [callbacks].
  destruct H as [H|H].
  - rewrite H. reflexivity.
  - destruct (onCreate (callbacks m)); [|reflexivity]. destruct oc; [reflexivity|contradiction|reflexivity].
Qed.

(** A creation callback whose promise rejects is reported on the error
    log, and the caller still gets the session. *)
Lemma createSession_rejection_logged (ss : gmap string StreamingSession)
    (la : gmap string Z) (cfg : SessionConfig) (e l i : bool) (id : string)
    (hdr : option PcmHeader) (now1 now2 : Z) :
  let r := createSession id hdr now1 now2 RejectsLater
             (mkManager ss la cfg (mkCallbacks true e l i)) in
  fst (fst r) = Ret (mkSession id [] now1 0 hdr ∅) /\ In ErrorInOnCreate (snd r).
Proof. cbn. auto. Qed.

(** C9, at the failing input.  With an injected creation callback that
    throws, [createSession] stores the fresh session and then raises what
    the callback threw: the caller gets no session, and neither the error
    log nor the creation log is written. *)
Theorem createSession_callback_throws (ss : gmap string StreamingSession)
    (la : gmap string Z) (cfg : SessionConfig) (e l i : bool) (id : string)
    (hdr : option PcmHeader) (now1 now2 : Z) :
  createSession id hdr now1 now2 ThrowsSync (mkManager ss la cfg (mkCallbacks true e l i))
  = (Throw CallbackError,
     mkManager (<[id := mkSession id [] now1 0 hdr ∅]> ss) (<[id := now2]> la)
       cfg (mkCallbacks true e l i),
     [CallOnCreate (mkSession id [] now1 0 hdr ∅)]).
Proof. reflexivity. Qed.

(** *** [endSession] and [getStats] *)

Lemma getStats_absent (m : SessionManager) (id : string) (now : Z) :
  sessions m !! id = None -> getStats id now m = None.
Proof. intros H. unfold getStats. rewrite H. reflexivity. Qed.

(** Whatever the end callback does, the session is gone afterwards. *)
Lemma endSession_removes (m : SessionManager) (id : string) (oc : Outcome) :
  sessions (snd (fst (endSession id oc m))) !! id = None.
Proof.
  unfold endSession. destruct (sessions m !! id) as [session|] eqn:E; [|exact E].
  unfold set_sessions; cbn [callbacks].
  destruct (onEnd (callbacks m)); [destruct oc|]; cbn [fst snd sessions];
    apply lookup_delete_eq.
Qed.

(** C6, amended.  For a session that exists and is no thenable: the first
    [endSession] removes the session and its last-activity entry and calls
    [onEnd] (when injected) once, with the session as it was; its promise
    fulfils with that session when the callback returns or none is
    injected, and rejects with what the callback threw or rejected with
    otherwise.  A second [endSession], whatever its callback would do,
    fulfils with null, calls nothing and changes nothing.  [getStats]
    answers null after the first call and after the second. *)
Theorem endSession_twice (m : SessionManager) (id : string)
    (session : StreamingSession) (oc1 oc2 : Outcome) (now now' : Z) :
  sessions m !! id = Some session ->
  thenable session = false ->
  let first := endSession id oc1 m in
  let m1 := snd (fst first) in
  let second := endSession id oc2 m1 in
  settlement (fst (fst first))
  = (if onEnd (callbacks m)
     then match oc1 with
          | Returns => Fulfilled (Some session)
          | _ => Rejected CallbackError
          end
     else Fulfilled (Some session))
  /\ sessions m1 !! id = None
  /\ lastActivity m1 !! id = None
  /\ end_notifications (snd first) = (if onEnd (callbacks m) then [session] else [])
  /\ second = (Ret None, m1, [])
  /\ settlement (fst (fst second)) = Fulfilled None
  /\ getStats id now m1 = None
  /\ getStats id now' (snd (fst second)) = None.
Proof.
  intros Hs Hthen first m1 second.
  assert (Hgone : sessions m1 !! id = None) by apply endSession_removes.
  assert (Hsecond : second = (Ret None, m1, [])).
  { unfold second, endSession. rewrite Hgone. reflexivity. }
  rewrite Hsecond. cbn [fst snd settlement].
  subst first m1. clear Hsecond second.
  unfold endSession in *. rewrite Hs in *. unfold set_sessions in *; cbn [callbacks] in *.
  destruct (onEnd (callbacks m)); [destruct oc1|];
    cbn [fst snd sessions lastActivity end_notifications omap settlement] in *;
    rewrite ?Hthen, ?lookup_delete_eq; repeat split; auto using getStats_absent.
Qed.

Lemma endSession_twice_witness :
  sessions Demo.manager1 !! "s1"%string = Some Demo.session1
  /\ thenable Demo.session1 = false
  /\ settlement (fst (fst (endSession "s1" Returns Demo.manager1)))
     = Fulfilled (Some Demo.session1)
  /\ end_notifications (snd (endSession "s1" Returns Demo.manager1)) = [Demo.session1]
  /\ endSession "s1" ThrowsSync (snd (fst (endSession "s1" Returns Demo.manager1)))
     = (Ret None, snd (fst (endSession "s1" Returns Demo.manager1)), [])
  /\ getStats "s1" 2000 (snd (fst (endSession "s1" Returns Demo.manager1))) = None.
Proof.
  split; [reflexivity|]. split; [reflexivity|].
  destruct (endSession_twice Demo.manager1 "s1" Demo.session1 Returns ThrowsSync 2000 3000
              eq_refl eq_refl)
    as (H1 & _ & _ & H4 & H5 & _ & H6 & _).
  exact (conj H1 (conj H4 (conj H5 H6))).
Defined.

(** C6 as stated fails.  An end callback that fails makes the promise of
    the first [endSession] reject: the caller gets what the callback threw
    or rejected with, not the session.  The session is removed all the
    same. *)
Lemma endSession_callback_fails :
  sessions Demo.manager1 !! "s1"%string = Some Demo.session1
  /\ endSession "s1" RejectsLater Demo.manager1
     = (Throw CallbackError,
        mkManager ∅ ∅ (config Demo.manager1) (callbacks Demo.manager1),
        [CallOnEnd Demo.session1])
  /\ endSession "s1" ThrowsSync Demo.manager1
     = (Throw CallbackError,
        mkManager ∅ ∅ (config Demo.manager1) (callbacks Demo.manager1),
        [CallOnEnd Demo.session1])
  /\ fst (fst (endSession "s1" RejectsLater Demo.manager1)) <> Ret (Some Demo.session1).
Proof. vm_compute. repeat split; try reflexivity. discriminate. Qed.

End SessionFacts.


(** ** The session manager: sequences of [addChunk] *)

Section SessionSequences.
Import Pcm Session.

Lemma total_length_app (chunks : list Buffer) (chunk : Buffer) :
  total_length (chunks ++ [chunk]) = total_length chunks + Z.of_nat (length chunk).
Proof.
  unfold total_length. induction chunks as [|c chunks IH]; cbn [app fold_right] in *; lia.
Qed.

(** What one [addChunk], on any session id, does to the session [id]. *)
Lemma addChunk_session (m : SessionManager) (id id' : string) (session : StreamingSession)
    (chunk : Buffer) (now1 now2 : Z) (oc : Outcome) :
  sessions m !! id = Some session ->
  let r := addChunk id' chunk now1 now2 oc m in
  config (snd (fst r)) = config m
  /\ ((fst (fst r) = Ret true /\ id' = id
       /\ totalBytes session + Z.of_nat (length chunk) <= maxBytes (config m)
       /\ sessions (snd (fst r)) !! id
          = Some (mkSession (sessionId session) (dataChunks session ++ [chunk])
                    (startTime session) (totalBytes session + Z.of_nat (length chunk))
                    (header session) (extra session)))
      \/ ((fst (fst r) <> Ret true \/ id' <> id)
          /\ sessions (snd (fst r)) !! id = Some session)).
Proof.
  intros Hs r. subst r. unfold addChunk.
  destruct (sessions m !! id') as [session'|] eqn:Hs'.
  2:{ cbn [fst snd]. split; [reflexivity|]. right. split; [left; discriminate|exact Hs]. }
  destruct (Z.ltb_spec (maxBytes (config m)) (totalBytes session' + Z.of_nat (length chunk))).
  { destruct (notifyLimit _ _ _ _) as [r ev] eqn:En. cbn [fst snd].
    split; [reflexivity|]. right. split; [|exact Hs]. left.
    unfold notifyLimit in En. destruct (onLimitExceeded _), oc; inversion En; discriminate. }
  destruct (Z.ltb_spec (maxDurationMs (config m)) (now1 - startTime session')).
  { destruct (notifyLimit _ _ _ _) as [r ev] eqn:En. cbn [fst snd].
    split; [reflexivity|]. right. split; [|exact Hs]. left.
    unfold notifyLimit in En. destruct (onLimitExceeded _), oc; inversion En; discriminate. }
  destruct (Z.leb_spec (maxChunks (config m)) (Z.of_nat (length (dataChunks session')))).
  { destruct (notifyLimit _ _ _ _) as [r ev] eqn:En. cbn [fst snd].
    split; [reflexivity|]. right. split; [|exact Hs]. left.
    unfold notifyLimit in En. destruct (onLimitExceeded _), oc; inversion En; discriminate. }
  cbn [fst snd]. unfold set_sessions. cbn [config sessions]. split; [reflexivity|].
  destruct (decide (id' = id)) as [->|Hne].
  - left. rewrite Hs in Hs'. inversion Hs'; subst session'.
    rewrite lookup_insert_eq. auto.
  - right. rewrite lookup_insert_ne by exact Hne. auto.
Qed.

Lemma run_addChunks (id : string) (calls : list Call) :
  forall (m : SessionManager) (session : StreamingSession),
    Forall (fun c => is_AddChunk c = true) calls ->
    sessions m !! id = Some session ->
    exists session',
      sessions (snd (run calls m)) !! id = Some session'
      /\ config (snd (run calls m)) = config m
      /\ dataChunks session' = dataChunks session ++ admitted id calls (fst (run calls m))
      /\ totalBytes session'
         = totalBytes session + total_length (admitted id calls (fst (run calls m)))
      /\ (totalBytes session <= maxBytes (config m) ->
          totalBytes session' <= maxBytes (config m)).
Proof.
  induction calls as [|c calls IH]; intros m session Hall Hs.
  - exists session. unfold total_length. cbn [run fst snd admitted fold_right].
    rewrite app_nil_r. repeat split; [exact Hs|lia|auto].
  - inversion Hall as [|? ? Hc Hrest]; subst.
    destruct c as [| |id' chunk now1 now2 oc| | |]; try discriminate Hc.
    cbn [run call].
    pose proof (addChunk_session m id id' session chunk now1 now2 oc Hs) as Hstep.
    cbn zeta in Hstep.
    destruct (addChunk id' chunk now1 now2 oc m) as [[r m1] ev] eqn:Ea.
    cbn [fst snd] in Hstep. destruct Hstep as [Hcfg Hstep].
    destruct Hstep as [(Hr & Hid & Hle & Hs1) | (Hno & Hs1)].
    + destruct (IH m1 _ Hrest Hs1) as (s' & Hs' & Hcfg' & Hchunks & Htot & Hbound).
      destruct (run calls m1) as [rs m2] eqn:Er. cbn [fst snd] in *.
      exists s'. subst r id'. cbn [admitted]. rewrite String.eqb_refl.
      cbn [dataChunks totalBytes] in *.
      split; [exact Hs'|]. split; [congruence|].
      split; [rewrite Hchunks, <- app_assoc; reflexivity|].
      split; [rewrite Htot; unfold total_length; cbn [fold_right totalBytes]; lia|].
      intros _. rewrite Hcfg in Hbound. apply Hbound. exact Hle.
    + destruct (IH m1 _ Hrest Hs1) as (s' & Hs' & Hcfg' & Hchunks & Htot & Hbound).
      destruct (run calls m1) as [rs m2] eqn:Er. cbn [fst snd] in *.
      exists s'.
      assert (Hadm : admitted id (AddChunk id' chunk now1 now2 oc :: calls) ((BoolReply r, ev) :: rs)
                     = admitted id calls rs).
      { cbn [admitted]. destruct r as [[|]|]; try reflexivity.
        destruct Hno as [Hno|Hno]; [contradiction|].
        destruct (String.eqb_spec id' id); [contradiction|reflexivity]. }
      rewrite Hadm.
      split; [exact Hs'|]. split; [congruence|]. split; [exact Hchunks|].
      split; [exact Htot|]. rewrite Hcfg in Hbound. exact Hbound.
Qed.

(** C2, amended.  In a manager whose byte quota is not negative, create a
    session, then make any sequence of [addChunk] calls, on this or any
    other session id, with any clock readings and callback outcomes.
    After every prefix of the sequence the session holds exactly the
    chunks of the calls that answered true for it, in call order;
    [totalBytes] is the sum of their lengths; and [totalBytes] does not
    exceed [maxBytes]. *)
Theorem addChunk_totalBytes_invariant (m0 : SessionManager) (id : string)
    (hdr : option PcmHeader) (now1 now2 : Z) (oc : Outcome) (calls : list Call) (n : nat) :
  0 <= maxBytes (config m0) ->
  Forall (fun c => is_AddChunk c = true) calls ->
  let created := snd (fst (createSession id hdr now1 now2 oc m0)) in
  let r := run (take n calls) created in
  exists session,
    sessions (snd r) !! id = Some session
    /\ dataChunks session = admitted id (take n calls) (fst r)
    /\ totalBytes session = total_length (dataChunks session)
    /\ totalBytes session <= maxBytes (config m0).
Proof.
  intros Hmax Hall created r.
  destruct (createSession_inserts m0 id hdr now1 now2 oc) as (Hs & _ & Hcfg & _).
  fold created in Hs, Hcfg.
  destruct (run_addChunks id (take n calls) created _ (Forall_take _ n _ Hall) Hs)
    as (session & Hs' & _ & Hchunks & Htot & Hbound).
  fold r in Hs', Hchunks, Htot.
  cbn [dataChunks totalBytes app] in *.
  exists session. split; [exact Hs'|]. split; [exact Hchunks|].
  split; [rewrite Htot, Hchunks; lia|].
  rewrite <- Hcfg. apply Hbound. rewrite Hcfg. exact Hmax.
Qed.

Lemma addChunk_totalBytes_invariant_witness :
  exists session,
    sessions (snd (run [AddChunk "s1" [x01; x02] 1500 1501 Returns;
                        AddChunk "s1" (List.repeat x00 11) 1600 1601 Returns;
                        AddChunk "s1" [x03] 1700 1701 Returns]
                     Demo.manager1)) !! "s1"%string = Some session
    /\ dataChunks session = [[x01; x02]; [x03]]
    /\ totalBytes session = total_length (dataChunks session)
    /\ totalBytes session <= 10.
Proof.
  apply (addChunk_totalBytes_invariant Demo.manager0 "s1" None 1000 1001 Returns
           [AddChunk "s1" [x01; x02] 1500 1501 Returns;
            AddChunk "s1" (List.repeat x00 11) 1600 1601 Returns;
            AddChunk "s1" [x03] 1700 1701 Returns] 3).
  - vm_compute. discriminate.
  - repeat constructor.
Defined.

(** C2 as stated fails.  The constructor takes a negative byte quota as it
    is given.  A fresh session has 0 bytes, which is more than a quota of
    -1 allows; [addChunk] refuses even the empty chunk and leaves
    [totalBytes], still the sum of the lengths of the chunks admitted,
    above [maxBytes]. *)
Lemma negative_byte_quota :
  let m0 := new (Some (-1)) None None None (mkCallbacks false false false false) in
  let m := snd (fst (createSession "s1" None 0 0 Returns m0)) in
  let m' := snd (fst (addChunk "s1" [] 1 1 Returns m)) in
  maxBytes (config m0) = -1
  /\ addChunk "s1" [] 1 1 Returns m = (Ret false, m, [WarnMaxBytes "s1" 0 (-1)])
  /\ totalBytes <$> sessions m' !! "s1"%string = Some 0
  /\ exists session,
       sessions m' !! "s1"%string = Some session
       /\ totalBytes session = total_length (dataChunks session)
       /\ totalBytes session > maxBytes (config m').
Proof.
  vm_compute. repeat split; try reflexivity.
  eexists. split; [reflexivity|]. split; reflexivity.
Qed.

End SessionSequences.


(** ** The session manager: sidecar properties *)

Section SidecarFacts.
Import Pcm Session.

Lemma declared_eq (s s' : StreamingSession) :
  declared s = declared s' ->
  sessionId s = sessionId s' /\ dataChunks s = dataChunks s'
  /\ startTime s = startTime s' /\ totalBytes s = totalBytes s' /\ header s = header s'.
Proof. unfold declared. intros H. inversion H. auto. Qed.

Lemma same_declared_lookup (m m' : SessionManager) (id : string) :
  same_declared m m' ->
  declared <$> (sessions m !! id) = declared <$> (sessions m' !! id).
Proof.
  intros (_ & _ & _ & H). rewrite <- !lookup_fmap, H. reflexivity.
Qed.

Lemma same_declared_insert (m m' : SessionManager) (id : string)
    (s s' : StreamingSession) (la : gmap string Z) :
  same_declared m m' -> declared s = declared s' ->
  same_declared (set_sessions m (<[id := s]> (sessions m)) la)
                (set_sessions m' (<[id := s']> (sessions m')) la).
Proof.
  intros (Hc & Hcb & Hla & Hs) Hd. unfold same_declared, set_sessions.
  cbn [config callbacks lastActivity sessions].
  rewrite !fmap_insert, Hs, Hd. auto.
Qed.

Lemma same_declared_delete (m m' : SessionManager) (id : string) :
  same_declared m m' ->
  same_declared (set_sessions m (delete id (sessions m)) (delete id (lastActivity m)))
                (set_sessions m' (delete id (sessions m')) (delete id (lastActivity m'))).
Proof.
  intros (Hc & Hcb & Hla & Hs). unfold same_declared, set_sessions.
  cbn [config callbacks lastActivity sessions].
  rewrite !fmap_delete, Hs, Hla. auto.
Qed.

Ltac same_lookup H id :=
  pose proof (same_declared_lookup _ _ id H) as Hl;
  match type of Hl with
  | _ <$> (sessions ?m !! _) = _ <$> (sessions ?m' !! _) =>
      destruct (sessions m !! id) as [s|] eqn:E;
      destruct (sessions m' !! id) as [s'|] eqn:E';
      cbn [fmap option_fmap option_map] in Hl; try discriminate Hl;
      [ assert (Hd : declared s = declared s') by congruence;
        destruct (declared_eq _ _ Hd) as (F1 & F2 & F3 & F4 & F5); clear Hl
      | clear Hl ]
  end.

Lemma createSession_same (id : string) (hdr : option PcmHeader) (now1 now2 : Z)
    (oc : Outcome) (m m' : SessionManager) :
  same_declared m m' ->
  same_declared (snd (fst (createSession id hdr now1 now2 oc m)))
                (snd (fst (createSession id hdr now1 now2 oc m')))
  /\ fst (fst (createSession id hdr now1 now2 oc m)) = fst (fst (createSession id hdr now1 now2 oc m'))
  /\ snd (createSession id hdr now1 now2 oc m) = snd (createSession id hdr now1 now2 oc m').
Proof.
  intros H. pose proof H as (Hc & Hcb & Hla & Hs).
  pose proof (same_declared_insert m m' id (mkSession id [] now1 0 hdr ∅)
                (mkSession id [] now1 0 hdr ∅) (<[id := now2]> (lastActivity m')) H eq_refl) as Hi.
  unfold createSession. rewrite Hla.
  unfold set_sessions in *. cbn [callbacks]. rewrite Hcb in Hi |- *.
  destruct (onCreate (callbacks m')); [destruct oc|]; cbn [fst snd]; auto.
Qed.

Lemma setHeader_same (id : string) (hdr : PcmHeader) (now : Z) (m m' : SessionManager) :
  same_declared m m' ->
  same_declared (snd (setHeader id hdr now m)) (snd (setHeader id hdr now m'))
  /\ fst (setHeader id hdr now m) = fst (setHeader id hdr now m').
Proof.
  intros H. pose proof H as (Hc & Hcb & Hla & Hs).
  unfold setHeader. same_lookup H id; cbn [fst snd]; [|auto].
  rewrite Hla. split; [|reflexivity].
  apply same_declared_insert; [exact H|]. unfold declared. cbn. congruence.
Qed.

Lemma addChunk_same (id : string) (chunk : Buffer) (now1 now2 : Z) (oc : Outcome)
    (m m' : SessionManager) :
  same_declared m m' ->
  same_declared (snd (fst (addChunk id chunk now1 now2 oc m)))
                (snd (fst (addChunk id chunk now1 now2 oc m')))
  /\ fst (fst (addChunk id chunk now1 now2 oc m)) = fst (fst (addChunk id chunk now1 now2 oc m'))
  /\ declared_event <$> snd (addChunk id chunk now1 now2 oc m)
     = declared_event <$> snd (addChunk id chunk now1 now2 oc m').
Proof.
  intros H. pose proof H as (Hc & Hcb & Hla & Hs).
  unfold addChunk. same_lookup H id; cbn [fst snd]; [|auto].
  rewrite <- Hc, <- F2, <- F3, <- F4.
  unfold notifyLimit. rewrite <- Hcb.
  repeat match goal with
         | |- context [if ?b then _ else _] => destruct b
         end; cbn [fst snd fmap list_fmap declared_event];
    rewrite ?Hd; auto.
  split; [|auto]. rewrite Hla. apply same_declared_insert; [exact H|].
  unfold declared. cbn. congruence.
Qed.

Lemma getAudioData_same (id : string) (m m' : SessionManager) :
  same_declared m m' -> getAudioData id m = getAudioData id m'.
Proof.
  intros H. unfold getAudioData. same_lookup H id; [|reflexivity].
  rewrite F2. reflexivity.
Qed.

Lemma getStats_same (id : string) (now : Z) (m m' : SessionManager) :
  same_declared m m' -> getStats id now m = getStats id now m'.
Proof.
  intros H. unfold getStats. same_lookup H id; [|reflexivity].
  rewrite F2, F3, F4, F5. reflexivity.
Qed.

Lemma endSession_same (id : string) (oc : Outcome) (m m' : SessionManager) :
  same_declared m m' ->
  same_declared (snd (fst (endSession id oc m))) (snd (fst (endSession id oc m')))
  /\ declared_result (fmap declared) (fst (fst (endSession id oc m)))
     = declared_result (fmap declared) (fst (fst (endSession id oc m')))
  /\ declared_event <$> snd (endSession id oc m) = declared_event <$> snd (endSession id oc m').
Proof.
  intros H. pose proof H as (Hc & Hcb & Hla & Hs).
  unfold endSession. same_lookup H id; cbn [fst snd]; [|auto].
  pose proof (same_declared_delete m m' id H) as Hdel.
  unfold set_sessions in *. cbn [callbacks]. rewrite Hcb in Hdel |- *.
  destruct (onEnd (callbacks m')); [destruct oc|];
    cbn [fst snd declared_result fmap option_fmap option_map list_fmap declared_event];
    rewrite ?Hd; auto.
Qed.

(** Every call answers the same on both, the sidecar apart. *)
Lemma call_same_declared (c : Call) (m m' : SessionManager) :
  same_declared m m' ->
  same_declared (snd (fst (call c m))) (snd (fst (call c m')))
  /\ declared_reply (fst (fst (call c m))) = declared_reply (fst (fst (call c m')))
  /\ declared_event <$> snd (call c m) = declared_event <$> snd (call c m').
Proof.
  intros H.
  destruct c as [id hdr now1 now2 oc | id hdr now | id chunk now1 now2 oc | id | id now | id oc];
    cbn [call].
  - destruct (createSession_same id hdr now1 now2 oc m m' H) as (H1 & H2 & H3).
    destruct (createSession id hdr now1 now2 oc m) as [[r m1] ev].
    destruct (createSession id hdr now1 now2 oc m') as [[r' m1'] ev'].
    cbn [fst snd declared_reply] in *. subst. auto.
  - destruct (setHeader_same id hdr now m m' H) as (H1 & H2).
    destruct (setHeader id hdr now m) as [r m1].
    destruct (setHeader id hdr now m') as [r' m1'].
    cbn [fst snd declared_reply] in *. subst. auto.
  - destruct (addChunk_same id chunk now1 now2 oc m m' H) as (H1 & H2 & H3).
    destruct (addChunk id chunk now1 now2 oc m) as [[r m1] ev].
    destruct (addChunk id chunk now1 now2 oc m') as [[r' m1'] ev'].
    cbn [fst snd declared_reply] in *. subst. auto.
  - cbn [fst snd]. rewrite (getAudioData_same id m m' H). auto.
  - cbn [fst snd]. rewrite (getStats_same id now m m' H). auto.
  - destruct (endSession_same id oc m m' H) as (H1 & H2 & H3).
    destruct (endSession id oc m) as [[r m1] ev].
    destruct (endSession id oc m') as [[r' m1'] ev'].
    cbn [fst snd declared_reply] in *. rewrite H2. auto.
Qed.

Lemma run_same_declared (calls : list Call) :
  forall m m', same_declared m m' ->
    declared_step <$> fst (run calls m) = declared_step <$> fst (run calls m').
Proof.
  induction calls as [|c calls IH]; intros m m' H; [reflexivity|].
  cbn [run].
  destruct (call_same_declared c m m' H) as (H1 & H2 & H3).
  destruct (call c m) as [[r m1] ev]. destruct (call c m') as [[r' m1'] ev'].
  cbn [fst snd] in *. specialize (IH m1 m1' H1).
  destruct (run calls m1) as [rs m2]. destruct (run calls m1') as [rs' m2'].
  cbn [fst snd fmap list_fmap] in *. unfold declared_step at 1 3. cbn [fst snd].
  rewrite H2, H3, IH. reflexivity.
Qed.

Lemma assign_sidecar (session : StreamingSession) (key : string) (value : JsValue) :
  key ∉ field_names ->
  replaces_prototype key value = false ->
  exists session', assign session key value = Some session'
                   /\ declared session' = declared session
                   /\ (changes_thenable session key value = false ->
                       thenable session' = thenable session).
Proof.
  intros Hk Hp. unfold field_names in Hk.
  rewrite !not_elem_of_cons in Hk. destruct Hk as (K1 & K2 & K3 & K4 & K5 & _).
  destruct session as [sid chunks start total hdr ext]. unfold assign.
  rewrite (proj2 (String.eqb_neq _ _) K1), (proj2 (String.eqb_neq _ _) K2),
    (proj2 (String.eqb_neq _ _) K3), (proj2 (String.eqb_neq _ _) K4),
    (proj2 (String.eqb_neq _ _) K5).
  unfold replaces_prototype in Hp.
  destruct (String.eqb key "__proto__").
  - cbn [andb] in Hp. rewrite Hp. eexists. repeat split; reflexivity.
  - eexists. split; [reflexivity|]. split; [reflexivity|].
    unfold changes_thenable, thenable. cbn [extra].
    destruct (String.eqb_spec key "then") as [->|Hne]; cbn [andb].
    + intros Hc. apply orb_false_iff in Hc. destruct Hc as [Hc Ht].
      rewrite lookup_insert_eq, Hc, Ht. reflexivity.
    + intros _. rewrite lookup_insert_ne by exact Hne. reflexivity.
Qed.

(** C8, amended.  On an existing session, for every value and for every
    key that is not the name of a declared field (sessionId, dataChunks,
    startTime, totalBytes, header), two assignments set aside: one that
    replaces the prototype of the session (an object or null under
    [__proto__]) and one that touches what makes a thenable (under
    [then], a function as the value or a function already there).  [setSessionData] then answers true and leaves the
    five declared fields of the session, whether it is a thenable, the
    last-activity table, the limits, the callbacks and every other session
    as they were; and every later sequence of calls (create, setHeader,
    addChunk, getAudioData, getStats, endSession) gives the same replies
    and the same events as it would have given without the assignment,
    the sidecar properties of the sessions they carry apart. *)
Theorem setSessionData_sidecar (m : SessionManager) (id key : string)
    (session : StreamingSession) (value : JsValue) :
  sessions m !! id = Some session ->
  key ∉ field_names ->
  replaces_prototype key value = false ->
  changes_thenable session key value = false ->
  exists m' session',
    setSessionData id key value m = Some (true, m')
    /\ sessions m' !! id = Some session'
    /\ sessionId session' = sessionId session
    /\ dataChunks session' = dataChunks session
    /\ totalBytes session' = totalBytes session
    /\ header session' = header session
    /\ startTime session' = startTime session
    /\ thenable session' = thenable session
    /\ lastActivity m' = lastActivity m
    /\ config m' = config m
    /\ callbacks m' = callbacks m
    /\ (forall id', id' <> id -> sessions m' !! id' = sessions m !! id')
    /\ (forall calls,
          declared_step <$> fst (run calls m') = declared_step <$> fst (run calls m)).
Proof.
  intros Hs Hk Hp Ht.
  destruct (assign_sidecar session key value Hk Hp) as (session' & Ha & Hd & Hthen).
  unfold setSessionData. rewrite Hs, Ha.
  eexists. exists session'. split; [reflexivity|].
  unfold set_sessions. cbn [sessions lastActivity config callbacks].
  rewrite lookup_insert_eq.
  destruct (declared_eq _ _ Hd) as (H1 & H2 & H3 & H4 & H5).
  repeat (split; [solve [auto]|]).
  split.
  - intros id' Hne. apply lookup_insert_ne. congruence.
  - intros calls. apply run_same_declared.
    unfold same_declared. cbn [sessions lastActivity config callbacks].
    repeat (split; [reflexivity|]).
    rewrite fmap_insert, Hd. apply insert_id. rewrite lookup_fmap, Hs. reflexivity.
Qed.

Lemma setSessionData_sidecar_witness :
  exists m' session',
    setSessionData "s1" "onReady" (JFunction 7) Demo.manager1 = Some (true, m')
    /\ sessions m' !! "s1"%string = Some session'
    /\ sessionId session' = sessionId Demo.session1
    /\ dataChunks session' = dataChunks Demo.session1
    /\ totalBytes session' = totalBytes Demo.session1
    /\ header session' = header Demo.session1
    /\ startTime session' = startTime Demo.session1
    /\ thenable session' = thenable Demo.session1
    /\ lastActivity m' = lastActivity Demo.manager1
    /\ config m' = config Demo.manager1
    /\ callbacks m' = callbacks Demo.manager1
    /\ (forall id', id' <> "s1"%string -> sessions m' !! id' = sessions Demo.manager1 !! id')
    /\ (forall calls,
          declared_step <$> fst (run calls m') = declared_step <$> fst (run calls Demo.manager1)).
Proof.
  apply (setSessionData_sidecar Demo.manager1 "s1" "onReady" Demo.session1 (JFunction 7)).
  - reflexivity.
  - unfold field_names. rewrite !not_elem_of_cons. repeat split; try discriminate.
    apply not_elem_of_nil.
  - reflexivity.
  - reflexivity.
Defined.

(** The two assignments set aside.  A function stored under [then] makes
    the session a thenable, and the promise of [endSession] then settles
    as that function says instead of fulfilling with the session; an
    object stored under [__proto__] becomes the prototype of the session,
    which is not followed here, while a number stored there changes
    nothing. *)
Example setSessionData_then :
  exists m',
    setSessionData "s1" "then" (JFunction 7) Demo.manager1 = Some (true, m')
    /\ settlement (fst (fst (endSession "s1" Returns Demo.manager1)))
       = Fulfilled (Some Demo.session1)
    /\ settlement (fst (fst (endSession "s1" Returns m')))
       = AsThenSays (mkSession "s1" [] 1000 0 None {[ "then"%string := JFunction 7 ]}).
Proof. eexists. split; [reflexivity|]. split; reflexivity. Qed.

Example setSessionData_prototype :
  setSessionData "s1" "__proto__" (JFunction 7) Demo.manager1 = None
  /\ setSessionData "s1" "__proto__" (JNumber 7) Demo.manager1 = Some (true, Demo.manager1).
Proof. split; reflexivity. Qed.

(** C8 as stated fails: the key "totalBytes" names the byte counter itself.
    After [setSessionData('s1', 'totalBytes', 999)] the counter reads 999
    instead of 0, and a one-byte chunk that was admitted is refused. *)
Lemma setSessionData_overwrites_totalBytes :
  sessions Demo.manager1 !! "s1"%string = Some Demo.session1
  /\ setSessionData "s1" "totalBytes" (JNumber 999) Demo.manager1 = Some (true, Demo.manager2)
  /\ totalBytes <$> sessions Demo.manager1 !! "s1"%string = Some 0
  /\ totalBytes <$> sessions Demo.manager2 !! "s1"%string = Some 999
  /\ totalBytes <$> sessions Demo.manager2 !! "s1"%string
     <> totalBytes <$> sessions Demo.manager1 !! "s1"%string
  /\ fst (fst (addChunk "s1" [x01] 1500 1501 Returns Demo.manager1)) = Ret true
  /\ fst (fst (addChunk "s1" [x01] 1500 1501 Returns Demo.manager2)) = Ret false.
Proof. vm_compute. repeat split; try reflexivity. discriminate. Qed.

End SidecarFacts.


(** ** Resampling *)

Section AudioFacts.
Import Num Audio.

Lemma length_fill (pcm : Int16Array) (ratio : number) (steps : nat) :
  forall (i : nat) (out : Int16Array), length (fill pcm ratio steps i out) = length out.
Proof.
  induction steps as [|steps IH]; intros i out; cbn [fill]; [reflexivity|].
  rewrite IH. apply length_insert.
Qed.

(** An array is made exactly when the length is no infinity and its integer
    part lies between 0 and the smaller of 2^52 - 1 and what the engine can
    make; it then has that many elements. *)
Lemma newInt16Array_on_cases (capacity : Z) (len : number) :
  (exists out, newInt16Array_on capacity len = Ret out
               /\ Z.of_nat (length out) = trunc len
               /\ 0 <= trunc len <= Z.min capacity (2 ^ 52 - 1)
               /\ (forall s, len <> S754_infinity s))
  \/ (newInt16Array_on capacity len = Throw RangeError
      /\ ((exists s, len = S754_infinity s) \/ trunc len < 0
          \/ 2 ^ 52 - 1 < trunc len \/ capacity < trunc len)).
Proof.
  unfold newInt16Array_on.
  destruct len as [s|s| |s m e]; cbv beta iota zeta.
  2:{ right. split; [reflexivity|]. left. eexists. reflexivity. }
  all: match goal with |- context [Z.leb 0 ?t] => generalize t end; intros n;
    destruct (Z.leb_spec 0 n); destruct (Z.leb_spec n (2 ^ 52 - 1));
    destruct (Z.leb_spec n capacity); cbn [andb];
    [ left; eexists; split; [reflexivity|];
      rewrite repeat_length, Z2Nat.id by assumption;
      repeat split; try lia; discriminate
    | right; split; [reflexivity|]; right; lia .. ].
Qed.

(** The length the resampler asks for is never negative. *)
Lemma outLen_not_negative (pcm : Int16Array) (srcRate dstRate : number) :
  0 <= trunc (outLen pcm srcRate dstRate).
Proof.
  unfold outLen.
  generalize (Math_floor (mul (of_Z (Z.of_nat (length pcm))) (div dstRate srcRate))).
  intros y. unfold Math_max.
  destruct (SFcompare (of_Z 1) y) as [[| |]|] eqn:E.
  - vm_compute. discriminate.
  - destruct y as [s|s| |s m e]; try (cbn; lia).
    destruct s; [vm_compute in E; discriminate E|].
    unfold trunc, signed. cbn [cond_Zopp].
    destruct (0 <=? e); [lia|]. apply Z.shiftr_nonneg. lia.
  - vm_compute. discriminate.
  - cbn. lia.
Qed.

(** C7, amended.  For distinct rates, let L be the number the code computes,
    [max(1, floor(len * (dstRate / srcRate)))], each operation rounded to
    binary64: the quotient first, then the product, then the floor.  On an
    engine that can make arrays of up to [capacity] elements: if L is no
    infinity and its integer part is at most 2^52 - 1 and at most
    [capacity], the result has exactly that many samples; otherwise, that
    is when L is infinite, or 2^52 or more, or more than the engine can
    make, making the output array raises RangeError. *)
Theorem resampleInt16Mono_length (capacity : Z) (pcm : Int16Array)
    (srcRate dstRate : number) :
  strict_eq srcRate dstRate = false ->
  let L := outLen pcm srcRate dstRate in
  (exists out, resampleInt16Mono_on capacity pcm srcRate dstRate = Ret out
               /\ Z.of_nat (length out) = trunc L
               /\ 0 <= trunc L <= Z.min capacity (2 ^ 52 - 1)
               /\ (forall s, L <> S754_infinity s))
  \/ (resampleInt16Mono_on capacity pcm srcRate dstRate = Throw RangeError
      /\ ((exists s, L = S754_infinity s) \/ 2 ^ 52 - 1 < trunc L \/ capacity < trunc L)).
Proof.
  intros Hne L. unfold resampleInt16Mono_on. rewrite Hne.
  fold (outLen pcm srcRate dstRate). fold L.
  destruct (newInt16Array_on_cases capacity L)
    as [(out & Hnew & Hlen & Hrange & Hinf) | (Hnew & Hwhy)].
  - left. rewrite Hnew. cbn [bindR]. eexists. split; [reflexivity|].
    rewrite length_fill. auto.
  - right. rewrite Hnew. cbn [bindR]. split; [reflexivity|].
    destruct Hwhy as [H | [H | H]]; [left; exact H | exfalso | right; exact H].
    pose proof (outLen_not_negative pcm srcRate dstRate) as Hpos. fold L in Hpos. lia.
Qed.

Lemma resampleInt16Mono_length_witness :
  (exists out, resampleInt16Mono_on 1000 [100; -200; 300] (of_Z 3) (of_Z 7) = Ret out
               /\ Z.of_nat (length out) = trunc (outLen [100; -200; 300] (of_Z 3) (of_Z 7))
               /\ 0 <= trunc (outLen [100; -200; 300] (of_Z 3) (of_Z 7))
                  <= Z.min 1000 (2 ^ 52 - 1)
               /\ (forall s, outLen [100; -200; 300] (of_Z 3) (of_Z 7) <> S754_infinity s))
  \/ (resampleInt16Mono_on 1000 [100; -200; 300] (of_Z 3) (of_Z 7) = Throw RangeError
      /\ ((exists s, outLen [100; -200; 300] (of_Z 3) (of_Z 7) = S754_infinity s)
          \/ 2 ^ 52 - 1 < trunc (outLen [100; -200; 300] (of_Z 3) (of_Z 7))
          \/ 1000 < trunc (outLen [100; -200; 300] (of_Z 3) (of_Z 7)))).
Proof.
  apply (resampleInt16Mono_length 1000 [100; -200; 300] (of_Z 3) (of_Z 7)).
  vm_compute. reflexivity.
Defined.

(** The same call on an engine that cannot make seven elements, and a
    length of 2^52 on any engine. *)
Example resample_beyond_capacity :
  resampleInt16Mono_on 6 [100; -200; 300] (of_Z 3) (of_Z 7) = Throw RangeError.
Proof. vm_compute. reflexivity. Qed.

Example newInt16Array_2_52 (capacity : Z) :
  newInt16Array_on capacity (of_Z (2 ^ 52 - 1)) =
    (if 2 ^ 52 - 1 <=? capacity then Ret (List.repeat 0 (Z.to_nat (2 ^ 52 - 1)))
     else Throw RangeError)
  /\ newInt16Array_on capacity (of_Z (2 ^ 52)) = Throw RangeError.
Proof.
  split.
  - unfold newInt16Array_on.
    change (of_Z (2 ^ 52 - 1)) with (S754_finite false 9007199254740990 (-1)).
    change (trunc (S754_finite false 9007199254740990 (-1))) with (2 ^ 52 - 1).
    reflexivity.
  - reflexivity.
Qed.

(** Three samples at 3 Hz become seven at 7 Hz; where rounding does not
    interfere the exact formula is met: 480 samples at 48 kHz become 160 at
    16 kHz. *)
Example resample_3_to_7 :
  resampleInt16Mono [100; -200; 300] (of_Z 3) (of_Z 7)
  = Ret [100; -29; -157; -57; 157; 300; 300].
Proof. vm_compute. reflexivity. Qed.

Example resample_48k_to_16k :
  trunc (outLen (List.repeat 0 480) (of_Z 48000) (of_Z 16000)) = 480 * 16000 / 48000.
Proof. vm_compute. reflexivity. Qed.

(** C7 as stated fails.  5507 samples at 44056 Hz resampled to 16000 Hz:
    5507 * 16000 / 44056 is exactly 2000, but the rounded quotient times
    5507 rounds to a double just below 2000, and the result has 1999
    samples. *)
Lemma resample_length_differs :
  strict_eq (of_Z 44056) (of_Z 16000) = false
  /\ exists out,
       resampleInt16Mono Demo.silence (of_Z 44056) (of_Z 16000) = Ret out
       /\ Z.of_nat (length out) = 1999
       /\ Z.max 1 (Z.of_nat (length Demo.silence) * 16000 / 44056) = 2000
       /\ Z.of_nat (length out) <> Z.max 1 (Z.of_nat (length Demo.silence) * 16000 / 44056).
Proof.
  split; [reflexivity|]. eexists. split; [vm_compute; reflexivity|].
  vm_compute. repeat split; try reflexivity. discriminate.
Qed.

(** *** The empty array *)

Lemma element_empty (k : number) : element [] k = NaN.
Proof.
  unfold element. destruct (to_integer k) as [i|]; [|reflexivity].
  destruct (0 <=? i); reflexivity.
Qed.

(** C10, amended.  For the empty array and distinct rates, the result is a
    single sample 0 when the quotient [dstRate / srcRate] is finite, and
    the empty array when it is infinite or NaN; in neither case does the
    call raise.  Every read of the empty array is [undefined], NaN in
    arithmetic, and the array stores NaN as 0. *)
Theorem resampleInt16Mono_empty (srcRate dstRate : number) :
  strict_eq srcRate dstRate = false ->
  resampleInt16Mono [] srcRate dstRate
  = (if is_finite (div dstRate srcRate) then Ret [0] else Ret [])
  /\ (forall k, element [] k = NaN)
  /\ ToInt16 NaN = 0.
Proof.
  intros Hne. split; [|split; [exact element_empty|reflexivity]].
  unfold resampleInt16Mono, resampleInt16Mono_on. rewrite Hne.
  generalize (div dstRate srcRate). intros ratio.
  destruct ratio as [[|]|[|]| |[|] m e]; vm_compute; reflexivity.
Qed.

Lemma resampleInt16Mono_empty_witness :
  resampleInt16Mono [] (of_Z 44100) (of_Z 16000)
  = (if is_finite (div (of_Z 16000) (of_Z 44100)) then Ret [0] else Ret [])
  /\ (forall k, element [] k = NaN)
  /\ ToInt16 NaN = 0.
Proof.
  apply (resampleInt16Mono_empty (of_Z 44100) (of_Z 16000)). vm_compute. reflexivity.
Defined.

Example resample_empty_44100_16000 :
  resampleInt16Mono [] (of_Z 44100) (of_Z 16000) = Ret [0].
Proof. vm_compute. reflexivity. Qed.

(** C10 as stated fails.  A source rate of 0, which [decodeWavToInt16Mono]
    passes on unchecked from the fmt chunk of a file, makes the quotient
    infinite, the length NaN, and the result an empty array, not one
    sample. *)
Lemma resample_empty_rate_zero :
  strict_eq (of_Z 0) (of_Z 16000) = false
  /\ resampleInt16Mono [] (of_Z 0) (of_Z 16000) = Ret []
  /\ resampleInt16Mono [] (of_Z 0) (of_Z 16000) <> Ret [0].
Proof. vm_compute. repeat split; try reflexivity. discriminate. Qed.

(** With samples to read, the same rate makes the length infinite, and the
    call raises. *)
Example resample_rate_zero_raises :
  resampleInt16Mono [5] (of_Z 0) (of_Z 16000) = Throw RangeError.
Proof. vm_compute. reflexivity. Qed.

End AudioFacts.

(** ** PCM1 files and WAV headers *)

Section PcmFileFacts.
Import Pcm PcmFile.

Lemma parsePcmHeader_take16 (buffer : Buffer) :
  (16 <= length buffer)%nat ->
  parsePcmHeader (take 16 buffer) = parsePcmHeader buffer.
Proof.
  intros Hlen. destruct (sixteen_or_less buffer) as [Hshort | Hlong]; [lia|].
  destruct Hlong as (b0 & b1 & b2 & b3 & b4 & b5 & b6 & b7 & b8 & b9 & b10
                      & b11 & b12 & b13 & b14 & b15 & rest & ->).
  cbn [take]. rewrite !parsePcmHeader_long. reflexivity.
Qed.

(** X1.  [extractPcmData] never raises.  It answers null exactly when the
    buffer is shorter than 16 bytes or does not start with "PCM1"; otherwise
    it answers everything after the sixteenth byte as data, with the format
    that [parsePcmHeader] reads from the buffer. *)
Theorem extractPcmData_null_iff (pcmBuffer : Buffer) :
  (extractPcmData pcmBuffer = Ret None
   <-> ((length pcmBuffer < 16)%nat \/ take 4 pcmBuffer <> bytes_of_string "PCM1"))
  /\ (extractPcmData pcmBuffer = Ret None
      \/ exists h,
           parsePcmHeader pcmBuffer = Ret (Some h)
           /\ extractPcmData pcmBuffer
              = Ret (Some (drop 16 pcmBuffer,
                           mkAudioFormat (sample_rate h) (Pcm.channels h) (bits h)))).
Proof.
  unfold extractPcmData.
  destruct (Nat.ltb_spec (length pcmBuffer) 16) as [Hshort|Hlong].
  { split; [|left; reflexivity]. split; [left; exact Hshort | reflexivity]. }
  rewrite parsePcmHeader_take16 by exact Hlong.
  destruct (sixteen_or_less pcmBuffer) as [Hs | Hl]; [lia|].
  destruct Hl as (b0 & b1 & b2 & b3 & b4 & b5 & b6 & b7 & b8 & b9 & b10
                   & b11 & b12 & b13 & b14 & b15 & rest & ->).
  rewrite parsePcmHeader_long. cbn [take].
  case_bool_decide as Hm; cbn [bindR].
  - split.
    + split; [discriminate|]. intros [H|H]; [cbn [length] in H; lia|contradiction].
    + right. eexists. split; reflexivity.
  - split; [|left; reflexivity]. split; [right; exact Hm|reflexivity].
Qed.

Lemma createPcmWithHeader_spec (pcmData : Buffer) (sampleRate channels bits : Z) :
  0 <= sampleRate < 2 ^ 32 ->
  0 <= channels < 2 ^ 8 ->
  0 <= bits < 2 ^ 8 ->
  exists buffer,
    createPcmWithHeader pcmData sampleRate channels bits = Ret buffer
    /\ length buffer = (16 + length pcmData)%nat
    /\ extractPcmData buffer
       = Ret (Some (pcmData, mkAudioFormat sampleRate channels bits)).
Proof.
  intros Hsr Hch Hbi.
  destruct (createPcmHeader_parse sampleRate channels bits 320 Hsr Hch Hbi ltac:(lia))
    as (hdr & Hc & Hlen & Hp).
  unfold createPcmWithHeader. rewrite Hc. cbn [bindR].
  exists (hdr ++ pcmData). split; [reflexivity|].
  split; [rewrite length_app, Hlen; reflexivity|].
  unfold extractPcmData.
  destruct (Nat.ltb_spec (length (hdr ++ pcmData)) 16) as [H|H];
    [rewrite length_app in H; lia|].
  rewrite take_app_length' by (symmetry; exact Hlen). rewrite Hp. cbn [bindR].
  rewrite drop_app_length' by (symmetry; exact Hlen). reflexivity.
Qed.

(** X2.  For values within the field widths, [createPcmWithHeader] prepends
    sixteen bytes to the data, and [extractPcmData] on the result gives back
    the data and the three format values. *)
Theorem createPcmWithHeader_extract (pcmData : Buffer) (sampleRate channels bits : Z) :
  0 <= sampleRate < 2 ^ 32 ->
  0 <= channels < 2 ^ 8 ->
  0 <= bits < 2 ^ 8 ->
  exists buffer,
    createPcmWithHeader pcmData sampleRate channels bits = Ret buffer
    /\ length buffer = (16 + length pcmData)%nat
    /\ extractPcmData buffer
       = Ret (Some (pcmData, mkAudioFormat sampleRate channels bits)).
Proof.
  intros Hsr Hch Hbi.
  destruct (createPcmWithHeader_spec pcmData sampleRate channels bits Hsr Hch Hbi)
    as (buffer & H1 & H2 & H3).
  exists buffer. auto.
Qed.

Lemma createPcmWithHeader_extract_witness :
  exists buffer,
    createPcmWithHeader [x01; x02; x03; x04] 16000 1 16 = Ret buffer
    /\ length buffer = (16 + length [x01; x02; x03; x04])%nat
    /\ extractPcmData buffer
       = Ret (Some ([x01; x02; x03; x04], mkAudioFormat 16000 1 16)).
Proof. apply (createPcmWithHeader_extract [x01; x02; x03; x04] 16000 1 16); lia. Defined.

Lemma writeEighthsLE_ok (width : nat) (num : Z) (off : nat) (buf : Buffer) :
  0 <= num <= 8 * (2 ^ (8 * Z.of_nat width) - 1) ->
  (off + width <= length buf)%nat ->
  writeEighthsLE width num off buf = Ret (poke off (le_bytes width (num / 8)) buf).
Proof.
  intros Hv Ho. unfold writeEighthsLE.
  destruct (Z.leb_spec 0 num); [|lia].
  destruct (Z.leb_spec num (8 * (2 ^ (8 * Z.of_nat width) - 1))); [|lia].
  destruct (Nat.leb_spec (off + width) (length buf)); [|lia].
  reflexivity.
Qed.

Lemma writeUIntLE_bytes (width : nat) (value : Z) (off : nat) (buf : Buffer) :
  0 <= value < 2 ^ (8 * Z.of_nat width) ->
  (off + width <= length buf)%nat ->
  writeUIntLE width value off buf = Ret (poke off (le_bytes width value) buf).
Proof. apply writeUIntLE_ok. Qed.

Lemma writeUIntLE_negative (width : nat) (value : Z) (off : nat) (buf : Buffer) :
  value < 0 -> writeUIntLE width value off buf = Throw RangeError.
Proof.
  intros Hv. unfold writeUIntLE. destruct (Z.leb_spec 0 value); [lia|]. reflexivity.
Qed.

Lemma write_poke (s : string) (off len : nat) (buf : Buffer) :
  len = length (bytes_of_string s) ->
  (off + len <= length buf)%nat ->
  write s off len buf = poke off (bytes_of_string s) buf.
Proof.
  intros -> H. unfold write. rewrite Nat.min_l by lia.
  rewrite firstn_all. reflexivity.
Qed.

Lemma length_alloc (n : nat) : length (alloc n) = n.
Proof. apply repeat_length. Qed.

Ltac wav_fits := rewrite ?length_poke, ?length_alloc; cbn [length Nat.add]; lia.

Lemma createWavHeader_bytes (dataSize sampleRate channels bitsPerSample : Z) :
  0 <= dataSize <= 2 ^ 32 - 37 ->
  0 <= sampleRate < 2 ^ 32 ->
  0 <= channels < 2 ^ 16 ->
  0 <= bitsPerSample < 2 ^ 16 ->
  sampleRate * channels * bitsPerSample <= 8 * (2 ^ 32 - 1) ->
  channels * bitsPerSample <= 8 * (2 ^ 16 - 1) ->
  exists header,
    createWavHeader dataSize sampleRate channels bitsPerSample = Ret header
    /\ length header = 44%nat
    /\ header
       = bytes_of_string "RIFF" ++ le_bytes 4 (36 + dataSize)
         ++ bytes_of_string "WAVE"
         ++ bytes_of_string "fmt " ++ le_bytes 4 16
         ++ le_bytes 2 1 ++ le_bytes 2 channels
         ++ le_bytes 4 sampleRate
         ++ le_bytes 4 (sampleRate * channels * bitsPerSample / 8)
         ++ le_bytes 2 (channels * bitsPerSample / 8)
         ++ le_bytes 2 bitsPerSample
         ++ bytes_of_string "data" ++ le_bytes 4 dataSize.
Proof.
  intros Hds Hsr Hch Hbi Hbr Hba.
  assert (0 <= sampleRate * channels * bitsPerSample) by nia.
  assert (0 <= channels * bitsPerSample) by nia.
  change (2 ^ 32) with 4294967296 in *. change (2 ^ 16) with 65536 in *.
  unfold createWavHeader, writeUInt32LE, writeUInt16LE.
  rewrite (write_poke "RIFF") by (try reflexivity; wav_fits).
  rewrite writeUIntLE_bytes;
    [|change (2 ^ (8 * Z.of_nat 4)) with 4294967296; lia|wav_fits].
  cbn [bindR].
  rewrite (write_poke "WAVE") by (try reflexivity; wav_fits).
  rewrite (write_poke "fmt ") by (try reflexivity; wav_fits).
  rewrite writeUIntLE_bytes; [|cbn; lia|wav_fits]. cbn [bindR].
  rewrite writeUIntLE_bytes; [|cbn; lia|wav_fits]. cbn [bindR].
  rewrite writeUIntLE_bytes;
    [|change (2 ^ (8 * Z.of_nat 2)) with 65536; lia|wav_fits]. cbn [bindR].
  rewrite writeUIntLE_bytes;
    [|change (2 ^ (8 * Z.of_nat 4)) with 4294967296; lia|wav_fits]. cbn [bindR].
  rewrite writeEighthsLE_ok;
    [|change (2 ^ (8 * Z.of_nat 4)) with 4294967296; lia|wav_fits]. cbn [bindR].
  rewrite writeEighthsLE_ok;
    [|change (2 ^ (8 * Z.of_nat 2)) with 65536; lia|wav_fits]. cbn [bindR].
  rewrite writeUIntLE_bytes;
    [|change (2 ^ (8 * Z.of_nat 2)) with 65536; lia|wav_fits]. cbn [bindR].
  rewrite (write_poke "data") by (try reflexivity; wav_fits).
  rewrite writeUIntLE_bytes;
    [|change (2 ^ (8 * Z.of_nat 4)) with 4294967296; lia|wav_fits]. cbn [bindR].
  change (bytes_of_string "RIFF") with [x52; x49; x46; x46].
  change (bytes_of_string "WAVE") with [x57; x41; x56; x45].
  change (bytes_of_string "fmt ") with [x66; x6d; x74; x20].
  change (bytes_of_string "data") with [x64; x61; x74; x61].
  cbn [le_bytes List.map seq poke insert list_insert alloc List.repeat app].
  eexists. split; [reflexivity|]. split; reflexivity.
Qed.

(** X3.  For a data size of at most 2^32 - 37, a sample rate below 2^32,
    channel count and bit depth below 2^16, and byte rate and block
    alignment within their fields, [createWavHeader] returns the 44 bytes of
    the canonical header: "RIFF", 36 + dataSize, "WAVE", "fmt ", 16, format
    tag 1, channels, sample rate, byte rate, block alignment, bits per
    sample, "data", dataSize, every number little-endian. *)
Theorem createWavHeader_layout (dataSize sampleRate channels bitsPerSample : Z) :
  0 <= dataSize <= 2 ^ 32 - 37 ->
  0 <= sampleRate < 2 ^ 32 ->
  0 <= channels < 2 ^ 16 ->
  0 <= bitsPerSample < 2 ^ 16 ->
  sampleRate * channels * bitsPerSample <= 8 * (2 ^ 32 - 1) ->
  channels * bitsPerSample <= 8 * (2 ^ 16 - 1) ->
  exists header,
    createWavHeader dataSize sampleRate channels bitsPerSample = Ret header
    /\ length header = 44%nat
    /\ header
       = bytes_of_string "RIFF" ++ le_bytes 4 (36 + dataSize)
         ++ bytes_of_string "WAVE"
         ++ bytes_of_string "fmt " ++ le_bytes 4 16
         ++ le_bytes 2 1 ++ le_bytes 2 channels
         ++ le_bytes 4 sampleRate
         ++ le_bytes 4 (sampleRate * channels * bitsPerSample / 8)
         ++ le_bytes 2 (channels * bitsPerSample / 8)
         ++ le_bytes 2 bitsPerSample
         ++ bytes_of_string "data" ++ le_bytes 4 dataSize.
Proof. apply createWavHeader_bytes. Qed.

Lemma createWavHeader_layout_witness :
  exists header,
    createWavHeader 32000 16000 1 16 = Ret header
    /\ length header = 44%nat
    /\ header
       = bytes_of_string "RIFF" ++ le_bytes 4 (36 + 32000)
         ++ bytes_of_string "WAVE"
         ++ bytes_of_string "fmt " ++ le_bytes 4 16
         ++ le_bytes 2 1 ++ le_bytes 2 1
         ++ le_bytes 4 16000
         ++ le_bytes 4 (16000 * 1 * 16 / 8)
         ++ le_bytes 2 (1 * 16 / 8)
         ++ le_bytes 2 16
         ++ bytes_of_string "data" ++ le_bytes 4 32000.
Proof. apply (createWavHeader_layout 32000 16000 1 16); lia. Defined.

Example createWavHeader_16k_mono :
  createWavHeader 32000 16000 1 16
  = Ret [x52; x49; x46; x46; x24; x7d; x00; x00; x57; x41; x56; x45;
         x66; x6d; x74; x20; x10; x00; x00; x00; x01; x00; x01; x00;
         x80; x3e; x00; x00; x00; x7d; x00; x00; x02; x00; x10; x00;
         x64; x61; x74; x61; x00; x7d; x00; x00].
Proof. vm_compute. reflexivity. Qed.

Lemma writeEighthsLE_too_big (width : nat) (num : Z) (off : nat) (buf : Buffer) :
  8 * (2 ^ (8 * Z.of_nat width) - 1) < num ->
  writeEighthsLE width num off buf = Throw RangeError.
Proof.
  intros Hv. unfold writeEighthsLE.
  destruct (Z.leb_spec num (8 * (2 ^ (8 * Z.of_nat width) - 1))); [lia|].
  rewrite andb_false_r. reflexivity.
Qed.

(** Every failure of a write is a RangeError. *)
Lemma writeUIntLE_result (width : nat) (value : Z) (off : nat) (buf : Buffer) :
  writeUIntLE width value off buf = Throw RangeError
  \/ exists buf', writeUIntLE width value off buf = Ret buf'.
Proof. unfold writeUIntLE. destruct (_ && _); eauto. Qed.

Lemma writeEighthsLE_result (width : nat) (num : Z) (off : nat) (buf : Buffer) :
  writeEighthsLE width num off buf = Throw RangeError
  \/ exists buf', writeEighthsLE width num off buf = Ret buf'.
Proof. unfold writeEighthsLE. destruct (_ && _); eauto. Qed.

Ltac next_write :=
  match goal with
  | |- context [bindR (writeUIntLE ?w ?v ?o ?b) _] =>
      destruct (writeUIntLE_result w v o b) as [-> | [? ->]];
      [reflexivity | cbn [bindR]]
  | |- context [bindR (writeEighthsLE ?w ?v ?o ?b) _] =>
      destruct (writeEighthsLE_result w v o b) as [-> | [? ->]];
      [reflexivity | cbn [bindR]]
  end.

(** X4.  [createWavHeader] raises a RangeError when the byte rate
    [sampleRate * channels * bitsPerSample / 8] exceeds 2^32 - 1, or when
    the data size exceeds 2^32 - 37: a header is never written with a
    field that wrapped around. *)
Theorem createWavHeader_out_of_range (dataSize sampleRate channels bitsPerSample : Z) :
  8 * (2 ^ 32 - 1) < sampleRate * channels * bitsPerSample \/ 2 ^ 32 - 37 < dataSize ->
  createWavHeader dataSize sampleRate channels bitsPerSample = Throw RangeError.
Proof.
  intros H. unfold createWavHeader, writeUInt32LE, writeUInt16LE.
  destruct H as [H|H].
  - do 5 next_write.
    rewrite writeEighthsLE_too_big by exact H. reflexivity.
  - rewrite writeUIntLE_out_of_range; [reflexivity|].
    change (2 ^ (8 * Z.of_nat 4)) with (2 ^ 32). lia.
Qed.

Lemma createWavHeader_out_of_range_witness :
  createWavHeader 1000 4000000000 2 16 = Throw RangeError.
Proof. apply (createWavHeader_out_of_range 1000 4000000000 2 16). left. lia. Defined.

(** X5.  A PCM1 file made by [createPcmWithHeader] converts to the WAV file
    that [wrapPcmToWav] makes of the same data and format, and fails where
    that fails. *)
Theorem convertPcmToWav_createPcmWithHeader (pcmData : Buffer)
    (sampleRate channels bits : Z) :
  0 <= sampleRate < 2 ^ 32 ->
  0 <= channels < 2 ^ 8 ->
  0 <= bits < 2 ^ 8 ->
  exists buffer,
    createPcmWithHeader pcmData sampleRate channels bits = Ret buffer
    /\ convertPcmToWav buffer
       = (let* wav := wrapPcmToWav pcmData sampleRate channels bits in Ret (Some wav)).
Proof.
  intros Hsr Hch Hbi.
  destruct (createPcmWithHeader_spec pcmData sampleRate channels bits Hsr Hch Hbi)
    as (buffer & Hc & _ & He).
  exists buffer. split; [exact Hc|].
  unfold convertPcmToWav. rewrite He. reflexivity.
Qed.

Lemma convertPcmToWav_createPcmWithHeader_witness :
  exists buffer,
    createPcmWithHeader [x01; x02] 16000 1 16 = Ret buffer
    /\ convertPcmToWav buffer
       = (let* wav := wrapPcmToWav [x01; x02] 16000 1 16 in Ret (Some wav)).
Proof. apply (convertPcmToWav_createPcmWithHeader [x01; x02] 16000 1 16); lia. Defined.

End PcmFileFacts.

(** ** The session manager: missing sessions, other sessions *)

Section SessionNotFound.
Import Pcm Session SessionMore.

Lemma call_not_found (c : Call) (m : SessionManager) (reply : Reply) :
  sessions m !! target c = None ->
  not_found_reply c = Some reply ->
  fst (call c m) = (reply, m).
Proof.
  intros Hs Hr.
  destruct c as [id hdr now1 now2 oc | id hdr now | id chunk now1 now2 oc | id | id now | id oc];
    cbn [target not_found_reply] in *; inversion Hr; subst; cbn [call].
  - unfold setHeader. rewrite Hs. reflexivity.
  - unfold addChunk. rewrite Hs. reflexivity.
  - unfold getAudioData. rewrite Hs. reflexivity.
  - unfold getStats. rewrite Hs. reflexivity.
  - unfold endSession. rewrite Hs. reflexivity.
Qed.

(** X6.  Once [endSession] has run for an id, whatever its callback did,
    every operation on that id other than [createSession] finds no session:
    [setHeader] and [addChunk] answer false, [getAudioData], [getStats] and
    [endSession] answer null, [setSessionData] answers false,
    [getSessionData] answers undefined, and none of them changes the
    manager. *)
Theorem operations_after_endSession (m : SessionManager) (id : string) (oc : Outcome)
    (c : Call) (key : string) (value : JsValue) :
  target c = id ->
  is_CreateSession c = false ->
  let ended := snd (fst (endSession id oc m)) in
  not_found_reply c = Some (fst (fst (call c ended)))
  /\ snd (fst (call c ended)) = ended
  /\ setSessionData id key value ended = Some (false, ended)
  /\ getSessionData id key ended = Own JUndefined.
Proof.
  intros Ht Hc ended.
  assert (Hgone : sessions ended !! id = None) by apply endSession_removes.
  destruct (not_found_reply c) as [reply|] eqn:Hr;
    [|destruct c; discriminate].
  rewrite <- Ht in Hgone.
  rewrite (call_not_found c ended reply Hgone Hr). cbn [fst snd].
  rewrite Ht in Hgone.
  unfold setSessionData, getSessionData. rewrite Hgone. auto.
Qed.

Lemma operations_after_endSession_witness :
  not_found_reply (AddChunk "s1" [x01] 5 6 Returns)
  = Some (fst (fst (call (AddChunk "s1" [x01] 5 6 Returns)
                      (snd (fst (endSession "s1" Returns Demo.manager1))))))
  /\ snd (fst (call (AddChunk "s1" [x01] 5 6 Returns)
                 (snd (fst (endSession "s1" Returns Demo.manager1)))))
     = snd (fst (endSession "s1" Returns Demo.manager1))
  /\ setSessionData "s1" "userId" (JString "u") (snd (fst (endSession "s1" Returns Demo.manager1)))
     = Some (false, snd (fst (endSession "s1" Returns Demo.manager1)))
  /\ getSessionData "s1" "userId" (snd (fst (endSession "s1" Returns Demo.manager1)))
     = Own JUndefined.
Proof.
  apply (operations_after_endSession Demo.manager1 "s1" Returns
           (AddChunk "s1" [x01] 5 6 Returns) "userId" (JString "u")); reflexivity.
Defined.

Lemma call_frame (c : Call) (m : SessionManager) (id : string) :
  target c <> id ->
  let m' := snd (fst (call c m)) in
  sessions m' !! id = sessions m !! id
  /\ lastActivity m' !! id = lastActivity m !! id
  /\ config m' = config m
  /\ callbacks m' = callbacks m.
Proof.
  intros Hne m'. subst m'.
  destruct c as [id' hdr now1 now2 oc | id' hdr now | id' chunk now1 now2 oc | id' | id' now | id' oc];
    cbn [target call] in *.
  - unfold createSession, set_sessions. cbn [callbacks].
    destruct (onCreate (callbacks m)); [destruct oc|];
      cbn [fst snd sessions lastActivity config callbacks];
      rewrite !lookup_insert_ne by exact Hne; auto.
  - unfold setHeader, set_sessions.
    destruct (sessions m !! id'); cbn [fst snd sessions lastActivity config callbacks];
      rewrite ?lookup_insert_ne by exact Hne; auto.
  - unfold addChunk, set_sessions, notifyLimit.
    destruct (sessions m !! id'); [|cbn; auto].
    repeat match goal with
           | |- context [if ?b then _ else _] => destruct b
           end;
      cbn [fst snd sessions lastActivity config callbacks];
      rewrite ?lookup_insert_ne by exact Hne; auto.
  - cbn. auto.
  - cbn. auto.
  - unfold endSession, set_sessions. cbn [callbacks].
    destruct (sessions m !! id'); [|cbn; auto].
    destruct (onEnd (callbacks m)); [destruct oc|];
      cbn [fst snd sessions lastActivity config callbacks];
      rewrite !lookup_delete_ne by exact Hne; auto.
Qed.

(** X7.  A call about one session id leaves every other id as it was: its
    session, whether it exists, and its last activity; and no call changes
    the limits or the callbacks. *)
Theorem call_other_session (c : Call) (m : SessionManager) (id : string) :
  target c <> id ->
  let m' := snd (fst (call c m)) in
  sessions m' !! id = sessions m !! id
  /\ lastActivity m' !! id = lastActivity m !! id
  /\ config m' = config m
  /\ callbacks m' = callbacks m.
Proof. apply call_frame. Qed.

Lemma call_other_session_witness :
  sessions (snd (fst (call (EndSession "s2" Returns) Demo.manager1))) !! "s1"%string
  = sessions Demo.manager1 !! "s1"%string
  /\ lastActivity (snd (fst (call (EndSession "s2" Returns) Demo.manager1))) !! "s1"%string
     = lastActivity Demo.manager1 !! "s1"%string
  /\ config (snd (fst (call (EndSession "s2" Returns) Demo.manager1))) = config Demo.manager1
  /\ callbacks (snd (fst (call (EndSession "s2" Returns) Demo.manager1)))
     = callbacks Demo.manager1.
Proof.
  apply (call_other_session (EndSession "s2" Returns) Demo.manager1 "s1"). discriminate.
Defined.

End SessionNotFound.

(** ** The session manager: what the buffered audio is *)

Section SessionAudio.
Import Pcm Session SessionMore.


(** An answer of true tells that the session existed and that all three
    quotas held. *)
Lemma addChunk_true (m : SessionManager) (id : string) (chunk : Buffer)
    (now1 now2 : Z) (oc : Outcome) :
  fst (fst (addChunk id chunk now1 now2 oc m)) = Ret true ->
  exists session,
    sessions m !! id = Some session
    /\ totalBytes session + Z.of_nat (length chunk) <= maxBytes (config m)
    /\ now1 - startTime session <= maxDurationMs (config m)
    /\ Z.of_nat (length (dataChunks session)) < maxChunks (config m)
    /\ addChunk id chunk now1 now2 oc m
       = (Ret true,
          mkManager
            (<[id := mkSession (sessionId session) (dataChunks session ++ [chunk])
                       (startTime session)
                       (totalBytes session + Z.of_nat (length chunk))
                       (header session) (extra session)]> (sessions m))
            (<[id := now2]> (lastActivity m)) (config m) (callbacks m),
          []).
Proof.
  unfold addChunk. destruct (sessions m !! id) as [session|]; [|discriminate].
  destruct (Z.ltb_spec (maxBytes (config m)) (totalBytes session + Z.of_nat (length chunk))).
  { unfold notifyLimit. destruct (onLimitExceeded _), oc; discriminate. }
  destruct (Z.ltb_spec (maxDurationMs (config m)) (now1 - startTime session)).
  { unfold notifyLimit. destruct (onLimitExceeded _), oc; discriminate. }
  destruct (Z.leb_spec (maxChunks (config m)) (Z.of_nat (length (dataChunks session)))).
  { unfold notifyLimit. destruct (onLimitExceeded _), oc; discriminate. }
  intros _. exists session. auto.
Qed.

(** X8.  [addChunk] answers true only for a session that exists and on
    which the byte quota, the duration quota and the chunk-count quota all
    hold at the call; it has then appended exactly this chunk. *)
Theorem addChunk_true_only_within_quotas (m : SessionManager) (id : string)
    (chunk : Buffer) (now1 now2 : Z) (oc : Outcome) :
  fst (fst (addChunk id chunk now1 now2 oc m)) = Ret true ->
  exists session,
    sessions m !! id = Some session
    /\ totalBytes session + Z.of_nat (length chunk) <= maxBytes (config m)
    /\ now1 - startTime session <= maxDurationMs (config m)
    /\ Z.of_nat (length (dataChunks session)) < maxChunks (config m)
    /\ (dataChunks <$> sessions (snd (fst (addChunk id chunk now1 now2 oc m))) !! id)
       = Some (dataChunks session ++ [chunk]).
Proof.
  intros H. destruct (addChunk_true m id chunk now1 now2 oc H)
    as (session & Hs & H1 & H2 & H3 & Heq).
  exists session. rewrite Heq. cbn [fst snd sessions].
  rewrite lookup_insert_eq. auto.
Qed.

Lemma addChunk_true_only_within_quotas_witness :
  exists session,
    sessions Demo.manager1 !! "s1"%string = Some session
    /\ totalBytes session + Z.of_nat (length [x01; x02]) <= maxBytes (config Demo.manager1)
    /\ 1500 - startTime session <= maxDurationMs (config Demo.manager1)
    /\ Z.of_nat (length (dataChunks session)) < maxChunks (config Demo.manager1)
    /\ (dataChunks <$> sessions (snd (fst (addChunk "s1" [x01; x02] 1500 1501 Returns
                                             Demo.manager1))) !! "s1"%string)
       = Some (dataChunks session ++ [[x01; x02]]).
Proof.
  apply (addChunk_true_only_within_quotas Demo.manager1 "s1" [x01; x02] 1500 1501 Returns).
  reflexivity.
Defined.

(** The chunk count over a sequence of [addChunk] calls. *)
Lemma run_chunk_count (id : string) (calls : list Call) :
  forall (m : SessionManager) (session : StreamingSession),
    Forall (fun c => is_AddChunk c = true) calls ->
    sessions m !! id = Some session ->
    Z.of_nat (length (dataChunks session)) <= Z.max 0 (maxChunks (config m)) ->
    exists session',
      sessions (snd (run calls m)) !! id = Some session'
      /\ Z.of_nat (length (dataChunks session')) <= Z.max 0 (maxChunks (config m)).
Proof.
  induction calls as [|c calls IH]; intros m session Hall Hs Hn.
  - exists session. auto.
  - inversion Hall as [|? ? Hc Hrest]; subst.
    destruct c as [| |id' chunk now1 now2 oc| | |]; try discriminate Hc.
    cbn [run call].
    pose proof (addChunk_session m id id' session chunk now1 now2 oc Hs) as Hstep.
    cbn zeta in Hstep.
    pose proof (addChunk_true m id' chunk now1 now2 oc) as Htrue.
    destruct (addChunk id' chunk now1 now2 oc m) as [[r m1] ev] eqn:Ea.
    cbn [fst snd] in Hstep, Htrue. destruct Hstep as [Hcfg Hstep].
    assert (Hnext : exists s1, sessions m1 !! id = Some s1
                      /\ Z.of_nat (length (dataChunks s1)) <= Z.max 0 (maxChunks (config m1))).
    { rewrite Hcfg. destruct Hstep as [(Hr & Hid & _ & Hs1) | (_ & Hs1)].
      - eexists. split; [exact Hs1|]. cbn [dataChunks].
        destruct (Htrue Hr) as (s0 & Hs0 & _ & _ & Hcount & _).
        subst id'. rewrite Hs in Hs0. inversion Hs0; subst s0.
        rewrite length_app. cbn [length]. lia.
      - exists session. auto. }
    destruct Hnext as (s1 & Hs1 & Hn1).
    destruct (IH m1 s1 Hrest Hs1 Hn1) as (s' & Hs' & Hn').
    destruct (run calls m1) as [rs m2]. cbn [fst snd] in *.
    exists s'. rewrite <- Hcfg. auto.
Qed.

(** X9.  From a fresh session on, whatever [addChunk] calls are made, the
    session never holds more chunks than [maxChunks] (none when the limit
    is negative). *)
Theorem addChunk_chunk_count_bounded (m0 : SessionManager) (id : string)
    (hdr : option PcmHeader) (now1 now2 : Z) (oc : Outcome) (calls : list Call) :
  Forall (fun c => is_AddChunk c = true) calls ->
  let created := snd (fst (createSession id hdr now1 now2 oc m0)) in
  exists session,
    sessions (snd (run calls created)) !! id = Some session
    /\ Z.of_nat (length (dataChunks session)) <= Z.max 0 (maxChunks (config m0)).
Proof.
  intros Hall created.
  destruct (createSession_inserts m0 id hdr now1 now2 oc) as (Hs & _ & Hcfg & _).
  fold created in Hs, Hcfg.
  destruct (run_chunk_count id calls created _ Hall Hs) as (session & Hs' & Hn).
  { cbn [dataChunks length]. lia. }
  exists session. rewrite <- Hcfg. auto.
Qed.

Lemma addChunk_chunk_count_bounded_witness :
  exists session,
    sessions (snd (run [AddChunk "s1" [x01] 1500 1501 Returns;
                        AddChunk "s1" [x02] 1600 1601 Returns;
                        AddChunk "s1" [x03] 1700 1701 Returns]
                     Demo.manager1)) !! "s1"%string = Some session
    /\ Z.of_nat (length (dataChunks session)) <= Z.max 0 2.
Proof.
  apply (addChunk_chunk_count_bounded Demo.manager0 "s1" None 1000 1001 Returns
           [AddChunk "s1" [x01] 1500 1501 Returns;
            AddChunk "s1" [x02] 1600 1601 Returns;
            AddChunk "s1" [x03] 1700 1701 Returns]).
  repeat constructor.
Defined.

(** What a call that neither creates nor ends session [id] leaves of it. *)
Lemma call_keeps (c : Call) (m : SessionManager) (id : string)
    (session : StreamingSession) :
  sessions m !! id = Some session ->
  (is_CreateSession c || is_EndSession c) && String.eqb (target c) id = false ->
  exists session',
    sessions (snd (fst (call c m))) !! id = Some session'
    /\ sessionId session' = sessionId session
    /\ startTime session' = startTime session
    /\ extra session' = extra session
    /\ dataChunks session `prefix_of` dataChunks session'
    /\ totalBytes session <= totalBytes session'.
Proof.
  intros Hs Hk.
  destruct (String.eqb_spec (target c) id) as [Heq|Hne].
  2:{ exists session. destruct (call_frame c m id Hne) as (H1 & _). rewrite H1.
      repeat split; auto; lia. }
  rewrite andb_true_r in Hk.
  destruct c as [id' hdr now1 now2 oc | id' hdr now | id' chunk now1 now2 oc | id' | id' now | id' oc];
    cbn [target is_CreateSession is_EndSession orb] in *; try discriminate Hk; subst id';
    cbn [call].
  - unfold setHeader. rewrite Hs. unfold set_sessions. cbn [fst snd sessions].
    rewrite lookup_insert_eq. eexists. split; [reflexivity|]. cbn.
    repeat split; auto; lia.
  - pose proof (addChunk_session m id id session chunk now1 now2 oc Hs) as Hstep.
    cbn zeta in Hstep.
    destruct (addChunk id chunk now1 now2 oc m) as [[r m1] ev].
    cbn [fst snd] in *. destruct Hstep as [_ [(_ & _ & _ & Hs1) | (_ & Hs1)]].
    + eexists. split; [exact Hs1|]. cbn.
      repeat split; auto; [apply prefix_app_r; reflexivity|lia].
    + exists session. repeat split; auto; lia.
  - cbn [fst snd]. exists session. repeat split; auto; lia.
  - cbn [fst snd]. exists session. repeat split; auto; lia.
Qed.

Lemma run_keeps (id : string) (calls : list Call) :
  forall (m : SessionManager) (session : StreamingSession),
    sessions m !! id = Some session ->
    Forall (fun c => (is_CreateSession c || is_EndSession c)
                     && String.eqb (target c) id = false) calls ->
    exists session',
      sessions (snd (run calls m)) !! id = Some session'
      /\ sessionId session' = sessionId session
      /\ startTime session' = startTime session
      /\ extra session' = extra session
      /\ dataChunks session `prefix_of` dataChunks session'
      /\ totalBytes session <= totalBytes session'.
Proof.
  induction calls as [|c calls IH]; intros m session Hs Hall.
  - exists session. repeat split; auto; lia.
  - inversion Hall as [|? ? Hc Hrest]; subst.
    destruct (call_keeps c m id session Hs Hc) as (s1 & Hs1 & A1 & A2 & A3 & A4 & A5).
    cbn [run]. destruct (call c m) as [[r m1] ev]. cbn [fst snd] in *.
    destruct (IH m1 s1 Hs1 Hrest) as (s2 & Hs2 & B1 & B2 & B3 & B4 & B5).
    destruct (run calls m1) as [rs m2]. cbn [fst snd] in *.
    exists s2. repeat split; try congruence; [etrans; eassumption|lia].
Qed.

(** X10.  Over any sequence of [createSession], [setHeader], [addChunk],
    [getAudioData], [getStats] and [endSession] calls, on any session
    ids, in which no [createSession] and no [endSession] is for a given
    session, that session stays, its chunk sequence only grows at the end
    (what was buffered stays, in place and order), [totalBytes] never
    decreases, and its id, creation time and sidecar properties do not
    change.  [setSessionData], which writes any property of the session,
    is not among these calls. *)
Theorem chunks_append_only (id : string) (calls : list Call) (m : SessionManager)
    (session : StreamingSession) :
  sessions m !! id = Some session ->
  Forall (fun c => (is_CreateSession c || is_EndSession c)
                   && String.eqb (target c) id = false) calls ->
  exists session',
    sessions (snd (run calls m)) !! id = Some session'
    /\ sessionId session' = sessionId session
    /\ startTime session' = startTime session
    /\ extra session' = extra session
    /\ dataChunks session `prefix_of` dataChunks session'
    /\ totalBytes session <= totalBytes session'.
Proof. apply run_keeps. Qed.

Lemma chunks_append_only_witness :
  exists session',
    sessions (snd (run [AddChunk "s1" [x01] 1500 1501 Returns;
                        SetHeader "s1" (mkPcmHeader "PCM1" 16000 1 16 320 0) 1600;
                        EndSession "s2" Returns;
                        AddChunk "s1" [x02] 1700 1701 Returns]
                     Demo.manager1)) !! "s1"%string = Some session'
    /\ sessionId session' = sessionId Demo.session1
    /\ startTime session' = startTime Demo.session1
    /\ extra session' = extra Demo.session1
    /\ dataChunks Demo.session1 `prefix_of` dataChunks session'
    /\ totalBytes Demo.session1 <= totalBytes session'.
Proof.
  apply (chunks_append_only "s1"
           [AddChunk "s1" [x01] 1500 1501 Returns;
            SetHeader "s1" (mkPcmHeader "PCM1" 16000 1 16 320 0) 1600;
            EndSession "s2" Returns;
            AddChunk "s1" [x02] 1700 1701 Returns] Demo.manager1 Demo.session1).
  - reflexivity.
  - repeat constructor.
Defined.

Lemma addChunk_calls_keep (id : string) (calls : list Call) :
  Forall (fun c => is_AddChunk c = true) calls ->
  Forall (fun c => (is_CreateSession c || is_EndSession c)
                   && String.eqb (target c) id = false) calls.
Proof.
  intros H. eapply Forall_impl; [exact H|].
  intros c Hc. destruct c; try discriminate Hc. reflexivity.
Qed.

Lemma length_concat_chunks (chunks : list Buffer) :
  Z.of_nat (length (concat chunks)) = total_length chunks.
Proof.
  unfold total_length.
  induction chunks as [|c chunks IH]; cbn [concat fold_right]; [reflexivity|].
  rewrite length_app. lia.
Qed.

(** X11.  From a fresh session on, after any sequence of [addChunk] calls,
    [getAudioData] answers null if no chunk was admitted, and otherwise the
    admitted chunks joined in call order, [totalBytes] bytes in all;
    [getStats] reports this [totalBytes], the number of admitted chunks,
    and the time since creation. *)
Theorem getAudioData_after_addChunks (m0 : SessionManager) (id : string)
    (hdr : option PcmHeader) (now1 now2 : Z) (oc : Outcome) (calls : list Call)
    (now : Z) :
  Forall (fun c => is_AddChunk c = true) calls ->
  let created := snd (fst (createSession id hdr now1 now2 oc m0)) in
  let r := run calls created in
  let chunks := admitted id calls (fst r) in
  getAudioData id (snd r) = (if decide (chunks = []) then None else Some (concat chunks))
  /\ exists session stats,
       sessions (snd r) !! id = Some session
       /\ totalBytes session = Z.of_nat (length (concat chunks))
       /\ getStats id now (snd r) = Some stats
       /\ stat_totalBytes stats = Z.of_nat (length (concat chunks))
       /\ chunkCount stats = Z.of_nat (length chunks)
       /\ duration stats = now - now1.
Proof.
  intros Hall created r chunks.
  destruct (createSession_inserts m0 id hdr now1 now2 oc) as (Hs & _ & Hcfg & _).
  fold created in Hs, Hcfg.
  destruct (run_addChunks id calls created _ Hall Hs)
    as (session & Hs' & _ & Hchunks & Htot & _).
  fold r in Hs', Hchunks, Htot. fold chunks in Hchunks, Htot.
  cbn [dataChunks totalBytes app] in *.
  assert (Hstart : startTime session = now1).
  { destruct (run_keeps id calls created _ Hs (addChunk_calls_keep id calls Hall))
      as (s' & Hs'' & _ & Hst & _).
    fold r in Hs''. rewrite Hs' in Hs''. inversion Hs''; subst s'. exact Hst. }
  split.
  - unfold getAudioData. rewrite Hs', Hchunks.
    destruct chunks as [|c cs]; [reflexivity|]. cbn [length Nat.eqb].
    destruct (decide (c :: cs = [])); [discriminate|reflexivity].
  - unfold getStats. rewrite Hs'. exists session. eexists.
    split; [reflexivity|]. rewrite length_concat_chunks.
    split; [rewrite Htot; lia|]. split; [reflexivity|].
    cbn [stat_totalBytes chunkCount duration]. rewrite Hchunks, Hstart, Htot.
    repeat split; lia.
Qed.

Lemma getAudioData_after_addChunks_witness :
  getAudioData "s1"
    (snd (run [AddChunk "s1" [x01; x02] 1500 1501 Returns;
               AddChunk "s1" (List.repeat x00 11) 1600 1601 Returns;
               AddChunk "s1" [x03] 1700 1701 Returns] Demo.manager1))
  = Some [x01; x02; x03].
Proof.
  destruct (getAudioData_after_addChunks Demo.manager0 "s1" None 1000 1001 Returns
              [AddChunk "s1" [x01; x02] 1500 1501 Returns;
               AddChunk "s1" (List.repeat x00 11) 1600 1601 Returns;
               AddChunk "s1" [x03] 1700 1701 Returns] 2000) as [H _].
  - repeat constructor.
  - exact H.
Defined.

End SessionAudio.

(** ** The session manager: headers, sidecar properties, tables *)

Section SessionTables.
Import Pcm Session SessionMore.

(** X12.  [setHeader] is last-write-wins: setting a header and then another
    leaves the manager as setting the second alone does, with the same
    answer; this holds whether or not the session exists. *)
Theorem setHeader_last_write_wins (m : SessionManager) (id : string)
    (h1 h2 : PcmHeader) (t1 t2 : Z) :
  setHeader id h2 t2 (snd (setHeader id h1 t1 m)) = setHeader id h2 t2 m.
Proof.
  unfold setHeader. destruct (sessions m !! id) as [session|] eqn:Hs.
  - unfold set_sessions. cbn [snd sessions lastActivity config callbacks].
    rewrite lookup_insert_eq. cbn [sessionId dataChunks startTime totalBytes extra].
    rewrite !insert_insert_eq. reflexivity.
  - cbn [snd]. rewrite Hs. reflexivity.
Qed.

Lemma property_assign (session session' : StreamingSession) (key key' : string)
    (value : JsValue) :
  key ∉ field_names ->
  key <> "__proto__"%string ->
  assign session key value = Some session' ->
  property session' key = Own value
  /\ (key' <> key -> property session' key' = property session key').
Proof.
  intros Hk Hp. unfold field_names in Hk.
  rewrite !not_elem_of_cons in Hk. destruct Hk as (K1 & K2 & K3 & K4 & K5 & _).
  destruct session as [sid chunks start total hdr ext]. unfold assign.
  rewrite (proj2 (String.eqb_neq _ _) K1), (proj2 (String.eqb_neq _ _) K2),
    (proj2 (String.eqb_neq _ _) K3), (proj2 (String.eqb_neq _ _) K4),
    (proj2 (String.eqb_neq _ _) K5), (proj2 (String.eqb_neq _ _) Hp).
  intros H. inversion H; subst session'. unfold property. cbn.
  rewrite (proj2 (String.eqb_neq _ _) K1), (proj2 (String.eqb_neq _ _) K2),
    (proj2 (String.eqb_neq _ _) K3), (proj2 (String.eqb_neq _ _) K4),
    (proj2 (String.eqb_neq _ _) K5).
  rewrite lookup_insert_eq. split; [reflexivity|].
  intros Hne. rewrite lookup_insert_ne by congruence. reflexivity.
Qed.

(** X13.  On an existing session, for a key that is neither the name of a
    declared field nor [__proto__], [getSessionData] after [setSessionData]
    answers the value that was set; every other key of the session, and
    every key of every other session, reads as before. *)
Theorem getSessionData_after_set (m : SessionManager) (id key : string)
    (session : StreamingSession) (value : JsValue) :
  sessions m !! id = Some session ->
  key ∉ field_names ->
  key <> "__proto__"%string ->
  exists m',
    setSessionData id key value m = Some (true, m')
    /\ getSessionData id key m' = Own value
    /\ (forall key', key' <> key -> getSessionData id key' m' = getSessionData id key' m)
    /\ (forall id' key', id' <> id -> getSessionData id' key' m' = getSessionData id' key' m).
Proof.
  intros Hs Hk Hp.
  destruct (assign_sidecar session key value Hk) as (session' & Ha & _).
  { unfold replaces_prototype. rewrite (proj2 (String.eqb_neq _ _) Hp). reflexivity. }
  unfold setSessionData. rewrite Hs, Ha. eexists. split; [reflexivity|].
  unfold getSessionData, set_sessions. cbn [sessions].
  rewrite lookup_insert_eq, Hs.
  split; [apply (proj1 (property_assign session session' key key value Hk Hp Ha))|].
  split.
  - intros key' Hne. apply (proj2 (property_assign session session' key key' value Hk Hp Ha) Hne).
  - intros id' key' Hne. rewrite lookup_insert_ne by congruence. reflexivity.
Qed.

Lemma getSessionData_after_set_witness :
  exists m',
    setSessionData "s1" "userId" (JString "user-456") Demo.manager1 = Some (true, m')
    /\ getSessionData "s1" "userId" m' = Own (JString "user-456")
    /\ (forall key', key' <> "userId"%string ->
                     getSessionData "s1" key' m' = getSessionData "s1" key' Demo.manager1)
    /\ (forall id' key', id' <> "s1"%string ->
                         getSessionData id' key' m' = getSessionData id' key' Demo.manager1).
Proof.
  apply (getSessionData_after_set Demo.manager1 "s1" "userId" Demo.session1
           (JString "user-456")).
  - reflexivity.
  - unfold field_names. rewrite !not_elem_of_cons. repeat split; try discriminate.
    apply not_elem_of_nil.
  - discriminate.
Defined.

Lemma call_dom (c : Call) (m : SessionManager) :
  dom (sessions m) = dom (lastActivity m) ->
  dom (sessions (snd (fst (call c m)))) = dom (lastActivity (snd (fst (call c m)))).
Proof.
  intros H.
  destruct c as [id hdr now1 now2 oc | id hdr now | id chunk now1 now2 oc | id | id now | id oc];
    cbn [call].
  - unfold createSession, set_sessions. cbn [callbacks].
    destruct (onCreate (callbacks m)); [destruct oc|];
      cbn [fst snd sessions lastActivity]; rewrite !dom_insert_L, H; reflexivity.
  - unfold setHeader, set_sessions.
    destruct (sessions m !! id); cbn [fst snd sessions lastActivity];
      rewrite ?dom_insert_L, ?H; reflexivity.
  - unfold addChunk, set_sessions, notifyLimit.
    destruct (sessions m !! id); [|exact H].
    repeat match goal with
           | |- context [if ?b then _ else _] => destruct b
           end;
      cbn [fst snd sessions lastActivity]; rewrite ?dom_insert_L, ?H; reflexivity.
  - exact H.
  - exact H.
  - unfold endSession, set_sessions. cbn [callbacks].
    destruct (sessions m !! id); [|exact H].
    destruct (onEnd (callbacks m)); [destruct oc|];
      cbn [fst snd sessions lastActivity]; rewrite !dom_delete_L, H; reflexivity.
Qed.

Lemma run_dom (calls : list Call) :
  forall m, dom (sessions m) = dom (lastActivity m) ->
            dom (sessions (snd (run calls m))) = dom (lastActivity (snd (run calls m))).
Proof.
  induction calls as [|c calls IH]; intros m H; [exact H|].
  cbn [run]. pose proof (call_dom c m H) as H1.
  destruct (call c m) as [[r m1] ev]. cbn [fst snd] in H1.
  specialize (IH m1 H1). destruct (run calls m1) as [rs m2]. exact IH.
Qed.

(** X14.  In every manager reached from a new one by any sequence of
    calls, the session table and the last-activity table have the same
    keys: no session without a last activity, no last activity without a
    session. *)
Theorem tables_have_same_keys (maxBytes' maxDurationMs' maxChunks' idleTimeoutMs' : option Z)
    (cbs : SessionCallbacks) (calls : list Call) (id : string) :
  let m := snd (run calls (new maxBytes' maxDurationMs' maxChunks' idleTimeoutMs' cbs)) in
  is_Some (sessions m !! id) <-> is_Some (lastActivity m !! id).
Proof.
  intros m. rewrite <- !elem_of_dom. subst m.
  rewrite run_dom; [reflexivity|]. cbn. rewrite !dom_empty_L. reflexivity.
Qed.

(** X15.  [createSession] adds one to the session count when the id is
    new and leaves the count when the id exists (the session is replaced);
    [endSession] takes one off when the session exists and leaves the
    count otherwise. *)
Theorem getSessionCount_create_end (m : SessionManager) (id : string)
    (hdr : option PcmHeader) (now1 now2 : Z) (oc : Outcome) :
  getSessionCount (snd (fst (createSession id hdr now1 now2 oc m)))
  = match sessions m !! id with
    | Some _ => getSessionCount m
    | None => S (getSessionCount m)
    end
  /\ getSessionCount (snd (fst (endSession id oc m)))
     = match sessions m !! id with
       | Some _ => Nat.pred (getSessionCount m)
       | None => getSessionCount m
       end.
Proof.
  unfold getSessionCount. split.
  - unfold createSession, set_sessions. cbn [callbacks].
    destruct (sessions m !! id) as [s|] eqn:Hs.
    + destruct (onCreate (callbacks m)); [destruct oc|]; cbn [fst snd sessions];
        apply map_size_insert_Some; eauto.
    + destruct (onCreate (callbacks m)); [destruct oc|]; cbn [fst snd sessions];
        apply map_size_insert_None; exact Hs.
  - unfold endSession, set_sessions. cbn [callbacks].
    destruct (sessions m !! id) as [s|] eqn:Hs; [|reflexivity].
    destruct (onEnd (callbacks m)); [destruct oc|]; cbn [fst snd sessions];
      rewrite map_size_delete, Hs; reflexivity.
Qed.

End SessionTables.

(** ** The session manager: [clearAll] and the idle sweep *)

Section SessionSweeps.
Import Pcm Session SessionMore.










Lemma checkIdleSessions_loop_spec (ids : list string) (now : Z) (oc : string -> Outcome)
    (m : SessionManager) :
  (forall id, id ∈ ids -> oc id <> ThrowsSync) ->
  fst (fst (checkIdleSessions_loop ids now oc m)) = Ret tt
  /\ (forall s, CallOnIdle s ∉ snd (checkIdleSessions_loop ids now oc m))
  /\ (forall s,
        CallOnIdle s ∈ snd (fst (checkIdleSessions_loop ids now oc m))
        <-> onIdle (callbacks m) = true
            /\ exists id t,
                 id ∈ ids /\ lastActivity m !! id = Some t
                 /\ idleTimeoutMs (config m) < now - t
                 /\ sessions m !! id = Some s).
Proof.
  induction ids as [|id ids IH]; intros Hok.
  - cbn [checkIdleSessions_loop fst snd]. split; [reflexivity|]. split.
    + intros s. apply not_elem_of_nil.
    + intros s. split.
      * intros H. inversion H.
      * intros (_ & id & t & H & _). inversion H.
  - destruct IH as (IH1 & IH2 & IH3).
    { intros id' Hid'. apply Hok. apply list_elem_of_further, Hid'. }
    assert (Hskip : forall s,
               (onIdle (callbacks m) = true
                /\ exists id0 t, id0 ∈ ids /\ lastActivity m !! id0 = Some t
                                 /\ idleTimeoutMs (config m) < now - t
                                 /\ sessions m !! id0 = Some s)
               -> onIdle (callbacks m) = true
                  /\ exists id0 t, id0 ∈ id :: ids /\ lastActivity m !! id0 = Some t
                                   /\ idleTimeoutMs (config m) < now - t
                                   /\ sessions m !! id0 = Some s).
    { intros s (Hc & id0 & t & Hin & Hrest). split; [exact Hc|].
      exists id0, t. split; [apply list_elem_of_further, Hin|exact Hrest]. }
    assert (Hnone : (forall s t, lastActivity m !! id = Some t ->
                                 idleTimeoutMs (config m) < now - t ->
                                 sessions m !! id = Some s ->
                                 onIdle (callbacks m) = true -> False) ->
                    forall s,
                      (onIdle (callbacks m) = true
                       /\ exists id0 t, id0 ∈ id :: ids /\ lastActivity m !! id0 = Some t
                                        /\ idleTimeoutMs (config m) < now - t
                                        /\ sessions m !! id0 = Some s)
                      -> onIdle (callbacks m) = true
                         /\ exists id0 t, id0 ∈ ids /\ lastActivity m !! id0 = Some t
                                          /\ idleTimeoutMs (config m) < now - t
                                          /\ sessions m !! id0 = Some s).
    { intros Hno s (Hc & id0 & t & Hin & Hl & Ht & Hs). split; [exact Hc|].
      apply elem_of_cons in Hin. destruct Hin as [->|Hin].
      - exfalso. eapply Hno; eassumption.
      - exists id0, t. auto. }
    cbn [checkIdleSessions_loop].
    destruct (lastActivity m !! id) as [t|] eqn:Hl.
    2:{ split; [exact IH1|]. split; [exact IH2|]. intros s. rewrite IH3.
        split; [apply Hskip|apply Hnone]. intros ? ? H. discriminate H. }
    destruct (Z.ltb_spec (idleTimeoutMs (config m)) (now - t)) as [Hidle|Hidle].
    2:{ split; [exact IH1|]. split; [exact IH2|]. intros s. rewrite IH3.
        split; [apply Hskip|apply Hnone]. intros ? t' H. inversion H; subst. lia. }
    destruct (sessions m !! id) as [session|] eqn:Hs.
    2:{ split; [exact IH1|]. split; [exact IH2|]. intros s. rewrite IH3.
        split; [apply Hskip|apply Hnone]. intros ? ? _ _ H. discriminate H. }
    destruct (onIdle (callbacks m)) eqn:Hcb.
    2:{ split; [exact IH1|]. split; [exact IH2|]. intros s. rewrite IH3.
        split; [apply Hskip|apply Hnone]. intros ? ? _ _ _ H. discriminate H. }
    pose proof (Hok id (list_elem_of_here _ _)) as Hoc.
    destruct (checkIdleSessions_loop ids now oc m) as [[r ev] later].
    cbn [fst snd] in *.
    assert (Hhere : forall s,
               CallOnIdle s ∈ CallOnIdle session :: ev
               <-> true = true
                   /\ exists id0 t0, id0 ∈ id :: ids /\ lastActivity m !! id0 = Some t0
                                     /\ idleTimeoutMs (config m) < now - t0
                                     /\ sessions m !! id0 = Some s).
    { intros s. rewrite elem_of_cons, IH3. split.
      - intros [H | H].
        + inversion H; subst. split; [reflexivity|]. exists id, t.
          split; [apply list_elem_of_here|auto].
        + apply Hskip, H.
      - intros (_ & id0 & t0 & Hin & Hl0 & Ht0 & Hs0).
        apply elem_of_cons in Hin. destruct Hin as [->|Hin].
        + left. congruence.
        + right. split; [reflexivity|]. exists id0, t0. auto. }
    destruct (oc id); [|contradiction|]; cbn [fst snd].
    + split; [exact IH1|]. split; [exact IH2|]. exact Hhere.
    + split; [exact IH1|]. split; [|exact Hhere].
      intros s H. apply elem_of_cons in H. destruct H as [H|H]; [discriminate H|].
      exact (IH2 s H).
Qed.

(** X18.  When the idle callback does not throw, the idle sweep goes through
    all the ids it is given and calls [onIdle] with exactly the sessions
    whose last activity lies more than [idleTimeoutMs] before the clock
    reading, provided the callback is injected; a session idle for exactly
    the timeout is not notified. *)
Theorem checkIdleSessions_notifies (ids : list string) (now : Z) (oc : string -> Outcome)
    (m : SessionManager) (s : StreamingSession) :
  (forall id, id ∈ ids -> oc id <> ThrowsSync) ->
  fst (checkIdleSessions ids now oc m) = Ret tt
  /\ (CallOnIdle s ∈ snd (checkIdleSessions ids now oc m)
      <-> onIdle (callbacks m) = true
          /\ exists id t,
               id ∈ ids /\ lastActivity m !! id = Some t
               /\ idleTimeoutMs (config m) < now - t
               /\ sessions m !! id = Some s).
Proof.
  intros Hok. destruct (checkIdleSessions_loop_spec ids now oc m Hok) as (H1 & H2 & H3).
  unfold checkIdleSessions.
  destruct (checkIdleSessions_loop ids now oc m) as [[r ev] later]. cbn [fst snd] in *.
  split; [exact H1|]. rewrite elem_of_app, <- H3. split; [|auto].
  intros [H|H]; [exact H|]. exfalso. exact (H2 s H).
Qed.

Lemma checkIdleSessions_notifies_witness :
  fst (checkIdleSessions ["s1"%string] 7000 (fun _ => Returns) Demo.manager1) = Ret tt
  /\ (CallOnIdle Demo.session1
        ∈ snd (checkIdleSessions ["s1"%string] 7000 (fun _ => Returns) Demo.manager1)
      <-> onIdle (callbacks Demo.manager1) = true
          /\ exists id t,
               id ∈ ["s1"%string] /\ lastActivity Demo.manager1 !! id = Some t
               /\ idleTimeoutMs (config Demo.manager1) < 7000 - t
               /\ sessions Demo.manager1 !! id = Some Demo.session1).
Proof.
  apply (checkIdleSessions_notifies ["s1"%string] 7000 (fun _ => Returns) Demo.manager1
           Demo.session1).
  intros id _. discriminate.
Defined.

End SessionSweeps.

(** ** The frame classifier over arbitrary frame sequences *)

Section WsProtocol.
Import Pcm Ws.

(** What one frame can do, whatever the frame, the state and the handler:
    nothing is observed because no handler is injected; or the frame is
    dropped with a warning; or exactly one message is delivered, followed
    by the error report if the handler fails. *)
Lemma handleMessage_cases (handlers : WebSocketHandlers) (session : SessionInfo)
    (data : RawData) (oc : Outcome) :
  let session' := fst (handleMessage handlers session data oc) in
  let eff := snd (handleMessage handlers session data oc) in
  sessionId session' = sessionId session
  /\ isAlive session' = isAlive session
  /\ ((onMessage handlers = false /\ eff = [])
      \/ (header session = None /\ session' = session
          /\ eff = [WarnDataBeforeHeader (sessionId session)])
      \/ (onMessage handlers = true
          /\ exists message,
               eff = OnMessage (sessionId session) message
                     :: match oc with
                        | Returns => []
                        | _ => [ErrorProcessingMessage; SendJsonError]
                        end
               /\ match message with
                  | MsgText _ => session' = session
                  | MsgHeader _ h => header session = None /\ header session' = Some h
                  | MsgAudio _ => header session <> None /\ session' = session
                  | MsgEnd => header session'
                              = match oc with Returns => None | _ => header session end
                  end)).
Proof.
  unfold handleMessage, handleMessage_try.
  destruct data as [data | message].
  - destruct (is_null (header session) && (16 <=? length data)%nat
              && utf8_equals (take 4 data) "PCM1") eqn:Hhdr.
    + apply andb_true_iff in Hhdr. destruct Hhdr as [Hhdr Hmagic].
      apply andb_true_iff in Hhdr. destruct Hhdr as [Hnull Hlen].
      apply Nat.leb_le in Hlen.
      assert (Hnone : header session = None)
        by (destruct (header session); [discriminate Hnull|reflexivity]).
      destruct (sixteen_or_less data) as [Hshort | Hlong]; [lia|].
      destruct Hlong as (b0 & b1 & b2 & b3 & b4 & b5 & b6 & b7 & b8 & b9 & b10
                         & b11 & b12 & b13 & b14 & b15 & rest & ->).
      cbn [getUint32LE getUint16LE getUint8 lookup list_lookup Nat.add bindR].
      unfold deliver. destruct (onMessage handlers) eqn:Hon.
      * destruct oc; cbn [fst snd app sessionId isAlive];
          (split; [reflexivity|]; split; [reflexivity|]; right; right;
           split; [reflexivity|]; eexists (MsgHeader _ _);
           split; [reflexivity|]; split; [exact Hnone|reflexivity]).
      * cbn [fst snd sessionId isAlive]. split; [reflexivity|]. split; [reflexivity|].
        left. split; reflexivity.
    + destruct ((length data =? 4)%nat && utf8_equals data END_signal).
      * unfold deliver. destruct (onMessage handlers) eqn:Hon.
        -- destruct oc; cbn [fst snd app sessionId isAlive];
             (split; [reflexivity|]; split; [reflexivity|]; right; right;
              split; [reflexivity|]; exists MsgEnd; split; reflexivity).
        -- cbn [fst snd sessionId isAlive]. split; [reflexivity|]. split; [reflexivity|].
           left. split; reflexivity.
      * destruct (header session) as [h|] eqn:Hh.
        -- unfold deliver. destruct (onMessage handlers) eqn:Hon.
           ++ destruct oc; cbn [fst snd app];
                (split; [reflexivity|]; split; [reflexivity|]; right; right;
                 split; [reflexivity|]; eexists (MsgAudio _);
                 split; [reflexivity|]; split; [discriminate|reflexivity]).
           ++ cbn [fst snd]. split; [reflexivity|]. split; [reflexivity|].
              left. split; reflexivity.
        -- cbn [fst snd]. split; [reflexivity|]. split; [reflexivity|].
           right; left. split; [reflexivity|]. split; reflexivity.
  - unfold deliver. destruct (onMessage handlers) eqn:Hon.
    + destruct oc; cbn [fst snd app];
        (split; [reflexivity|]; split; [reflexivity|]; right; right;
         split; [reflexivity|]; eexists (MsgText _); split; reflexivity).
    + cbn [fst snd]. split; [reflexivity|]. split; [reflexivity|].
      left. split; reflexivity.
Qed.

(** X19.  The error report (the log line and the JSON error reply) is sent
    for a frame exactly when the injected handler was called for it and
    failed, by throwing or by rejecting: reading the stream header never
    raises, and a frame that is dropped or not observed reports nothing. *)
Theorem error_reply_iff_handler_fails (handlers : WebSocketHandlers)
    (session : SessionInfo) (data : RawData) (oc : Outcome) :
  SendJsonError ∈ snd (handleMessage handlers session data oc)
  <-> (exists sid message,
         OnMessage sid message ∈ snd (handleMessage handlers session data oc))
      /\ oc <> Returns.
Proof.
  destruct (handleMessage_cases handlers session data oc) as (_ & _ & H).
  cbv zeta in H.
  destruct H as [(_ & ->) | [(_ & _ & ->) | (_ & message & -> & _)]].
  - split.
    + intros H. inversion H.
    + intros ((sid & message & H) & _). inversion H.
  - split.
    + intros H. apply list_elem_of_singleton in H. discriminate H.
    + intros ((sid & message & H) & _). apply list_elem_of_singleton in H. discriminate H.
  - split.
    + intros H. split.
      * eexists _, _. apply list_elem_of_here.
      * intros ->. apply list_elem_of_singleton in H. discriminate H.
    + intros (_ & Hoc). destruct oc; [contradiction| |];
        rewrite !elem_of_cons; auto.
Qed.

(** Frames keep the session id of the connection. *)
Lemma feed_sessionId (handlers : WebSocketHandlers) (frames : list (RawData * Outcome)) :
  forall session, sessionId (fst (feed handlers session frames)) = sessionId session.
Proof.
  induction frames as [|[data oc] frames IH]; intros session; [reflexivity|].
  cbn [feed].
  destruct (handleMessage_cases handlers session data oc) as (Hid & _).
  cbv zeta in Hid.
  destruct (handleMessage handlers session data oc) as [s1 eff1]. cbn [fst] in Hid.
  specialize (IH s1). destruct (feed handlers s1 frames) as [s2 eff2].
  cbn [fst] in *. congruence.
Qed.

(** Where an effect of the rest of the run lies when it is not among the
    effects of the first frame. *)
Lemma split_after (eff1 rest pre post : list Effect) (e : Effect) :
  eff1 ++ rest = pre ++ e :: post ->
  e ∉ eff1 ->
  exists pre', pre = eff1 ++ pre' /\ rest = pre' ++ e :: post.
Proof.
  revert pre. induction eff1 as [|x eff1 IH]; intros pre H Hnot.
  - exists pre. split; [reflexivity|exact H].
  - destruct pre as [|y pre].
    + cbn in H. inversion H; subst. exfalso. apply Hnot. apply list_elem_of_here.
    + cbn in H. inversion H; subst.
      destruct (IH pre H2) as (pre' & -> & Hrest).
      * intros Hin. apply Hnot. apply list_elem_of_further, Hin.
      * exists pre'. split; [reflexivity|exact Hrest].
Qed.

Lemma feed_unobserved (handlers : WebSocketHandlers) (frames : list (RawData * Outcome)) :
  onMessage handlers = false ->
  forall session sid message, OnMessage sid message ∉ snd (feed handlers session frames).
Proof.
  intros Hoff. induction frames as [|[d o] frames IH]; intros s sid message.
  - apply not_elem_of_nil.
  - cbn [feed].
    destruct (handleMessage_cases handlers s d o) as (_ & _ & Hc). cbv zeta in Hc.
    destruct (handleMessage handlers s d o) as [s1 e1]. cbn [fst snd] in Hc.
    specialize (IH s1 sid message). destruct (feed handlers s1 frames) as [s2 e2].
    cbn [snd] in *. rewrite elem_of_app. intros [H|H]; [|exact (IH H)].
    destruct Hc as [(_ & ->) | [(_ & _ & ->) | (Hon & _)]].
    + inversion H.
    + apply list_elem_of_singleton in H. discriminate H.
    + congruence.
Qed.

Lemma feed_audio_after_header (handlers : WebSocketHandlers)
    (frames : list (RawData * Outcome)) :
  forall (session : SessionInfo) (pre post : list Effect) (sid : string) (data : Buffer),
    header session = None ->
    snd (feed handlers session frames) = pre ++ OnMessage sid (MsgAudio data) :: post ->
    exists hdr h, OnMessage (sessionId session) (MsgHeader hdr h) ∈ pre.
Proof.
  induction frames as [|[data0 oc] frames IH]; intros session pre post sid data Hnone Heff.
  - cbn in Heff. destruct pre; discriminate Heff.
  - cbn [feed] in Heff.
    destruct (handleMessage_cases handlers session data0 oc) as (Hid & _ & Hcases).
    cbv zeta in Hid, Hcases.
    destruct (handleMessage handlers session data0 oc) as [s1 eff1]. cbn [fst snd] in *.
    pose proof (IH s1) as IH1.
    destruct (feed handlers s1 frames) as [s2 eff2] eqn:Hfeed. cbn [fst snd] in *.
    assert (Hkeep : header s1 = None ->
                    (forall sid' d, OnMessage sid' (MsgAudio d) ∉ eff1) ->
                    exists hdr h, OnMessage (sessionId session) (MsgHeader hdr h) ∈ pre).
    { intros Hn Hno.
      destruct (split_after _ _ _ _ _ Heff (Hno sid data)) as (pre' & -> & Hrest).
      destruct (IH1 pre' post sid data Hn Hrest) as (hdr & h & Hin).
      exists hdr, h. rewrite elem_of_app. right. rewrite <- Hid. exact Hin. }
    destruct Hcases as [(Hoff & ->) | [(_ & -> & ->) | (Hon & message & -> & Hmsg)]].
    + exfalso. apply (feed_unobserved handlers frames Hoff s1 sid (MsgAudio data)).
      rewrite Hfeed. cbn [snd]. cbn [app] in Heff. rewrite Heff.
      rewrite elem_of_app. right. apply list_elem_of_here.
    + apply Hkeep; [exact Hnone|].
      intros sid' d H. apply list_elem_of_singleton in H. discriminate H.
    + destruct message as [hdr h | d | | msg].
      * destruct Hmsg as (_ & Hsome).
        destruct (split_after _ _ _ _ _ Heff) as (pre' & -> & _).
        { intros H. destruct oc; rewrite !elem_of_cons in H;
            repeat (destruct H as [H|H]; [discriminate H|]); inversion H. }
        exists hdr, h. rewrite elem_of_app. left. apply list_elem_of_here.
      * destruct Hmsg as (Habs & _). contradiction.
      * apply Hkeep.
        -- rewrite Hmsg. destruct oc; [reflexivity|exact Hnone|exact Hnone].
        -- intros sid' d H. destruct oc; rewrite !elem_of_cons in H;
             repeat (destruct H as [H|H]; [discriminate H|]); inversion H.
      * subst s1. apply Hkeep; [exact Hnone|].
        intros sid' d H. destruct oc; rewrite !elem_of_cons in H;
          repeat (destruct H as [H|H]; [discriminate H|]); inversion H.
Qed.

Lemma feed_delivers_own_id (handlers : WebSocketHandlers)
    (frames : list (RawData * Outcome)) :
  forall session sid message,
    OnMessage sid message ∈ snd (feed handlers session frames) -> sid = sessionId session.
Proof.
  induction frames as [|[d o] frames IH]; intros s sid message H.
  - inversion H.
  - cbn [feed] in H.
    destruct (handleMessage_cases handlers s d o) as (Hid & _ & Hc). cbv zeta in Hid, Hc.
    destruct (handleMessage handlers s d o) as [s1 e1]. cbn [fst snd] in Hid, Hc.
    specialize (IH s1 sid message). destruct (feed handlers s1 frames) as [s2 e2].
    cbn [snd] in *. rewrite elem_of_app in H. destruct H as [H|H]; [|rewrite <- Hid; auto].
    destruct Hc as [(_ & ->) | [(_ & _ & ->) | (_ & m & -> & _)]].
    + inversion H.
    + apply list_elem_of_singleton in H. discriminate H.
    + destruct o; rewrite !elem_of_cons in H;
        repeat (destruct H as [H|H]; [first [congruence | discriminate H]|]); inversion H.
Qed.

(** X20.  On a connection, whatever frames arrive and however the handler
    comes back, an audio message is delivered only after a header message
    has been delivered, and both carry the session id of the connection. *)
Theorem audio_only_after_header (handlers : WebSocketHandlers) (sid sid' : string)
    (frames : list (RawData * Outcome)) (pre post : list Effect) (data : Buffer) :
  snd (feed handlers (handleConnection sid) frames)
  = pre ++ OnMessage sid' (MsgAudio data) :: post ->
  sid' = sid /\ exists hdr h, OnMessage sid (MsgHeader hdr h) ∈ pre.
Proof.
  intros H. split.
  - apply (feed_delivers_own_id handlers frames (handleConnection sid) sid' (MsgAudio data)).
    rewrite H, elem_of_app. right. apply list_elem_of_here.
  - exact (feed_audio_after_header handlers frames (handleConnection sid) pre post sid' data
             eq_refl H).
Qed.

Lemma audio_only_after_header_witness :
  "c1"%string = "c1"%string
  /\ exists hdr h,
       OnMessage "c1" (MsgHeader hdr h)
         ∈ [OnMessage "c1"
              (MsgHeader
                 [x50; x43; x4d; x31; x80; x3e; x00; x00; x01; x10; x40; x01;
                  x00; x00; x00; x00]
                 (mkPcmHeader "PCM1" 16000 1 16 320 0))].
Proof.
  apply (audio_only_after_header (mkHandlers true) "c1" "c1"
           [(IsBuffer [x50; x43; x4d; x31; x80; x3e; x00; x00; x01; x10; x40; x01;
                       x00; x00; x00; x00], Returns);
            (IsBuffer [x01; x02], RejectsLater)]
           _ [ErrorProcessingMessage; SendJsonError] [x01; x02]).
  reflexivity.
Defined.

End WsProtocol.

(** ** The message listener: calls that overlap *)

Section ListenerFacts.
Import Pcm Ws Listener.

(** *** One frame, up to the await *)





(** *** Calls that do not overlap *)

(** [Ws.handleMessage] is a call that is resumed before anything else
    happens. *)
Lemma handleMessage_start_resume (handlers : WebSocketHandlers) (s : SessionInfo)
    (data : RawData) (oc : Outcome) :
  handleMessage handlers s data oc
  = (let '(s1, eff, call) := handleMessage_start handlers s data oc in
     match call with
     | None => (s1, eff)
     | Some call =>
         let '(s2, eff') := handleMessage_resume call s1 in
         (s2, eff ++ eff')
     end).
Proof.
  unfold handleMessage, handleMessage_try, handleMessage_start, await_onMessage, deliver,
    handleMessage_resume.
  destruct data as [data | message].
  - destruct (is_null (header s) && (16 <=? length data)%nat
              && utf8_equals (take 4 data) "PCM1").
    + match goal with
      | |- context [match ?p with Ret _ => _ | Throw _ => _ end] => destruct p as [hdr|e]
      end; [|reflexivity].
      destruct (onMessage handlers); [destruct oc|]; reflexivity.
    + destruct ((length data =? 4)%nat && utf8_equals data END_signal).
      * destruct (onMessage handlers); [destruct oc|]; reflexivity.
      * destruct (header s); [|reflexivity].
        destruct (onMessage handlers); [destruct oc|]; reflexivity.
  - destruct (onMessage handlers); [destruct oc|]; reflexivity.
Qed.

Lemma run_events_app (handlers : WebSocketHandlers) (events events' : list Event) :
  forall c,
    run handlers c (events ++ events')
    = (let '(c1, eff) := run handlers c events in
       let '(c2, eff') := run handlers c1 events' in
       (c2, eff ++ eff')).
Proof.
  induction events as [|e events IH]; intros c.
  - cbn [app run]. destruct (run handlers c events') as [c2 eff']. reflexivity.
  - cbn [app run]. destruct (step handlers c e) as [c0 eff0]. rewrite IH.
    destruct (run handlers c0 events) as [c1 eff1].
    destruct (run handlers c1 events') as [c2 eff2]. rewrite app_assoc. reflexivity.
Qed.

Lemma run_frame_in_turn (handlers : WebSocketHandlers) (s : SessionInfo)
    (data : RawData) (oc : Outcome) :
  run handlers (mkConnection s []) [Arrive data oc; Settle 0]
  = (mkConnection (fst (handleMessage handlers s data oc)) [],
     snd (handleMessage handlers s data oc)).
Proof.
  rewrite handleMessage_start_resume. cbn [run step session suspended app].
  destruct (handleMessage_start handlers s data oc) as [[s1 eff] [call|]].
  - cbn [lookup list_lookup session suspended delete list_delete app].
    destruct (handleMessage_resume call s1) as [s2 eff']. cbn [fst snd].
    rewrite app_nil_r. reflexivity.
  - cbn [lookup list_lookup session suspended app fst snd].
    rewrite !app_nil_r. reflexivity.
Qed.

(** [Ws.feed] is the run in which every handler settles before the next
    frame arrives. *)
Lemma feed_in_turn (handlers : WebSocketHandlers) (frames : list (RawData * Outcome)) :
  forall s,
    run handlers (mkConnection s []) (in_turn frames)
    = (mkConnection (fst (feed handlers s frames)) [], snd (feed handlers s frames)).
Proof.
  induction frames as [|[data oc] frames IH]; intros s; [reflexivity|].
  change (in_turn ((data, oc) :: frames))
    with ([Arrive data oc; Settle 0] ++ in_turn frames).
  rewrite run_events_app, run_frame_in_turn. cbn [feed].
  destruct (handleMessage handlers s data oc) as [s1 eff1]. cbn [fst snd].
  rewrite IH. destruct (feed handlers s1 frames) as [s2 eff2]. reflexivity.
Qed.




(** The other way for the reset to stay out: the handler fails on the end
    message.  The header stays, and the next frame is handed over as
    audio. *)
Example end_handler_rejects_audio_delivered :
  run (mkHandlers true)
    (mkConnection (mkSessionInfo "session_1" (Some (mkPcmHeader "PCM1" 16000 1 16 320 0)) true) [])
    [Arrive (IsBuffer END_frame) RejectsLater; Settle 0;
     Arrive (IsBuffer [x07; x08]) Returns; Settle 0]
  = (mkConnection (mkSessionInfo "session_1" (Some (mkPcmHeader "PCM1" 16000 1 16 320 0)) true) [],
     [OnMessage "session_1" MsgEnd; ErrorProcessingMessage; SendJsonError;
      OnMessage "session_1" (MsgAudio [x07; x08])]).
Proof. reflexivity. Qed.

(** *** Any frames, any order of settling *)










End ListenerFacts.

(** ** Connections and the heartbeat *)

Section ConnFacts.
Import Pcm Ws Conn.

Lemma heartbeat_from_lookup (sockets : list Socket) :
  forall ws i, fst (heartbeat_from ws sockets) !! i = beat <$> sockets !! i.
Proof.
  induction sockets as [|socket rest IH]; intros ws i; [reflexivity|].
  cbn [heartbeat_from]. specialize (IH (S ws)).
  destruct (heartbeat_from (S ws) rest) as [rest' eff]. cbn [fst] in IH.
  destruct i as [|i].
  - change ((socket :: rest) !! 0%nat) with (Some socket). cbn [fmap option_fmap option_map].
    unfold beat.
    destruct (inTable socket); [destruct (negb (isAlive (session socket)))|]; reflexivity.
  - change ((socket :: rest) !! S i) with (rest !! i). rewrite <- IH.
    destruct (inTable socket); [destruct (negb (isAlive (session socket)))|]; reflexivity.
Qed.

Lemma heartbeat_from_terminate (sockets : list Socket) :
  forall ws0 ws,
    Terminate ws ∈ snd (heartbeat_from ws0 sockets)
    <-> exists i socket,
          ws = (ws0 + i)%nat /\ sockets !! i = Some socket
          /\ inTable socket = true /\ isAlive (session socket) = false.
Proof.
  induction sockets as [|socket rest IH]; intros ws0 ws.
  - cbn. split.
    + intros H. inversion H.
    + intros (i & s & _ & H & _). discriminate H.
  - cbn [heartbeat_from]. specialize (IH (S ws0) ws).
    destruct (heartbeat_from (S ws0) rest) as [rest' eff]. cbn [snd] in IH.
    assert (Hrest : Terminate ws ∈ eff
                    -> exists i s, ws = (ws0 + i)%nat /\ (socket :: rest) !! i = Some s
                                   /\ inTable s = true /\ isAlive (session s) = false).
    { intros H. apply IH in H. destruct H as (i & s & -> & Hl & Ht & Ha).
      exists (S i), s. split; [lia|]. auto. }
    assert (Hback : forall i s, ws = (ws0 + i)%nat -> (socket :: rest) !! i = Some s ->
                                inTable s = true -> isAlive (session s) = false ->
                                (i = 0%nat /\ s = socket) \/ Terminate ws ∈ eff).
    { intros [|i] s -> Hl Ht Ha.
      - left. cbn in Hl. split; congruence.
      - right. apply IH. exists i, s. split; [lia|]. auto. }
    destruct (inTable socket) eqn:Ht; [destruct (isAlive (session socket)) eqn:Ha|];
      cbn [negb snd].
    + rewrite elem_of_cons. split.
      * intros [H|H]; [discriminate H|auto].
      * intros (i & s & Hw & Hl & Ht' & Ha').
        destruct (Hback i s Hw Hl Ht' Ha') as [(_ & ->)|H]; [congruence|auto].
    + rewrite elem_of_cons. split.
      * intros [H|H]; [|auto]. inversion H; subst.
        exists 0%nat, socket. split; [lia|]. auto.
      * intros (i & s & Hw & Hl & Ht' & Ha').
        destruct (Hback i s Hw Hl Ht' Ha') as [(-> & ->)|H]; [|auto].
        left. f_equal. lia.
    + split; [auto|].
      intros (i & s & Hw & Hl & Ht' & Ha').
      destruct (Hback i s Hw Hl Ht' Ha') as [(_ & ->)|H]; [congruence|auto].
Qed.

Lemma heartbeat_from_ping (sockets : list Socket) :
  forall ws0 i socket,
    sockets !! i = Some socket -> inTable socket = true ->
    isAlive (session socket) = true ->
    Ping (ws0 + i)%nat ∈ snd (heartbeat_from ws0 sockets).
Proof.
  induction sockets as [|s rest IH]; intros ws0 i socket Hl Ht Ha; [discriminate Hl|].
  cbn [heartbeat_from]. specialize (IH (S ws0)).
  destruct (heartbeat_from (S ws0) rest) as [rest' eff]. cbn [snd] in IH.
  destruct i as [|i].
  - cbn in Hl. inversion Hl; subst s. rewrite Ht, Ha. cbn [negb snd].
    replace (ws0 + 0)%nat with ws0 by lia. apply list_elem_of_here.
  - cbn in Hl. specialize (IH i socket Hl Ht Ha).
    replace (ws0 + S i)%nat with (S ws0 + i)%nat by lia.
    destruct (inTable s); [destruct (negb (isAlive (session s)))|]; cbn [snd];
      rewrite ?elem_of_cons; auto.
Qed.

Lemma heartbeat_spec (server : Server) :
  exists server' eff,
    step HeartbeatTimer server = (Ret tt, server', eff)
    /\ handlers server' = handlers server
    /\ connectionHandlers server' = connectionHandlers server
    /\ (forall ws, sockets server' !! ws = beat <$> sockets server !! ws)
    /\ (forall ws, Terminate ws ∈ eff <-> pinged ws server)
    /\ (forall ws sid, answered ws sid server -> Ping ws ∈ eff).
Proof.
  cbn [step]. unfold heartbeat.
  pose proof (heartbeat_from_lookup (sockets server) 0%nat) as Hl.
  pose proof (heartbeat_from_terminate (sockets server) 0%nat) as Ht.
  pose proof (heartbeat_from_ping (sockets server) 0%nat) as Hp.
  destruct (heartbeat_from 0%nat (sockets server)) as [sockets' eff]. cbn [fst snd] in *.
  eexists _, _. split; [reflexivity|]. cbn [handlers connectionHandlers sockets].
  split; [reflexivity|]. split; [reflexivity|]. split; [exact Hl|]. split.
  - intros ws. rewrite Ht. unfold pinged. split.
    + intros (i & s & -> & H). exists s. exact H.
    + intros (s & H). exists ws, s. split; [reflexivity|exact H].
  - intros ws sid (s & H1 & H2 & H3 & _). exact (Hp ws s H1 H2 H3).
Qed.

(** What any listener but the heartbeat does, seen from one socket. *)
Lemma step_spec (event : ServerEvent) (server : Server) (ws : WebSocket) :
  event <> HeartbeatTimer ->
  escapes server event = false ->
  exists server' eff,
    step event server = (Ret tt, server', eff)
    /\ handlers server' = handlers server
    /\ connectionHandlers server' = connectionHandlers server
    /\ (forall ws', Terminate ws' ∉ eff)
    /\ (forall socket,
          sockets server !! ws = Some socket ->
          exists socket',
            sockets server' !! ws = Some socket'
            /\ sessionId (session socket') = sessionId (session socket)
            /\ (event <> Pong ws -> isAlive (session socket') = isAlive (session socket))
            /\ (event = Pong ws -> isAlive (session socket') = true)
            /\ (inTable socket = false -> inTable socket' = false)
            /\ ((forall oc, event <> Close ws oc) -> inTable socket' = inTable socket)).
Proof.
  intros Hhb Hesc.
  destruct event as [sid oc | ws' | ws' data oc | ws' oc | ws' oc | ]; [| | | | |contradiction].
  - (* connection *)
    cbn [step]. unfold handleConnection, notify. cbn [escapes] in Hesc.
    assert (Hl : forall s x, sockets server !! ws = Some s ->
                             (sockets server ++ [x]) !! ws = Some s)
      by (intros s x H; apply lookup_app_l_Some; exact H).
    destruct (onConnection (connectionHandlers server)) eqn:Hc;
      [destruct oc; [| congruence |]|];
      (eexists _, _; split; [reflexivity|]; cbn [handlers connectionHandlers sockets];
       split; [reflexivity|]; split; [reflexivity|]; split;
       [intros w H; rewrite !elem_of_cons in H;
        repeat (destruct H as [H|H]; [discriminate H|]); inversion H
       |intros s Hs; exists s; split; [apply Hl, Hs|]; repeat split; try reflexivity;
        auto; intros H; discriminate H]).
  - (* pong *)
    cbn [step]. eexists _, _. split; [reflexivity|]. cbn [handlers connectionHandlers sockets].
    split; [reflexivity|]. split; [reflexivity|]. split; [intros w H; inversion H|].
    intros s Hs. destruct (decide (ws' = ws)) as [->|Hne].
    + exists (set_isAlive true s). split.
      * rewrite list_lookup_alter_eq, Hs. reflexivity.
      * repeat split; cbn; try reflexivity; auto. intros H. exfalso. apply H. reflexivity.
    + exists s. split.
      * rewrite list_lookup_alter_ne by exact Hne. exact Hs.
      * repeat split; try reflexivity; auto. intros H. congruence.
  - (* message *)
    cbn [step].
    assert (Hsame : exists server' eff,
               (Ret tt, server, @nil ServerEffect) = (Ret tt, server', eff)
               /\ handlers server' = handlers server
               /\ connectionHandlers server' = connectionHandlers server
               /\ (forall w, Terminate w ∉ eff)
               /\ (forall socket,
                     sockets server !! ws = Some socket ->
                     exists socket',
                       sockets server' !! ws = Some socket'
                       /\ sessionId (session socket') = sessionId (session socket)
                       /\ (Message ws' data oc <> Pong ws ->
                           isAlive (session socket') = isAlive (session socket))
                       /\ (Message ws' data oc = Pong ws -> isAlive (session socket') = true)
                       /\ (inTable socket = false -> inTable socket' = false)
                       /\ ((forall oc0, Message ws' data oc <> Close ws oc0) ->
                           inTable socket' = inTable socket))).
    { eexists _, _. split; [reflexivity|]. split; [reflexivity|]. split; [reflexivity|].
      split; [intros w H; inversion H|].
      intros s Hs. exists s. split; [exact Hs|]. repeat split; try reflexivity; auto.
      intros H. discriminate H. }
    destruct (sockets server !! ws') as [socket|] eqn:Hw; [|exact Hsame].
    destruct (wired socket); [|exact Hsame]. clear Hsame.
    destruct (handleMessage_cases (handlers server) (session socket) data oc)
      as (Hid & Halive & _).
    cbv zeta in Hid, Halive.
    destruct (handleMessage (handlers server) (session socket) data oc) as [s1 eff1].
    cbn [fst] in Hid, Halive.
    eexists _, _. split; [reflexivity|]. cbn [handlers connectionHandlers sockets].
    split; [reflexivity|]. split; [reflexivity|]. split.
    + intros w H. apply list_elem_of_In, in_map_iff in H.
      destruct H as (e & H & _). discriminate H.
    + intros s Hs. destruct (decide (ws' = ws)) as [->|Hne].
      * exists (set_session s1 socket). split.
        -- apply list_lookup_insert_eq. apply lookup_lt_Some in Hs. exact Hs.
        -- assert (s = socket) by congruence. subst s.
           repeat split; try reflexivity; auto. intros H. discriminate H.
      * exists s. split.
        -- rewrite list_lookup_insert_ne by exact Hne. exact Hs.
        -- repeat split; try reflexivity; auto. intros H. discriminate H.
  - (* error *)
    cbn [step]. cbn [escapes] in Hesc.
    assert (Hsame : forall r (eff : list ServerEffect),
               r = Ret tt -> (forall w, Terminate w ∉ eff) ->
               exists server' eff',
                 (r, server, eff) = (Ret tt, server', eff')
                 /\ handlers server' = handlers server
                 /\ connectionHandlers server' = connectionHandlers server
                 /\ (forall w, Terminate w ∉ eff')
                 /\ (forall socket,
                       sockets server !! ws = Some socket ->
                       exists socket',
                         sockets server' !! ws = Some socket'
                         /\ sessionId (session socket') = sessionId (session socket)
                         /\ (Error ws' oc <> Pong ws ->
                             isAlive (session socket') = isAlive (session socket))
                         /\ (Error ws' oc = Pong ws -> isAlive (session socket') = true)
                         /\ (inTable socket = false -> inTable socket' = false)
                         /\ ((forall oc0, Error ws' oc <> Close ws oc0) ->
                             inTable socket' = inTable socket))).
    { intros r eff -> Heff. eexists _, _. split; [reflexivity|]. split; [reflexivity|].
      split; [reflexivity|]. split; [exact Heff|].
      intros s Hs. exists s. split; [exact Hs|]. repeat split; try reflexivity; auto.
      intros H. discriminate H. }
    destruct (sockets server !! ws') as [socket|];
      [|apply Hsame; [reflexivity|intros w H; inversion H]].
    destruct (wired socket); cbn [andb];
      [|apply Hsame; [reflexivity|intros w H; inversion H]].
    destruct (onError (connectionHandlers server)) eqn:Hc;
      [|apply Hsame; [reflexivity|intros w H; inversion H]].
    apply Hsame.
    + destruct oc; [reflexivity|congruence|reflexivity].
    + intros w H. apply list_elem_of_singleton in H. discriminate H.
  - (* close *)
    cbn [step]. cbn [escapes] in Hesc.
    assert (Hsame : exists server' eff,
               (Ret tt, server, @nil ServerEffect) = (Ret tt, server', eff)
               /\ handlers server' = handlers server
               /\ connectionHandlers server' = connectionHandlers server
               /\ (forall w, Terminate w ∉ eff)
               /\ (forall socket,
                     sockets server !! ws = Some socket ->
                     exists socket',
                       sockets server' !! ws = Some socket'
                       /\ sessionId (session socket') = sessionId (session socket)
                       /\ (Close ws' oc <> Pong ws ->
                           isAlive (session socket') = isAlive (session socket))
                       /\ (Close ws' oc = Pong ws -> isAlive (session socket') = true)
                       /\ (inTable socket = false -> inTable socket' = false)
                       /\ ((forall oc0, Close ws' oc <> Close ws oc0) ->
                           inTable socket' = inTable socket))).
    { eexists _, _. split; [reflexivity|]. split; [reflexivity|]. split; [reflexivity|].
      split; [intros w H; inversion H|].
      intros s Hs. exists s. split; [exact Hs|]. repeat split; try reflexivity; auto.
      intros H. discriminate H. }
    destruct (sockets server !! ws') as [socket|] eqn:Hw; [|exact Hsame].
    destruct (wired socket); [|exact Hsame]. clear Hsame.
    unfold notify.
    assert (Hlook : forall s, sockets server !! ws = Some s ->
               exists socket' : Socket,
                 <[ws' := set_inTable false socket]> (sockets server) !! ws = Some socket'
                 /\ sessionId (session socket') = sessionId (session s)
                 /\ (Close ws' oc <> Pong ws ->
                     isAlive (session socket') = isAlive (session s))
                 /\ (Close ws' oc = Pong ws -> isAlive (session socket') = true)
                 /\ (inTable s = false -> inTable socket' = false)
                 /\ ((forall oc0, Close ws' oc <> Close ws oc0) ->
                     inTable socket' = inTable s)).
    { intros s Hs. destruct (decide (ws' = ws)) as [->|Hne].
      - exists (set_inTable false socket). split.
        + apply list_lookup_insert_eq. apply lookup_lt_Some in Hs. exact Hs.
        + assert (s = socket) by congruence. subst s.
          repeat split; try reflexivity; auto.
          * intros H. discriminate H.
          * intros H. exfalso. apply (H oc). reflexivity.
      - exists s. split.
        + rewrite list_lookup_insert_ne by exact Hne. exact Hs.
        + repeat split; try reflexivity; auto. intros H. discriminate H. }
    destruct (onClose (connectionHandlers server)) eqn:Hc;
      [destruct oc; [| congruence |]|];
      (eexists _, _; split; [reflexivity|]; cbn [handlers connectionHandlers sockets];
       split; [reflexivity|]; split; [reflexivity|]; split;
       [intros w H; rewrite ?elem_of_cons in H;
        repeat (destruct H as [H|H]; [discriminate H|]); inversion H
       |exact Hlook]).
Qed.

Lemma escapes_handlers (server server' : Server) (event : ServerEvent) :
  connectionHandlers server' = connectionHandlers server ->
  escapes server' event = escapes server event.
Proof.
  intros H. unfold escapes. rewrite H. reflexivity.
Qed.

Lemma run_app (evs1 evs2 : list ServerEvent) :
  forall server server1 eff1,
    run evs1 server = (Ret tt, server1, eff1) ->
    run (evs1 ++ evs2) server
    = (fst (fst (run evs2 server1)), snd (fst (run evs2 server1)),
       eff1 ++ snd (run evs2 server1)).
Proof.
  induction evs1 as [|e evs1 IH]; intros server server1 eff1 H.
  - cbn in H. inversion H; subst. cbn [app].
    destruct (run evs2 server1) as [[r s] eff]. reflexivity.
  - cbn [run app] in *. destruct (step e server) as [[r s] eff].
    destruct r as [[]|err]; [|discriminate H].
    destruct (run evs1 s) as [[r1 s1] eff1'] eqn:Hrun.
    inversion H; subst. rewrite (IH s server1 eff1' Hrun).
    destruct (run evs2 server1) as [[r2 s2] eff2]. cbn [fst snd].
    rewrite app_assoc. reflexivity.
Qed.

(** A socket that does not answer stays unanswered, whatever else happens;
    and unless it closes, it stays in the table until a heartbeat
    terminates it. *)
Lemma run_unanswered (ws : WebSocket) (evs : list ServerEvent) :
  forall server,
    Forall (fun event => escapes server event = false) evs ->
    Pong ws ∉ evs ->
    unanswered ws server ->
    exists server' eff,
      run evs server = (Ret tt, server', eff)
      /\ unanswered ws server'
      /\ ((forall oc, Close ws oc ∉ evs) -> pinged ws server ->
          Terminate ws ∈ eff \/ pinged ws server').
Proof.
  induction evs as [|event evs IH]; intros server Hesc Hpong Hun.
  - exists server, []. split; [reflexivity|]. split; [exact Hun|]. auto.
  - apply Forall_cons in Hesc. destruct Hesc as [Hesc1 Hesc].
    apply not_elem_of_cons in Hpong. destruct Hpong as [Hne Hpong].
    assert (Hstep : exists server1 eff1,
               step event server = (Ret tt, server1, eff1)
               /\ connectionHandlers server1 = connectionHandlers server
               /\ unanswered ws server1
               /\ ((forall oc, event <> Close ws oc) -> pinged ws server ->
                   Terminate ws ∈ eff1 \/ pinged ws server1)).
    { assert (Hdec : event = HeartbeatTimer \/ event <> HeartbeatTimer)
        by (destruct event; first [left; reflexivity | right; discriminate]).
      destruct Hdec as [->|Hhb].
      - destruct (heartbeat_spec server) as (s1 & e1 & Hs & _ & Hc & Hl & Ht & _).
        exists s1, e1. split; [exact Hs|]. split; [exact Hc|]. split.
        + destruct Hun as (socket & Hsock & Hor). exists (beat socket).
          split; [rewrite Hl, Hsock; reflexivity|].
          unfold beat. destruct (inTable socket) eqn:Hin;
            [destruct (isAlive (session socket)) eqn:Ha|]; cbn; auto.
        + intros _ Hp. left. apply Ht. exact Hp.
      - destruct (step_spec event server ws Hhb Hesc1)
          as (s1 & e1 & Hs & _ & Hc & _ & Hsock).
        exists s1, e1. split; [exact Hs|]. split; [exact Hc|]. split.
        + destruct Hun as (socket & Hl & Hor).
          destruct (Hsock socket Hl) as (socket' & Hl' & _ & Ha & _ & Hout & _).
          exists socket'. split; [exact Hl'|].
          destruct Hor as [Hor|Hor]; [left; auto|right].
          rewrite Ha by congruence. exact Hor.
        + intros Hclose (socket & Hl & Hin & Ha). right.
          destruct (Hsock socket Hl) as (socket' & Hl' & _ & Ha' & _ & _ & Hin').
          exists socket'. split; [exact Hl'|].
          rewrite Hin' by exact Hclose. rewrite Ha' by congruence. auto. }
    destruct Hstep as (s1 & e1 & Hs & Hc & Hun1 & Hp1).
    destruct (IH s1) as (s2 & e2 & Hrun & Hun2 & Hp2).
    { eapply Forall_impl; [exact Hesc|]. intros e He. cbn beta in *.
      rewrite (escapes_handlers server s1 e Hc). exact He. }
    { exact Hpong. }
    { exact Hun1. }
    exists s2, (e1 ++ e2). cbn [run]. rewrite Hs, Hrun. split; [reflexivity|].
    split; [exact Hun2|].
    intros Hclose Hp. rewrite elem_of_app.
    destruct Hp1 as [Hp1|Hp1].
    + intros oc ->. apply (Hclose oc). apply list_elem_of_here.
    + exact Hp.
    + auto.
    + destruct Hp2 as [Hp2|Hp2]; [| exact Hp1 | auto | auto].
      intros oc Hin. apply (Hclose oc). apply list_elem_of_further, Hin.
Qed.

(** X22.  A socket that does not answer a ping is gone from the connection
    table after the next heartbeat, whatever else arrives in between, its
    own frames included: only a pong counts as a sign of life.  Unless it
    closed by itself, a heartbeat terminated it.  (No callback throws out of
    its listener in between.) *)
Theorem unanswered_ping_terminates (server : Server) (ws : WebSocket)
    (evs : list ServerEvent) :
  (ws < length (sockets server))%nat ->
  Pong ws ∉ evs ->
  Forall (fun event => escapes server event = false) evs ->
  exists server' eff,
    run (HeartbeatTimer :: evs ++ [HeartbeatTimer]) server = (Ret tt, server', eff)
    /\ getSession ws server' = None
    /\ (getSession ws server <> None -> (forall oc, Close ws oc ∉ evs) ->
        Terminate ws ∈ eff).
Proof.
  intros Hlt Hpong Hesc.
  destruct (heartbeat_spec server) as (s1 & e1 & Hs1 & _ & Hc1 & Hl1 & Ht1 & _).
  destruct (lookup_lt_is_Some_2 _ _ Hlt) as (socket & Hsock).
  assert (Hun1 : unanswered ws s1).
  { exists (beat socket). split; [rewrite Hl1, Hsock; reflexivity|].
    unfold beat. destruct (inTable socket) eqn:Hin;
      [destruct (isAlive (session socket)) eqn:Ha|]; cbn; auto. }
  destruct (run_unanswered ws evs s1) as (s2 & e2 & Hrun & Hun2 & Hp2).
  { eapply Forall_impl; [exact Hesc|]. intros e He. cbn beta in *.
    rewrite (escapes_handlers server s1 e Hc1). exact He. }
  { exact Hpong. }
  { exact Hun1. }
  destruct (heartbeat_spec s2) as (s3 & e3 & Hs3 & _ & _ & Hl3 & Ht3 & _).
  assert (Hlast : run [HeartbeatTimer] s2 = (Ret tt, s3, e3 ++ [])).
  { cbn [run]. rewrite Hs3. reflexivity. }
  exists s3, (e1 ++ e2 ++ e3 ++ []).
  split.
  { cbn [run]. rewrite Hs1. rewrite (run_app evs [HeartbeatTimer] s1 s2 e2 Hrun), Hlast.
    reflexivity. }
  split.
  - destruct Hun2 as (socket2 & Hsock2 & Hor). unfold getSession.
    rewrite Hl3, Hsock2. cbn [fmap option_fmap option_map]. unfold beat.
    destruct (inTable socket2) eqn:Hin; [|rewrite Hin; reflexivity].
    destruct Hor as [Hor|Hor]; [discriminate Hor|]. rewrite Hor. reflexivity.
  - intros Hget Hclose. rewrite !elem_of_app.
    unfold getSession in Hget. rewrite Hsock in Hget.
    destruct (inTable socket) eqn:Hin; [|contradiction].
    destruct (isAlive (session socket)) eqn:Ha.
    + assert (Hp1 : pinged ws s1).
      { exists (beat socket). split; [rewrite Hl1, Hsock; reflexivity|].
        unfold beat. rewrite Hin, Ha. cbn. rewrite Hin. auto. }
      destruct (Hp2 Hclose Hp1) as [H|H]; [auto|].
      right. right. left. apply Ht3. exact H.
    + left. apply Ht1. exists socket. auto.
Qed.

Lemma unanswered_ping_terminates_witness :
  exists server' eff,
    run (HeartbeatTimer
           :: [Message 0 (IsBuffer [x01; x02]) Returns; Connection "session_2" RejectsLater]
           ++ [HeartbeatTimer])
      ConnDemo.server1
    = (Ret tt, server', eff)
    /\ getSession 0 server' = None
    /\ (getSession 0 ConnDemo.server1 <> None ->
        (forall oc, Close 0%nat oc
                      ∉ [Message 0 (IsBuffer [x01; x02]) Returns;
                         Connection "session_2" RejectsLater]) ->
        Terminate 0 ∈ eff).
Proof.
  apply (unanswered_ping_terminates ConnDemo.server1 0%nat
           [Message 0 (IsBuffer [x01; x02]) Returns; Connection "session_2" RejectsLater]).
  - cbn. lia.
  - rewrite !not_elem_of_cons. repeat split; try discriminate. apply not_elem_of_nil.
  - repeat constructor.
Defined.

Lemma run_answered (ws : WebSocket) (sid : string) (evs : list ServerEvent) :
  forall server,
    Forall (fun event => escapes server event = false) evs ->
    HeartbeatTimer ∉ evs ->
    (forall oc, Close ws oc ∉ evs) ->
    answered ws sid server ->
    exists server' eff,
      run evs server = (Ret tt, server', eff)
      /\ answered ws sid server'
      /\ (forall ws', Terminate ws' ∉ eff).
Proof.
  induction evs as [|event evs IH]; intros server Hesc Hhb Hclose Hans.
  - exists server, []. split; [reflexivity|]. split; [exact Hans|].
    intros w. apply not_elem_of_nil.
  - apply Forall_cons in Hesc. destruct Hesc as [Hesc1 Hesc].
    apply not_elem_of_cons in Hhb. destruct Hhb as [Hhb1 Hhb].
    destruct (step_spec event server ws (fun H => Hhb1 (eq_sym H)) Hesc1)
      as (s1 & e1 & Hs & _ & Hc & Hterm & Hsock).
    destruct Hans as (socket & Hl & Hin & Ha & Hid).
    destruct (Hsock socket Hl) as (socket' & Hl' & Hid' & Ha' & Hpong & _ & Hin').
    destruct (IH s1) as (s2 & e2 & Hrun & Hans2 & Hterm2).
    { eapply Forall_impl; [exact Hesc|]. intros e He. cbn beta in *.
      rewrite (escapes_handlers server s1 e Hc). exact He. }
    { exact Hhb. }
    { intros oc Hin0. apply (Hclose oc). apply list_elem_of_further, Hin0. }
    { exists socket'. split; [exact Hl'|]. split.
      - rewrite Hin'; [exact Hin|]. intros oc ->. apply (Hclose oc). apply list_elem_of_here.
      - split; [|congruence].
        assert (Hdec : event = Pong ws \/ event <> Pong ws).
        { destruct event as [| w | | | |]; try (right; discriminate).
          destruct (decide (w = ws)) as [->|Hne]; [left; reflexivity|right; congruence]. }
        destruct Hdec as [Heq|Hne]; [auto|]. rewrite Ha' by exact Hne. exact Ha. }
    exists s2, (e1 ++ e2). cbn [run]. rewrite Hs, Hrun. split; [reflexivity|].
    split; [exact Hans2|].
    intros w. rewrite elem_of_app. intros [H|H]; [exact (Hterm w H)|exact (Hterm2 w H)].
Qed.

(** X23.  A socket of the table that answers with a pong, and does not
    close, is kept by the next heartbeat: it is pinged again, not
    terminated, and its session keeps its id.  (No callback throws out of
    its listener in between.) *)
Theorem answered_ping_survives (server : Server) (ws : WebSocket) (s : SessionInfo)
    (evs : list ServerEvent) :
  getSession ws server = Some s ->
  HeartbeatTimer ∉ evs ->
  (forall oc, Close ws oc ∉ evs) ->
  Forall (fun event => escapes server event = false) evs ->
  exists server' eff s',
    run (Pong ws :: evs ++ [HeartbeatTimer]) server = (Ret tt, server', eff)
    /\ getSession ws server' = Some s'
    /\ sessionId s' = sessionId s
    /\ isAlive s' = false
    /\ Ping ws ∈ eff
    /\ Terminate ws ∉ eff.
Proof.
  intros Hget Hhb Hclose Hesc.
  unfold getSession in Hget.
  destruct (sockets server !! ws) as [socket|] eqn:Hsock; [|discriminate Hget].
  destruct (inTable socket) eqn:Hin; [|discriminate Hget].
  injection Hget as <-.
  pose (s1 := mkServer (alter (set_isAlive true) ws (sockets server)) (handlers server)
                (connectionHandlers server)).
  assert (Hans1 : answered ws (sessionId (session socket)) s1).
  { exists (set_isAlive true socket). split.
    - cbn [s1 sockets]. rewrite list_lookup_alter_eq, Hsock. reflexivity.
    - cbn. auto. }
  destruct (run_answered ws (sessionId (session socket)) evs s1)
    as (s2 & e2 & Hrun & Hans2 & Hterm2); [exact Hesc|exact Hhb|exact Hclose|exact Hans1|].
  destruct (heartbeat_spec s2) as (s3 & e3 & Hs3 & _ & _ & Hl3 & Ht3 & Hp3).
  assert (Hlast : run [HeartbeatTimer] s2 = (Ret tt, s3, e3 ++ [])).
  { cbn [run]. rewrite Hs3. reflexivity. }
  destruct Hans2 as (socket2 & Hl2 & Hin2 & Ha2 & Hid2).
  exists s3, ([] ++ e2 ++ e3 ++ []), (session (set_isAlive false socket2)).
  split.
  { cbn [run step]. fold s1.
    rewrite (run_app evs [HeartbeatTimer] s1 s2 e2 Hrun), Hlast. reflexivity. }
  split.
  { unfold getSession. rewrite Hl3, Hl2. cbn [fmap option_fmap option_map].
    unfold beat. rewrite Hin2, Ha2. cbn. rewrite Hin2. reflexivity. }
  split; [exact Hid2|]. split; [reflexivity|].
  rewrite !elem_of_app. split.
  - right. right. left. apply (Hp3 ws (sessionId (session socket))).
    exists socket2. auto.
  - intros [H|[H|[H|H]]].
    + inversion H.
    + exact (Hterm2 ws H).
    + apply Ht3 in H. destruct H as (x & Hx & _ & Hax). congruence.
    + inversion H.
Qed.

Lemma answered_ping_survives_witness :
  exists server' eff s',
    run (Pong 0 :: [Message 0 (IsBuffer [x01; x02]) ThrowsSync] ++ [HeartbeatTimer])
      ConnDemo.server1
    = (Ret tt, server', eff)
    /\ getSession 0 server' = Some s'
    /\ sessionId s' = sessionId (Ws.handleConnection "session_1")
    /\ isAlive s' = false
    /\ Ping 0 ∈ eff
    /\ Terminate 0 ∉ eff.
Proof.
  apply (answered_ping_survives ConnDemo.server1 0%nat (Ws.handleConnection "session_1")
           [Message 0 (IsBuffer [x01; x02]) ThrowsSync]).
  - reflexivity.
  - rewrite !not_elem_of_cons. repeat split; try discriminate. apply not_elem_of_nil.
  - intros oc. rewrite !not_elem_of_cons. repeat split; try discriminate.
    apply not_elem_of_nil.
  - repeat constructor.
Defined.

End ConnFacts.

(** ** Numbers that denote integers *)

Section NumFacts.
Import Num.

Lemma digits2_pos_size (p : positive) : digits2_pos p = Pos.size p.
Proof. induction p as [p IH|p IH|]; cbn; rewrite ?IH; reflexivity. Qed.

Lemma digits2_bounds (p : positive) :
  2 ^ (Zpos (digits2_pos p) - 1) <= Zpos p < 2 ^ Zpos (digits2_pos p).
Proof.
  induction p as [p IH|p IH|]; cbn [digits2_pos].
  - rewrite Pos2Z.inj_succ.
    replace (Z.succ (Zpos (digits2_pos p)) - 1) with (Z.succ (Zpos (digits2_pos p) - 1)) by lia.
    rewrite !Z.pow_succ_r by lia. lia.
  - rewrite Pos2Z.inj_succ.
    replace (Z.succ (Zpos (digits2_pos p)) - 1) with (Z.succ (Zpos (digits2_pos p) - 1)) by lia.
    rewrite !Z.pow_succ_r by lia. lia.
  - cbn. lia.
Qed.

(** The number of binary digits is determined by the bounds. *)
Lemma digits2_unique (p : positive) (d : Z) :
  2 ^ (d - 1) <= Zpos p < 2 ^ d -> Zpos (digits2_pos p) = d.
Proof.
  intros [Hlo Hhi]. pose proof (digits2_bounds p) as [Hlo' Hhi'].
  assert (0 < d).
  { destruct (Z.ltb_spec 0 d) as [|Hd]; [assumption|].
    assert (2 ^ d <= 2 ^ 0) by (apply Z.pow_le_mono_r; lia). cbn in *. lia. }
  destruct (Z.lt_trichotomy (Zpos (digits2_pos p)) d) as [Hlt|[Heq|Hgt]]; [|exact Heq|].
  - assert (2 ^ Zpos (digits2_pos p) <= 2 ^ (d - 1)) by (apply Z.pow_le_mono_r; lia). lia.
  - assert (2 ^ d <= 2 ^ (Zpos (digits2_pos p) - 1)) by (apply Z.pow_le_mono_r; lia). lia.
Qed.

Lemma iter_xO_value (p k : positive) : Zpos (Pos.iter xO p k) = Zpos p * 2 ^ Zpos k.
Proof.
  induction k as [|k IH] using Pos.peano_ind.
  - cbn. lia.
  - rewrite Pos.iter_succ, Pos2Z.inj_xO, IH, Pos2Z.inj_succ, Z.pow_succ_r by lia. lia.
Qed.

Lemma iter_xO_digits (p k : positive) :
  Zpos (digits2_pos (Pos.iter xO p k)) = Zpos (digits2_pos p) + Zpos k.
Proof.
  induction k as [|k IH] using Pos.peano_ind.
  - cbn. lia.
  - rewrite Pos.iter_succ. cbn [digits2_pos]. rewrite Pos2Z.inj_succ, IH. lia.
Qed.

(** A mantissa of 53 digits with an exponent in range is in normal form:
    rounding leaves it alone. *)
Lemma shr_fexp_canonical (m : positive) (e : Z) :
  Zpos (digits2_pos m) = 53 ->
  -1074 <= e ->
  shr_fexp prec emax (Zpos m) e loc_Exact
  = ({| shr_m := Zpos m; shr_r := false; shr_s := false |}, e).
Proof.
  intros Hd He. unfold shr_fexp, Zdigits2. rewrite Hd.
  unfold fexp, emin, prec, emax.
  replace (Z.max (53 + e - 53) (3 - 1024 - 53) - e) with 0 by lia.
  reflexivity.
Qed.

Lemma binary_round_aux_canonical (s : bool) (m : positive) (e : Z) :
  Zpos (digits2_pos m) = 53 ->
  -1074 <= e <= 971 ->
  binary_round_aux prec emax s (Zpos m) e loc_Exact = S754_finite s m e.
Proof.
  intros Hd He. unfold binary_round_aux.
  rewrite shr_fexp_canonical by (assumption || lia).
  cbn [shr_m loc_of_shr_record round_nearest_even].
  rewrite shr_fexp_canonical by (assumption || lia).
  cbn [shr_m]. unfold prec, emax.
  destruct (Z.leb_spec e (1024 - 53)); [reflexivity|lia].
Qed.

(** The normal form of a positive integer below 2^53. *)
Lemma binary_round_integer (s : bool) (p : positive) :
  Zpos p < 2 ^ 53 ->
  exists m e,
    binary_round prec emax s p 0 = S754_finite s m e
    /\ Zpos (digits2_pos m) = 53
    /\ e = Zpos (digits2_pos p) - 53
    /\ Zpos m = Zpos p * 2 ^ (- e).
Proof.
  intros Hp. pose proof (digits2_bounds p) as [Hlo Hhi].
  assert (Hd : Zpos (digits2_pos p) <= 53).
  { destruct (Z.leb_spec (Zpos (digits2_pos p)) 53) as [|Hgt]; [assumption|].
    assert (2 ^ 53 <= 2 ^ (Zpos (digits2_pos p) - 1)) by (apply Z.pow_le_mono_r; lia). lia. }
  unfold binary_round.
  replace (fexp prec emax (Zpos (digits2_pos p) + 0)) with (Zpos (digits2_pos p) - 53)
    by (unfold fexp, emin, prec, emax; lia).
  unfold shl_align.
  destruct (Zpos (digits2_pos p) - 53 - 0) as [|k|k] eqn:Hk; [|lia|].
  - exists p, 0. rewrite binary_round_aux_canonical by lia.
    split; [reflexivity|]. split; [lia|]. split; [lia|]. cbn. lia.
  - exists (Pos.iter xO p k), (Zpos (digits2_pos p) - 53).
    rewrite binary_round_aux_canonical.
    + split; [reflexivity|]. split; [rewrite iter_xO_digits; lia|]. split; [reflexivity|].
      rewrite iter_xO_value. f_equal. f_equal. lia.
    + rewrite iter_xO_digits. lia.
    + lia.
Qed.

(** The normal form of a non-zero integer of magnitude below 2^53. *)
Lemma of_Z_finite (n : Z) :
  n <> 0 -> Z.abs n < 2 ^ 53 ->
  exists m e,
    of_Z n = S754_finite (n <? 0) m e
    /\ Zpos (digits2_pos m) = 53
    /\ -52 <= e <= 0
    /\ Zpos m = Z.abs n * 2 ^ (- e)
    /\ 2 ^ (52 + e) <= Z.abs n < 2 ^ (53 + e).
Proof.
  intros Hn Habs. unfold of_Z, binary_normalize.
  destruct n as [|p|p]; [contradiction| |].
  - destruct (binary_round_integer false p Habs) as (m & e & H1 & H2 & H3 & H4).
    pose proof (digits2_bounds p) as [Hlo Hhi].
    assert (Zpos (digits2_pos p) <= 53).
    { destruct (Z.leb_spec (Zpos (digits2_pos p)) 53) as [|Hgt]; [assumption|].
      assert (2 ^ 53 <= 2 ^ (Zpos (digits2_pos p) - 1)) by (apply Z.pow_le_mono_r; lia).
      cbn [Z.abs] in Habs. lia. }
    exists m, e. split; [exact H1|]. split; [exact H2|]. split; [lia|].
    split; [exact H4|]. cbn [Z.abs]. subst e.
    replace (52 + (Zpos (digits2_pos p) - 53)) with (Zpos (digits2_pos p) - 1) by lia.
    replace (53 + (Zpos (digits2_pos p) - 53)) with (Zpos (digits2_pos p)) by lia.
    lia.
  - destruct (binary_round_integer true p Habs) as (m & e & H1 & H2 & H3 & H4).
    pose proof (digits2_bounds p) as [Hlo Hhi].
    assert (Zpos (digits2_pos p) <= 53).
    { destruct (Z.leb_spec (Zpos (digits2_pos p)) 53) as [|Hgt]; [assumption|].
      assert (2 ^ 53 <= 2 ^ (Zpos (digits2_pos p) - 1)) by (apply Z.pow_le_mono_r; lia).
      cbn [Z.abs] in Habs. lia. }
    exists m, e. split; [exact H1|]. split; [exact H2|]. split; [lia|].
    split; [exact H4|]. cbn [Z.abs]. subst e.
    replace (52 + (Zpos (digits2_pos p) - 53)) with (Zpos (digits2_pos p) - 1) by lia.
    replace (53 + (Zpos (digits2_pos p) - 53)) with (Zpos (digits2_pos p)) by lia.
    lia.
Qed.

Lemma shiftr_exact (a k : Z) : 0 <= k -> Z.shiftr (a * 2 ^ k) k = a.
Proof.
  intros Hk. rewrite Z.shiftr_div_pow2 by exact Hk.
  apply Z.div_mul. apply Z.pow_nonzero; lia.
Qed.

(** [Math.trunc], [Math.floor] and [Math.round] of an integer. *)
Lemma trunc_of_Z (n : Z) : Z.abs n < 2 ^ 53 -> trunc (of_Z n) = n.
Proof.
  intros Habs. destruct (Z.eq_dec n 0) as [->|Hn]; [reflexivity|].
  destruct (of_Z_finite n Hn Habs) as (m & e & -> & _ & He & Hm & _).
  unfold trunc, signed. rewrite Hm.
  destruct (Z.leb_spec 0 e) as [H0|H0].
  - assert (e = 0) by lia. subst e. cbn [Z.opp Z.pow Z.pow_pos Pos.iter].
    destruct (Z.ltb_spec n 0); cbn [cond_Zopp]; lia.
  - rewrite shiftr_exact by lia.
    destruct (Z.ltb_spec n 0); cbn [cond_Zopp]; lia.
Qed.

Lemma binary_normalize_sign (n : Z) (s : bool) :
  n <> 0 -> binary_normalize prec emax n 0 s = of_Z n.
Proof. intros Hn. unfold of_Z. destruct n; [contradiction|reflexivity|reflexivity]. Qed.

Lemma signed_of_Z (n : Z) (m : positive) (e : Z) :
  n <> 0 -> Zpos m = Z.abs n * 2 ^ (- e) -> signed (n <? 0) m = n * 2 ^ (- e).
Proof.
  intros Hn Hm. unfold signed. rewrite Hm.
  destruct (Z.ltb_spec n 0); cbn [cond_Zopp]; lia.
Qed.

Lemma Math_floor_of_Z (n : Z) : Z.abs n < 2 ^ 53 -> Math_floor (of_Z n) = of_Z n.
Proof.
  intros Habs. destruct (Z.eq_dec n 0) as [->|Hn]; [reflexivity|].
  destruct (of_Z_finite n Hn Habs) as (m & e & Heq & _ & He & Hm & _).
  rewrite Heq. unfold Math_floor.
  destruct (Z.leb_spec 0 e) as [H0|H0]; [reflexivity|].
  rewrite (signed_of_Z n m e Hn Hm), shiftr_exact by lia.
  rewrite binary_normalize_sign by exact Hn. exact Heq.
Qed.

Lemma Math_round_of_Z (n : Z) : Z.abs n < 2 ^ 53 -> Math_round (of_Z n) = of_Z n.
Proof.
  intros Habs. destruct (Z.eq_dec n 0) as [->|Hn]; [reflexivity|].
  destruct (of_Z_finite n Hn Habs) as (m & e & Heq & _ & He & Hm & _).
  rewrite Heq. unfold Math_round.
  destruct (Z.leb_spec 0 e) as [H0|H0]; [reflexivity|].
  rewrite (signed_of_Z n m e Hn Hm).
  replace (Z.shiftr (2 * (n * 2 ^ (- e)) + 2 ^ (- e)) (- e + 1)) with n.
  - rewrite binary_normalize_sign by exact Hn. exact Heq.
  - rewrite Z.shiftr_div_pow2 by lia.
    replace (- e + 1) with (Z.succ (- e)) by lia. rewrite Z.pow_succ_r by lia.
    assert (0 < 2 ^ (- e)) by (apply Z.pow_pos_nonneg; lia).
    apply Z.div_unique with (r := 2 ^ (- e)); lia.
Qed.

(** Adding an integer to the zero an accumulator starts with. *)
Lemma add_zero_of_Z (n : Z) : Z.abs n < 2 ^ 53 -> add (of_Z 0) (of_Z n) = of_Z n.
Proof.
  intros Habs. destruct (Z.eq_dec n 0) as [->|Hn]; [reflexivity|].
  destruct (of_Z_finite n Hn Habs) as (m & e & -> & _). reflexivity.
Qed.

(** Division of a number in normal form by a power of two: the mantissa
    stays, the exponent moves. *)
Lemma div_normal_pow2 (s : bool) (m : positive) (e ey : Z) :
  Zpos (digits2_pos m) = 53 ->
  -1073 <= e - ey - 52 <= 971 ->
  div (S754_finite s m e) (S754_finite false 4503599627370496 ey)
  = S754_finite s m (e - ey - 52).
Proof.
  intros Hd He. unfold div, SFdiv, SFdiv_core_binary, Zdigits2.
  rewrite Hd. change (Zpos (digits2_pos 4503599627370496)) with 53.
  replace (Z.min (fexp prec emax (53 + e - (53 + ey))) (e - ey)) with (e - ey - 53)
    by (unfold fexp, emin, prec, emax; lia).
  replace (e - ey - (e - ey - 53)) with 53 by lia.
  assert (Hdiv : Z.div_eucl (Z.shiftl (Zpos m) 53) 4503599627370496 = (Zpos m~0, 0)).
  { rewrite Z.shiftl_mul_pow2 by lia.
    pose proof (Z.div_eucl_eq (Zpos m * 2 ^ 53) 4503599627370496 ltac:(lia)) as Heq.
    pose proof (Z.mod_pos_bound (Zpos m * 2 ^ 53) 4503599627370496 ltac:(lia)) as Hr.
    unfold Z.modulo in Hr.
    destruct (Z.div_eucl (Zpos m * 2 ^ 53) 4503599627370496) as [q r].
    change (2 ^ 53) with 9007199254740992 in *.
    assert (q = Zpos m~0 /\ r = 0) as [-> ->] by lia. reflexivity. }
  rewrite Hdiv. cbn [new_location Z.even new_location_even Z.eqb xorb].
  rewrite xorb_false_r.
  unfold binary_round_aux.
  assert (Hshr : shr_fexp prec emax (Zpos m~0) (e - ey - 53) loc_Exact
                 = ({| shr_m := Zpos m; shr_r := false; shr_s := false |}, e - ey - 52)).
  { unfold shr_fexp, Zdigits2. cbn [digits2_pos]. rewrite Pos2Z.inj_succ, Hd.
    replace (fexp prec emax (Z.succ 53 + (e - ey - 53)) - (e - ey - 53)) with 1
      by (unfold fexp, emin, prec, emax; lia).
    cbn [shr shr_record_of_loc iter_pos shr_1 orb]. f_equal. lia. }
  rewrite Hshr. cbn [shr_m loc_of_shr_record round_nearest_even].
  rewrite shr_fexp_canonical by (assumption || lia).
  cbn [shr_m]. unfold prec, emax.
  destruct (Z.leb_spec (e - ey - 52) (1024 - 53)); [reflexivity|lia].
Qed.

Lemma div_of_Z_1 (n : Z) : Z.abs n < 2 ^ 53 -> div (of_Z n) (of_Z 1) = of_Z n.
Proof.
  intros Habs. destruct (Z.eq_dec n 0) as [->|Hn]; [reflexivity|].
  destruct (of_Z_finite n Hn Habs) as (m & e & -> & Hd & He & _).
  change (of_Z 1) with (S754_finite false 4503599627370496 (-52)).
  rewrite div_normal_pow2 by (assumption || lia). f_equal. lia.
Qed.

(** [Math.floor(n / 2)] is the integer quotient. *)
Lemma Math_floor_half (n : Z) :
  0 <= n < 2 ^ 53 -> Math_floor (div (of_Z n) (of_Z 2)) = of_Z (n / 2).
Proof.
  intros Hn. destruct (Z.eq_dec n 0) as [->|Hne]; [reflexivity|].
  destruct (of_Z_finite n Hne ltac:(lia)) as (m & e & -> & Hd & He & Hm & _).
  change (of_Z 2) with (S754_finite false 4503599627370496 (-51)).
  rewrite div_normal_pow2 by (assumption || lia).
  replace (e - -51 - 52) with (e - 1) by lia.
  unfold Math_floor. destruct (Z.leb_spec 0 (e - 1)) as [H0|H0]; [lia|].
  destruct (Z.ltb_spec n 0) as [|_]; [lia|].
  unfold signed, cond_Zopp. rewrite Hm, Z.abs_eq by lia.
  replace (- (e - 1)) with (- e + 1) by lia.
  rewrite Z.shiftr_div_pow2 by lia.
  replace (- e + 1) with (Z.succ (- e)) by lia. rewrite Z.pow_succ_r by lia.
  assert (0 < 2 ^ (- e)) by (apply Z.pow_pos_nonneg; lia).
  replace (n * 2 ^ (- e) / (2 * 2 ^ (- e))) with (n / 2).
  - reflexivity.
  - rewrite Z.div_mul_cancel_r by lia. reflexivity.
Qed.

Lemma of_Z_cases (n : Z) :
  Z.abs n < 2 ^ 53 ->
  (n = 0 /\ of_Z n = S754_zero false)
  \/ (n <> 0 /\ exists m e, of_Z n = S754_finite (n <? 0) m e).
Proof.
  intros Habs. destruct (Z.eq_dec n 0) as [->|Hn]; [left; split; reflexivity|].
  right. split; [exact Hn|].
  destruct (of_Z_finite n Hn Habs) as (m & e & H & _). eauto.
Qed.

(** Numbers that denote integers compare as the integers do. *)
Lemma SFcompare_of_Z (a b : Z) :
  Z.abs a < 2 ^ 53 -> Z.abs b < 2 ^ 53 ->
  SFcompare (of_Z a) (of_Z b) = Some (a ?= b).
Proof.
  intros Ha Hb.
  assert (Hpos : forall x y mx ex my ey,
             0 < x -> 0 < y ->
             Zpos mx = x * 2 ^ (- ex) -> Zpos my = y * 2 ^ (- ey) ->
             -52 <= ex <= 0 -> -52 <= ey <= 0 ->
             2 ^ (52 + ex) <= x < 2 ^ (53 + ex) ->
             2 ^ (52 + ey) <= y < 2 ^ (53 + ey) ->
             match ex ?= ey with
             | Eq => Pos.compare_cont Eq mx my
             | Lt => Lt
             | Gt => Gt
             end = (x ?= y)).
  { intros x y mx ex my ey Hx Hy Hmx Hmy Hex Hey Hbx Hby.
    destruct (Z.compare_spec ex ey) as [->|Hlt|Hgt].
    - change (Pos.compare_cont Eq mx my) with (Zpos mx ?= Zpos my).
      rewrite Hmx, Hmy.
      assert (0 < 2 ^ (- ey)) by (apply Z.pow_pos_nonneg; lia).
      destruct (Z.compare_spec x y) as [->|Hlt|Hgt].
      * apply Z.compare_refl.
      * apply Z.compare_lt_iff. nia.
      * apply Z.compare_gt_iff. nia.
    - symmetry. apply Z.compare_lt_iff.
      assert (2 ^ (53 + ex) <= 2 ^ (52 + ey)) by (apply Z.pow_le_mono_r; lia). lia.
    - symmetry. apply Z.compare_gt_iff.
      assert (2 ^ (53 + ey) <= 2 ^ (52 + ex)) by (apply Z.pow_le_mono_r; lia). lia. }
  destruct (Z.eq_dec a 0) as [->|Hna]; destruct (Z.eq_dec b 0) as [->|Hnb].
  - reflexivity.
  - destruct (of_Z_finite b Hnb Hb) as (m & e & -> & _).
    cbn [of_Z binary_normalize SFcompare].
    destruct (Z.ltb_spec b 0); f_equal; symmetry;
      [apply Z.compare_gt_iff|apply Z.compare_lt_iff]; lia.
  - destruct (of_Z_finite a Hna Ha) as (m & e & -> & _).
    cbn [of_Z binary_normalize SFcompare].
    destruct (Z.ltb_spec a 0); f_equal; symmetry;
      [apply Z.compare_lt_iff|apply Z.compare_gt_iff]; lia.
  - destruct (of_Z_finite a Hna Ha) as (ma & ea & -> & _ & Hea & Hma & Hba).
    destruct (of_Z_finite b Hnb Hb) as (mb & eb & -> & _ & Heb & Hmb & Hbb).
    cbn [SFcompare].
    destruct (Z.ltb_spec a 0) as [Hsa|Hsa]; destruct (Z.ltb_spec b 0) as [Hsb|Hsb]; f_equal.
    + pose proof (Hpos (Z.abs a) (Z.abs b) ma ea mb eb) as H.
      replace (a ?= b) with (CompOpp (Z.abs a ?= Z.abs b)).
      * rewrite <- H by (assumption || lia). destruct (ea ?= eb); reflexivity.
      * rewrite <- Z.compare_antisym. rewrite !Z.abs_neq by lia. apply Z.compare_opp.
    + symmetry. apply Z.compare_lt_iff. lia.
    + symmetry. apply Z.compare_gt_iff. lia.
    + rewrite Z.abs_eq in Hma, Hmb, Hba, Hbb by lia.
      apply Hpos; assumption || lia.
Qed.

Lemma Math_min_of_Z (a b : Z) :
  Z.abs a < 2 ^ 53 -> Z.abs b < 2 ^ 53 ->
  Math_min (of_Z a) (of_Z b) = of_Z (Z.min a b).
Proof.
  intros Ha Hb. unfold Math_min. rewrite SFcompare_of_Z by assumption.
  unfold Z.min. destruct (Z.compare_spec a b) as [->|Hlt|Hgt]; try reflexivity.
  destruct (of_Z_cases b Hb) as [(_ & ->)|(_ & m & e & ->)]; reflexivity.
Qed.

Lemma Math_max_of_Z (a b : Z) :
  Z.abs a < 2 ^ 53 -> Z.abs b < 2 ^ 53 ->
  Math_max (of_Z a) (of_Z b) = of_Z (Z.max a b).
Proof.
  intros Ha Hb. unfold Math_max. rewrite SFcompare_of_Z by assumption.
  unfold Z.max. destruct (Z.compare_spec a b) as [->|Hlt|Hgt]; try reflexivity.
  destruct (of_Z_cases b Hb) as [(_ & ->)|(_ & m & e & ->)]; reflexivity.
Qed.

End NumFacts.

(** ** Typed arrays of integers *)

Section Int16Facts.
Import Num Audio.

Lemma ToInt16_of_Z (v : Z) :
  Z.abs v < 2 ^ 53 -> ToInt16 (of_Z v) = (v + 32768) mod 65536 - 32768.
Proof.
  intros Hv. pose proof (trunc_of_Z v Hv) as Ht. unfold ToInt16.
  destruct (of_Z_cases v Hv) as [(-> & ->)|(_ & m & e & Heq)]; [reflexivity|].
  rewrite Heq in *. rewrite Ht. reflexivity.
Qed.

Lemma newInt16Array_of_Z (n : Z) :
  0 <= n < 2 ^ 52 -> newInt16Array (of_Z n) = Ret (List.repeat 0 (Z.to_nat n)).
Proof.
  intros Hn. pose proof (trunc_of_Z n ltac:(lia)) as Ht.
  unfold newInt16Array, newInt16Array_on.
  destruct (of_Z_cases n ltac:(lia)) as [(-> & ->)|(_ & m & e & Heq)]; [reflexivity|].
  rewrite Heq in *. rewrite Ht.
  destruct (Z.leb_spec 0 n); [|lia]. destruct (Z.leb_spec n (2 ^ 52 - 1)); [|lia].
  reflexivity.
Qed.

End Int16Facts.

(** ** Decoding WAV files *)

Section WavFacts.
Import Num Pcm PcmFile Audio Wav.

Lemma int16_range (z : Z) : -32768 <= int16 z <= 32767.
Proof. unfold int16. pose proof (Z.mod_pos_bound (z + 32768) 65536 ltac:(lia)). lia. Qed.

Lemma int16_small (z : Z) : -32768 <= z <= 32767 -> int16 z = z.
Proof. intros H. unfold int16. rewrite Z.mod_small by lia. lia. Qed.

(** A frame of one channel whose sample is [v] stores [v]. *)
Lemma mixdown_mono (v : Z) :
  -32768 <= v <= 32767 -> mixdown (add (of_Z 0) (of_Z v)) 1 = v.
Proof.
  intros Hv. unfold mixdown.
  assert (Z.abs v < 2 ^ 53) by (change (2 ^ 53) with 9007199254740992; lia).
  rewrite add_zero_of_Z, div_of_Z_1, Math_round_of_Z by assumption.
  rewrite Math_min_of_Z by (assumption || (change (2 ^ 53) with 9007199254740992; lia)).
  rewrite Math_max_of_Z by (change (2 ^ 53) with 9007199254740992; lia).
  rewrite ToInt16_of_Z by (change (2 ^ 53) with 9007199254740992; lia).
  rewrite Z.mod_small by lia. lia.
Qed.

Lemma pairs_ind (P : Buffer -> Prop) :
  P [] -> (forall b, P [b]) -> (forall b0 b1 rest, P rest -> P (b0 :: b1 :: rest)) ->
  forall data, P data.
Proof.
  intros H0 H1 H2 data.
  assert (H : P data /\ forall b, P (b :: data)); [|exact (proj1 H)].
  induction data as [|b data [IH1 IH2]]; [split; [exact H0|exact H1]|].
  split; [apply IH2|]. intros b'. apply H2, IH1.
Qed.

Lemma length_samples16 (data : Buffer) :
  length (samples16 data) = (length data / 2)%nat.
Proof.
  induction data as [|b|b0 b1 rest IH] using pairs_ind; [reflexivity|reflexivity|].
  cbn [samples16 length]. rewrite IH.
  change (S (S (length rest))) with (1 * 2 + length rest)%nat.
  rewrite Nat.div_add_l by lia. reflexivity.
Qed.

Lemma samples16_lookup (data : Buffer) :
  forall (k : nat) (b0 b1 : byte),
    data !! (2 * k)%nat = Some b0 -> data !! (2 * k + 1)%nat = Some b1 ->
    samples16 data !! k = Some (int16 (Z.lor (u8 b0) (Z.shiftl (u8 b1) 8))).
Proof.
  induction data as [|b|c0 c1 rest IH] using pairs_ind; intros k b0 b1 H0 H1.
  - discriminate H0.
  - destruct k; [discriminate H1|]. cbn in H0.
    replace (k + S (k + 0))%nat with (S (2 * k)) in H0 by lia. discriminate H0.
  - destruct k as [|k].
    + cbn in H0, H1. inversion H0; inversion H1; subst. reflexivity.
    + replace (2 * S k)%nat with (S (S (2 * k))) in H0 by lia.
      replace (2 * S k + 1)%nat with (S (S (2 * k + 1))) in H1 by lia.
      cbn [samples16]. apply (IH k b0 b1 H0 H1).
Qed.

(** The frame loop on 16-bit mono data. *)
Lemma frames_pcm_mono16 (data : Buffer) (steps : nat) :
  forall (i : nat) (out : Int16Array),
    (i + steps <= length out)%nat ->
    (2 * (i + steps) <= length data)%nat ->
    exists out',
      frames_pcm data 16 2 1 steps i out = Ret (Some out')
      /\ length out' = length out
      /\ forall k, out' !! k
                   = if (i <=? k)%nat && (k <? i + steps)%nat then samples16 data !! k
                     else out !! k.
Proof.
  induction steps as [|steps IH]; intros i out Hout Hdata.
  - exists out. split; [reflexivity|]. split; [reflexivity|].
    intros k. destruct (Nat.leb_spec i k); destruct (Nat.ltb_spec k (i + 0)); cbn; try reflexivity.
    lia.
  - cbn [frames_pcm].
    change (Z.to_nat 1) with 1%nat. cbn [mix_pcm].
    replace ((i * 1 + 0) * 2)%nat with (2 * i)%nat by lia.
    destruct (lookup_lt_is_Some_2 data (2 * i)%nat ltac:(lia)) as (b0 & Hb0).
    destruct (lookup_lt_is_Some_2 data (2 * i + 1)%nat ltac:(lia)) as (b1 & Hb1).
    unfold sample_pcm. change (16 =? 16) with true. cbn match.
    unfold readInt16LE, getUint16LE, getUint8. rewrite Hb0, Hb1. cbn [bindR].
    rewrite mixdown_mono by apply int16_range.
    destruct (IH (S i) (<[i := int16 (Z.lor (u8 b0) (Z.shiftl (u8 b1) 8))]> out))
      as (out' & Hrun & Hlen & Hlook).
    { rewrite length_insert. lia. }
    { lia. }
    exists out'. split; [exact Hrun|]. split; [rewrite Hlen; apply length_insert|].
    intros k. rewrite Hlook.
    destruct (Nat.eq_dec k i) as [->|Hne].
    + destruct (Nat.leb_spec (S i) i); [lia|]. cbn [andb].
      rewrite list_lookup_insert_eq by lia.
      destruct (Nat.leb_spec i i); [|lia]. destruct (Nat.ltb_spec i (i + S steps)); [|lia].
      cbn [andb]. symmetry. apply (samples16_lookup data i b0 b1 Hb0 Hb1).
    + rewrite list_lookup_insert_ne by congruence.
      destruct (Nat.leb_spec (S i) k); destruct (Nat.leb_spec i k);
        destruct (Nat.ltb_spec k (S i + steps)); destruct (Nat.ltb_spec k (i + S steps));
        cbn [andb]; try reflexivity; lia.
Qed.

(** *** One round of the chunk walk *)

Lemma chunks_at_end (fuel : nat) (wavBuffer : Buffer) (offset : nat) (format : Format) :
  (length wavBuffer < offset + 8)%nat ->
  chunks fuel wavBuffer offset format = Ret (NoDataChunk format).
Proof.
  intros H. destruct fuel as [|fuel]; [reflexivity|]. cbn [chunks].
  destruct (Nat.leb_spec (offset + 8) (length wavBuffer)); [lia|reflexivity].
Qed.

Lemma chunks_at_fmt (fuel : nat) (wavBuffer : Buffer) (offset : nat) (format : Format)
    (chunkSize audioFormat channels sampleRate bitsPerSample : Z) :
  (offset + 8 <= length wavBuffer)%nat ->
  readUInt32LE wavBuffer (offset + 4) = Ret chunkSize ->
  ascii_equals wavBuffer offset (offset + 4) "fmt " = true ->
  16 <= chunkSize ->
  readUInt16LE wavBuffer (offset + 8) = Ret audioFormat ->
  readUInt16LE wavBuffer (offset + 8 + 2) = Ret channels ->
  readUInt32LE wavBuffer (offset + 8 + 4) = Ret sampleRate ->
  readUInt16LE wavBuffer (offset + 8 + 14) = Ret bitsPerSample ->
  chunks (S fuel) wavBuffer offset format
  = chunks fuel wavBuffer (offset + 8 + Z.to_nat chunkSize)
      (mkFormat true audioFormat channels sampleRate bitsPerSample).
Proof.
  intros Hfit Hsize Hid Hge H1 H2 H3 H4. cbn [chunks].
  destruct (Nat.leb_spec (offset + 8) (length wavBuffer)); [|lia].
  rewrite Hsize. cbn [bindR]. rewrite Hid.
  destruct (Z.leb_spec 16 chunkSize); [|lia].
  rewrite H1. cbn [bindR]. rewrite H2. cbn [bindR]. rewrite H3. cbn [bindR].
  rewrite H4. reflexivity.
Qed.

Lemma chunks_at_data (fuel : nat) (wavBuffer : Buffer) (offset : nat) (format : Format)
    (chunkSize : Z) :
  (offset + 8 <= length wavBuffer)%nat ->
  readUInt32LE wavBuffer (offset + 4) = Ret chunkSize ->
  ascii_equals wavBuffer offset (offset + 4) "fmt " = false ->
  ascii_equals wavBuffer offset (offset + 4) "data" = true ->
  chunks (S fuel) wavBuffer offset format
  = Ret (DataChunk format (offset + 8) chunkSize).
Proof.
  intros Hfit Hsize Hfmt Hdata. cbn [chunks].
  destruct (Nat.leb_spec (offset + 8) (length wavBuffer)); [|lia].
  rewrite Hsize. cbn [bindR]. rewrite Hfmt, Hdata. reflexivity.
Qed.

Lemma chunks_at_other (fuel : nat) (wavBuffer : Buffer) (offset : nat) (format : Format)
    (chunkSize : Z) :
  (offset + 8 <= length wavBuffer)%nat ->
  readUInt32LE wavBuffer (offset + 4) = Ret chunkSize ->
  ascii_equals wavBuffer offset (offset + 4) "fmt " = false ->
  ascii_equals wavBuffer offset (offset + 4) "data" = false ->
  chunks (S fuel) wavBuffer offset format
  = chunks fuel wavBuffer (offset + 8 + Z.to_nat chunkSize) format.
Proof.
  intros Hfit Hsize Hfmt Hdata. cbn [chunks].
  destruct (Nat.leb_spec (offset + 8) (length wavBuffer)); [|lia].
  rewrite Hsize. cbn [bindR]. rewrite Hfmt, Hdata. reflexivity.
Qed.

(** The walk never runs out of rounds: with enough fuel for the bytes that
    are left, one more round of fuel changes nothing. *)
Lemma chunks_fuel (fuel : nat) (wavBuffer : Buffer) :
  forall (offset : nat) (format : Format),
    (length wavBuffer < offset + 8 + 8 * fuel)%nat ->
    chunks (S fuel) wavBuffer offset format = chunks fuel wavBuffer offset format.
Proof.
  induction fuel as [|fuel IH]; intros offset format Hlen.
  - rewrite !chunks_at_end by lia. reflexivity.
  - remember (S fuel) as fuel' eqn:Hf. cbn [chunks]. subst fuel'. cbn [chunks].
    destruct (Nat.leb_spec (offset + 8) (length wavBuffer)); [|reflexivity].
    destruct (readUInt32LE wavBuffer (offset + 4)) as [chunkSize|err]; [|reflexivity].
    cbn [bindR].
    destruct (ascii_equals wavBuffer offset (offset + 4) "fmt ").
    + match goal with
      | |- bindR ?r _ = bindR ?r _ => destruct r as [format'|err]; [|reflexivity]
      end.
      cbn [bindR]. apply IH. lia.
    + destruct (ascii_equals wavBuffer offset (offset + 4) "data"); [reflexivity|].
      apply IH. lia.
Qed.

Lemma uint32_range (b0 b1 b2 b3 : byte) : 0 <= uint32 b0 b1 b2 b3 < 2 ^ 32.
Proof.
  unfold uint32. rewrite le32.
  pose proof (u8_range b0). pose proof (u8_range b1).
  pose proof (u8_range b2). pose proof (u8_range b3).
  change (2 ^ 32) with 4294967296. lia.
Qed.

(** What the decoder makes of 16-bit mono data once it has found it. *)
Lemma decodeData_mono16 (data : Buffer) (sampleRate : Z) :
  Z.of_nat (length data) < 2 ^ 53 ->
  decodeData (mkFormat true 1 1 sampleRate 16) data
  = Ret (Some (mkDecodedAudio (samples16 data) sampleRate)).
Proof.
  intros Hlen. unfold decodeData, totalFrames.
  cbn [audioFormat Wav.channels Wav.bitsPerSample fmt_sampleRate].
  change (1 =? 1) with true. cbn match.
  change ((16 + 7) / 8) with 2. change (2 * 1) with 2. change (Z.to_nat 2) with 2%nat.
  rewrite Math_floor_half by lia.
  rewrite newInt16Array_of_Z
    by (split; [apply Z.div_pos; lia|apply Z.div_lt_upper_bound; lia]).
  cbn [bindR]. rewrite repeat_length.
  replace (Z.to_nat (Z.of_nat (length data) / 2)) with (length data / 2)%nat
    by (change 2 with (Z.of_nat 2); rewrite <- Nat2Z.inj_div, Nat2Z.id; reflexivity).
  pose proof (Nat.Div0.mul_div_le (length data) 2) as Hdiv.
  destruct (frames_pcm_mono16 data (length data / 2) 0
              (List.repeat 0 (length data / 2)))
    as (out' & Hrun & Hlen' & Hlook).
  { rewrite repeat_length. lia. }
  { lia. }
  rewrite Hrun. cbn [bindR]. do 3 f_equal.
  apply list_eq. intros k. rewrite Hlook. cbn [Nat.leb andb Nat.add].
  destruct (Nat.ltb_spec k (length data / 2)) as [Hk|Hk]; [reflexivity|].
  rewrite (lookup_ge_None_2 (samples16 data)) by (rewrite length_samples16; lia).
  apply lookup_ge_None_2. rewrite repeat_length. lia.
Qed.

(** A file with the canonical 44-byte layout: the RIFF header, a format
    chunk of sixteen bytes, the data chunk.  The walk finds the format and
    the data, whatever the format says. *)
Lemma decode_canonical
    (x4 x5 x6 x7 f0 f1 c0 c1 r0 r1 r2 r3 y0 y1 y2 y3 y4 y5 b0 b1 s0 s1 s2 s3 : byte)
    (rest : Buffer) :
  uint32 s0 s1 s2 s3 <= Z.of_nat (length rest) ->
  decodeWavToInt16Mono
    ([x52; x49; x46; x46; x4; x5; x6; x7; x57; x41; x56; x45;
      x66; x6d; x74; x20; x10; x00; x00; x00; f0; f1; c0; c1;
      r0; r1; r2; r3; y0; y1; y2; y3; y4; y5; b0; b1;
      x64; x61; x74; x61; s0; s1; s2; s3] ++ rest)
  = decodeData (mkFormat true (uint16 f0 f1) (uint16 c0 c1) (uint32 r0 r1 r2 r3)
                  (uint16 b0 b1))
      (take (Z.to_nat (uint32 s0 s1 s2 s3)) rest).
Proof.
  intros Hsize. pose proof (uint32_range s0 s1 s2 s3) as Hrange.
  remember ([x52; x49; x46; x46; x4; x5; x6; x7; x57; x41; x56; x45;
             x66; x6d; x74; x20; x10; x00; x00; x00; f0; f1; c0; c1;
             r0; r1; r2; r3; y0; y1; y2; y3; y4; y5; b0; b1;
             x64; x61; x74; x61; s0; s1; s2; s3] ++ rest) as buf eqn:Hbuf.
  assert (Hlen : length buf = (44 + length rest)%nat) by (subst buf; reflexivity).
  assert (Hdrop : drop 44 buf = rest) by (subst buf; reflexivity).
  assert (Hriff : ascii_equals buf 0 4 "RIFF" = true) by (subst buf; vm_compute; reflexivity).
  assert (Hwave : ascii_equals buf 8 12 "WAVE" = true) by (subst buf; vm_compute; reflexivity).
  assert (Hfmt : ascii_equals buf 12 (12 + 4) "fmt " = true)
    by (subst buf; vm_compute; reflexivity).
  assert (Hnofmt : ascii_equals buf 36 (36 + 4) "fmt " = false)
    by (subst buf; vm_compute; reflexivity).
  assert (Hdata : ascii_equals buf 36 (36 + 4) "data" = true)
    by (subst buf; vm_compute; reflexivity).
  assert (H16 : readUInt32LE buf (12 + 4) = Ret 16) by (subst buf; reflexivity).
  assert (Hformat : readUInt16LE buf (12 + 8) = Ret (uint16 f0 f1))
    by (subst buf; reflexivity).
  assert (Hchannels : readUInt16LE buf (12 + 8 + 2) = Ret (uint16 c0 c1))
    by (subst buf; reflexivity).
  assert (Hrate : readUInt32LE buf (12 + 8 + 4) = Ret (uint32 r0 r1 r2 r3))
    by (subst buf; reflexivity).
  assert (Hbits : readUInt16LE buf (12 + 8 + 14) = Ret (uint16 b0 b1))
    by (subst buf; reflexivity).
  assert (Hdsize : readUInt32LE buf (36 + 4) = Ret (uint32 s0 s1 s2 s3))
    by (subst buf; reflexivity).
  clear Hbuf.
  unfold decodeWavToInt16Mono.
  destruct (Nat.ltb_spec (length buf) 44); [lia|].
  rewrite Hriff, Hwave. cbn [negb orb].
  rewrite Hlen. change (44 + length rest)%nat with (S (S (42 + length rest))).
  rewrite (chunks_at_fmt _ buf 12 format0 16 (uint16 f0 f1) (uint16 c0 c1)
             (uint32 r0 r1 r2 r3) (uint16 b0 b1))
    by (assumption || lia).
  change (12 + 8 + Z.to_nat 16)%nat with 36%nat.
  rewrite (chunks_at_data _ buf 36 _ (uint32 s0 s1 s2 s3)) by (assumption || lia).
  cbn [bindR fmtFound negb].
  destruct (Z.ltb_spec (Z.of_nat (S (S (42 + length rest))))
              (Z.of_nat (36 + 8) + uint32 s0 s1 s2 s3)); [lia|].
  change (36 + 8)%nat with 44%nat. rewrite Hdrop. reflexivity.
Qed.

Lemma decode_mono16
    (x4 x5 x6 x7 r0 r1 r2 r3 y0 y1 y2 y3 y4 y5 s0 s1 s2 s3 : byte) (rest : Buffer) :
  uint32 s0 s1 s2 s3 <= Z.of_nat (length rest) ->
  decodeWavToInt16Mono
    ([x52; x49; x46; x46; x4; x5; x6; x7; x57; x41; x56; x45;
      x66; x6d; x74; x20; x10; x00; x00; x00; x01; x00; x01; x00;
      r0; r1; r2; r3; y0; y1; y2; y3; y4; y5; x10; x00;
      x64; x61; x74; x61; s0; s1; s2; s3] ++ rest)
  = Ret (Some (mkDecodedAudio
                 (samples16 (take (Z.to_nat (uint32 s0 s1 s2 s3)) rest))
                 (uint32 r0 r1 r2 r3))).
Proof.
  intros Hsize. pose proof (uint32_range s0 s1 s2 s3) as Hrange.
  rewrite decode_canonical by exact Hsize.
  change (uint16 x01 x00) with 1. change (uint16 x10 x00) with 16.
  apply decodeData_mono16. rewrite length_take.
  change (2 ^ 53) with 9007199254740992. change (2 ^ 32) with 4294967296 in Hrange. lia.
Qed.

(** X24.  A WAV file with the canonical 44-byte header of 16-bit mono PCM
    decodes to the samples of its data chunk, read as little-endian signed
    16-bit numbers, at the sample rate of the header.  The data chunk may
    be shorter than what follows the header, the rest is then ignored; a
    last odd byte holds no sample.  The RIFF size, the byte rate and the
    block alignment of the header are not looked at. *)
Theorem decodeWavToInt16Mono_mono16
    (x4 x5 x6 x7 r0 r1 r2 r3 y0 y1 y2 y3 y4 y5 s0 s1 s2 s3 : byte) (rest : Buffer) :
  uint32 s0 s1 s2 s3 <= Z.of_nat (length rest) ->
  decodeWavToInt16Mono
    ([x52; x49; x46; x46; x4; x5; x6; x7; x57; x41; x56; x45;
      x66; x6d; x74; x20; x10; x00; x00; x00; x01; x00; x01; x00;
      r0; r1; r2; r3; y0; y1; y2; y3; y4; y5; x10; x00;
      x64; x61; x74; x61; s0; s1; s2; s3] ++ rest)
  = Ret (Some (mkDecodedAudio
                 (samples16 (take (Z.to_nat (uint32 s0 s1 s2 s3)) rest))
                 (uint32 r0 r1 r2 r3))).
Proof. apply decode_mono16. Qed.

Lemma decodeWavToInt16Mono_mono16_witness :
  decodeWavToInt16Mono
    ([x52; x49; x46; x46; x00; x00; x00; x00; x57; x41; x56; x45;
      x66; x6d; x74; x20; x10; x00; x00; x00; x01; x00; x01; x00;
      x80; x3e; x00; x00; x00; x00; x00; x00; x00; x00; x10; x00;
      x64; x61; x74; x61; x04; x00; x00; x00] ++ [x01; x00; xff; xff; x07])
  = Ret (Some (mkDecodedAudio
                 (samples16 (take (Z.to_nat (uint32 x04 x00 x00 x00))
                               [x01; x00; xff; xff; x07]))
                 (uint32 x80 x3e x00 x00))).
Proof.
  apply (decodeWavToInt16Mono_mono16 x00 x00 x00 x00 x80 x3e x00 x00
           x00 x00 x00 x00 x00 x00 x04 x00 x00 x00 [x01; x00; xff; xff; x07]).
  vm_compute. discriminate.
Defined.

(** The bytes of a number written by [writeUInt32LE] read back as the
    number. *)
Lemma uint32_le_bytes (v : Z) :
  0 <= v < 2 ^ 32 ->
  uint32 (byte_of_Z (Z.shiftr v 0)) (byte_of_Z (Z.shiftr v 8))
    (byte_of_Z (Z.shiftr v 16)) (byte_of_Z (Z.shiftr v 24)) = v.
Proof.
  intros Hv. unfold uint32. rewrite le32, !u8_byte_of_Z, !Z.shiftr_div_pow2 by lia.
  change (2 ^ 0) with 1. change (2 ^ 8) with 256. change (2 ^ 16) with 65536.
  change (2 ^ 24) with 16777216. change (2 ^ 32) with 4294967296 in Hv.
  rewrite Z.div_1_r.
  pose proof (Z.div_mod v 256 ltac:(lia)) as H0.
  pose proof (Z.div_mod (v / 256) 256 ltac:(lia)) as H1.
  pose proof (Z.div_mod (v / 65536) 256 ltac:(lia)) as H2.
  pose proof (Z.div_mod (v / 16777216) 256 ltac:(lia)) as H3.
  replace (v / 256 / 256) with (v / 65536) in H1 by (rewrite Z.div_div by lia; reflexivity).
  replace (v / 65536 / 256) with (v / 16777216) in H2
    by (rewrite Z.div_div by lia; reflexivity).
  replace (v / 16777216 / 256) with 0 in H3
    by (rewrite Z.div_div by lia; symmetry; apply Z.div_small; lia).
  lia.
Qed.

Lemma decode_wrap (pcmData : Buffer) (sampleRate : Z) :
  Z.of_nat (length pcmData) <= 2 ^ 32 - 37 ->
  0 <= sampleRate < 2 ^ 31 ->
  exists wav,
    wrapPcmToWav pcmData sampleRate 1 16 = Ret wav
    /\ decodeWavToInt16Mono wav
       = Ret (Some (mkDecodedAudio (samples16 pcmData) sampleRate)).
Proof.
  intros Hlen Hrate.
  change (2 ^ 32) with 4294967296 in Hlen. change (2 ^ 31) with 2147483648 in Hrate.
  destruct (createWavHeader_bytes (Z.of_nat (length pcmData)) sampleRate 1 16)
    as (header & Hheader & _ & Hbytes);
    try (change (2 ^ 32) with 4294967296; change (2 ^ 16) with 65536; lia).
  unfold wrapPcmToWav. rewrite Hheader. cbn [bindR].
  eexists. split; [reflexivity|]. rewrite Hbytes.
  change (bytes_of_string "RIFF") with [x52; x49; x46; x46].
  change (bytes_of_string "WAVE") with [x57; x41; x56; x45].
  change (bytes_of_string "fmt ") with [x66; x6d; x74; x20].
  change (bytes_of_string "data") with [x64; x61; x74; x61].
  change (le_bytes 4 16) with [x10; x00; x00; x00].
  change (le_bytes 2 1) with [x01; x00].
  change (le_bytes 2 16) with [x10; x00].
  change (le_bytes 2 (1 * 16 / 8)) with [x02; x00].
  cbn [le_bytes List.map seq app].
  change (8 * Z.of_nat 0) with 0. change (8 * Z.of_nat 1) with 8.
  change (8 * Z.of_nat 2) with 16. change (8 * Z.of_nat 3) with 24.
  etransitivity.
  - apply decode_mono16.
    rewrite uint32_le_bytes by (change (2 ^ 32) with 4294967296; lia). lia.
  - rewrite !uint32_le_bytes by (change (2 ^ 32) with 4294967296; lia).
    rewrite Nat2Z.id, firstn_all. reflexivity.
Qed.

(** X25.  For data of at most 2^32 - 37 bytes and a sample rate below
    2^31, [decodeWavToInt16Mono] reads back what [wrapPcmToWav] wrote as
    16-bit mono: the samples of the data, little-endian, at the same sample
    rate. *)
Theorem decodeWavToInt16Mono_wrapPcmToWav (pcmData : Buffer) (sampleRate : Z) :
  Z.of_nat (length pcmData) <= 2 ^ 32 - 37 ->
  0 <= sampleRate < 2 ^ 31 ->
  exists wav,
    wrapPcmToWav pcmData sampleRate 1 16 = Ret wav
    /\ decodeWavToInt16Mono wav
       = Ret (Some (mkDecodedAudio (samples16 pcmData) sampleRate)).
Proof. apply decode_wrap. Qed.

Lemma decodeWavToInt16Mono_wrapPcmToWav_witness :
  exists wav,
    wrapPcmToWav [x01; x00; xff; xff] 16000 1 16 = Ret wav
    /\ decodeWavToInt16Mono wav
       = Ret (Some (mkDecodedAudio (samples16 [x01; x00; xff; xff]) 16000)).
Proof.
  apply (decodeWavToInt16Mono_wrapPcmToWav [x01; x00; xff; xff] 16000).
  - vm_compute. discriminate.
  - lia.
Defined.

(** The bytes of the samples of a buffer are the buffer, less a last odd
    byte. *)
Lemma int16_bytes_samples16 (data : Buffer) :
  int16_bytes (samples16 data) = take (2 * (length data / 2)) data.
Proof.
  induction data as [|b|b0 b1 rest IH] using pairs_ind; [reflexivity|reflexivity|].
  cbn [samples16 length].
  change (S (S (length rest))) with (1 * 2 + length rest)%nat.
  rewrite Nat.div_add_l by lia.
  replace (2 * (1 + length rest / 2))%nat with (S (S (2 * (length rest / 2)))) by lia.
  cbn [take]. unfold int16_bytes in *. cbn [flat_map app]. rewrite IH.
  pose proof (u8_range b0). pose proof (u8_range b1).
  rewrite le16. unfold int16.
  set (w := u8 b0 + 256 * u8 b1).
  assert (Hcases : (w + 32768) mod 65536 - 32768 = w
                   \/ (w + 32768) mod 65536 - 32768 = w - 65536).
  { destruct (Z.ltb_spec w 32768).
    - left. rewrite Z.mod_small by lia. lia.
    - right. replace (w + 32768) with (w - 32768 + 1 * 65536) by lia.
      rewrite Z.mod_add by lia. rewrite Z.mod_small by lia. lia. }
  f_equal; [|f_equal]; apply u8_inj; rewrite u8_byte_of_Z, ?Z.shiftr_div_pow2 by lia;
    change (2 ^ 8) with 256; symmetry.
  - destruct Hcases as [-> | ->].
    + apply Z.mod_unique with (q := u8 b1); lia.
    + apply Z.mod_unique with (q := u8 b1 - 256); lia.
  - destruct Hcases as [-> | ->].
    + replace (w / 256) with (u8 b1)
        by (apply Z.div_unique with (r := u8 b0); lia).
      apply Z.mod_unique with (q := 0); lia.
    + replace ((w - 65536) / 256) with (u8 b1 - 256)
        by (apply Z.div_unique with (r := u8 b0); lia).
      apply Z.mod_unique with (q := -1); lia.
Qed.

Lemma strict_eq_of_Z (n : Z) : Z.abs n < 2 ^ 53 -> strict_eq (of_Z n) (of_Z n) = true.
Proof.
  intros Hn. unfold strict_eq, SFeqb. rewrite SFcompare_of_Z by assumption.
  rewrite Z.compare_refl. reflexivity.
Qed.

(** X26.  From PCM1 to WAV and back: a PCM1 file of 16-bit mono data of
    even length, made by [createPcmWithHeader], is converted by
    [convertPcmToWav] into a WAV file that [convertWavToPcmWithHeader], at
    the same target rate, converts back into the very same PCM1 file. *)
Theorem pcm_wav_pcm_roundtrip (pcmData : Buffer) (sampleRate : Z) :
  Z.of_nat (length pcmData) <= 2 ^ 32 - 37 ->
  0 <= sampleRate < 2 ^ 31 ->
  (length pcmData mod 2 = 0)%nat ->
  exists file wav,
    createPcmWithHeader pcmData sampleRate 1 16 = Ret file
    /\ convertPcmToWav file = Ret (Some wav)
    /\ convertWavToPcmWithHeader wav sampleRate = Ret (Some file).
Proof.
  intros Hlen Hrate Heven.
  destruct (createPcmWithHeader_spec pcmData sampleRate 1 16) as (file & Hfile & _ & Hextract);
    try (change (2 ^ 32) with 4294967296; change (2 ^ 31) with 2147483648 in Hrate;
         change (2 ^ 8) with 256; lia).
  destruct (decode_wrap pcmData sampleRate Hlen Hrate) as (wav & Hwav & Hdecode).
  exists file, wav. split; [exact Hfile|]. split.
  - unfold convertPcmToWav. rewrite Hextract. cbn [bindR PcmFile.sampleRate
      PcmFile.channels PcmFile.bitsPerSample]. rewrite Hwav. reflexivity.
  - unfold convertWavToPcmWithHeader. rewrite Hdecode. cbn [bindR Wav.pcm Wav.sampleRate].
    unfold resampleInt16Mono, resampleInt16Mono_on. rewrite strict_eq_of_Z
      by (change (2 ^ 53) with 9007199254740992;
          change (2 ^ 31) with 2147483648 in Hrate; lia).
    cbn [bindR]. rewrite int16_bytes_samples16.
    replace (2 * (length pcmData / 2))%nat with (length pcmData)
      by (pose proof (Nat.div_mod_eq (length pcmData) 2); lia).
    rewrite firstn_all, Hfile. reflexivity.
Qed.

Lemma pcm_wav_pcm_roundtrip_witness :
  exists file wav,
    createPcmWithHeader [x01; x00; xff; xff] 16000 1 16 = Ret file
    /\ convertPcmToWav file = Ret (Some wav)
    /\ convertWavToPcmWithHeader wav 16000 = Ret (Some file).
Proof.
  apply (pcm_wav_pcm_roundtrip [x01; x00; xff; xff] 16000).
  - vm_compute. discriminate.
  - lia.
  - reflexivity.
Defined.

(** X27.  A file with the canonical 44-byte layout whose format chunk
    declares PCM with zero channels, and whose data chunk is not empty,
    makes [decodeWavToInt16Mono] raise a RangeError instead of answering
    null: the frame count is infinite, and no array of that length can be
    made. *)
Theorem decodeWavToInt16Mono_zero_channels
    (x4 x5 x6 x7 r0 r1 r2 r3 y0 y1 y2 y3 y4 y5 b0 b1 s0 s1 s2 s3 : byte) (rest : Buffer) :
  1 <= uint32 s0 s1 s2 s3 <= Z.of_nat (length rest) ->
  decodeWavToInt16Mono
    ([x52; x49; x46; x46; x4; x5; x6; x7; x57; x41; x56; x45;
      x66; x6d; x74; x20; x10; x00; x00; x00; x01; x00; x00; x00;
      r0; r1; r2; r3; y0; y1; y2; y3; y4; y5; b0; b1;
      x64; x61; x74; x61; s0; s1; s2; s3] ++ rest)
  = Throw RangeError.
Proof.
  intros [Hne Hsize]. pose proof (uint32_range s0 s1 s2 s3) as Hrange.
  rewrite decode_canonical by exact Hsize.
  change (uint16 x01 x00) with 1. change (uint16 x00 x00) with 0.
  unfold decodeData, totalFrames.
  cbn [audioFormat Wav.channels Wav.bitsPerSample fmt_sampleRate].
  change (1 =? 1) with true. cbn match. rewrite Z.mul_0_r.
  rewrite length_take.
  assert (Hlen : Z.of_nat (Z.to_nat (uint32 s0 s1 s2 s3) `min` length rest)
                 = uint32 s0 s1 s2 s3) by lia.
  rewrite Hlen.
  destruct (of_Z_finite (uint32 s0 s1 s2 s3)) as (m & e & -> & _).
  { lia. }
  { change (2 ^ 53) with 9007199254740992. change (2 ^ 32) with 4294967296 in Hrange. lia. }
  reflexivity.
Qed.

Lemma decodeWavToInt16Mono_zero_channels_witness :
  decodeWavToInt16Mono
    ([x52; x49; x46; x46; x00; x00; x00; x00; x57; x41; x56; x45;
      x66; x6d; x74; x20; x10; x00; x00; x00; x01; x00; x00; x00;
      x80; x3e; x00; x00; x00; x00; x00; x00; x00; x00; x10; x00;
      x64; x61; x74; x61; x02; x00; x00; x00] ++ [x01; x00])
  = Throw RangeError.
Proof.
  apply (decodeWavToInt16Mono_zero_channels x00 x00 x00 x00 x80 x3e x00 x00
           x00 x00 x00 x00 x00 x00 x10 x00 x02 x00 x00 x00 [x01; x00]).
  vm_compute. split; discriminate.
Defined.

(** More fuel than the bytes left need changes nothing. *)
Lemma chunks_more (wavBuffer : Buffer) (n : nat) :
  forall (fuel offset : nat) (format : Format),
    (length wavBuffer < offset + 8 + 8 * n)%nat ->
    (n <= fuel)%nat ->
    chunks fuel wavBuffer offset format = chunks n wavBuffer offset format.
Proof.
  intros fuel offset format Hlen Hfuel.
  replace fuel with ((fuel - n) + n)%nat by lia.
  induction (fuel - n)%nat as [|more IH]; [reflexivity|].
  cbn [Nat.add]. rewrite chunks_fuel by lia. exact IH.
Qed.

(** [chunks] is [chunk_round] after [chunk_round]. *)
Lemma chunks_round (fuel : nat) (wavBuffer : Buffer) (offset : nat) (format : Format) :
  chunks (S fuel) wavBuffer offset format
  = (let* r := chunk_round wavBuffer offset format in
     match r with
     | Stop walk => Ret walk
     | Next offset format => chunks fuel wavBuffer offset format
     end).
Proof.
  cbn [chunks]. unfold chunk_round.
  destruct (offset + 8 <=? length wavBuffer)%nat; [|reflexivity].
  destruct (readUInt32LE wavBuffer (offset + 4)) as [chunkSize|e]; [|reflexivity].
  cbn [bindR].
  destruct (ascii_equals wavBuffer offset (offset + 4) "fmt ").
  - match goal with
    | |- bindR ?r _ = _ => destruct r as [format'|e]; reflexivity
    end.
  - destruct (ascii_equals wavBuffer offset (offset + 4) "data"); reflexivity.
Qed.

(** A round that goes on has found eight bytes at its offset and goes on
    behind them. *)
Lemma chunk_round_next (wavBuffer : Buffer) (offset offset' : nat)
    (format format' : Format) :
  chunk_round wavBuffer offset format = Ret (Next offset' format') ->
  (offset + 8 <= length wavBuffer)%nat /\ (offset + 8 <= offset')%nat.
Proof.
  unfold chunk_round.
  destruct (Nat.leb_spec (offset + 8) (length wavBuffer)); [|discriminate].
  destruct (readUInt32LE wavBuffer (offset + 4)) as [chunkSize|e]; [|discriminate].
  cbn [bindR].
  destruct (ascii_equals wavBuffer offset (offset + 4) "fmt ").
  - match goal with
    | |- bindR ?r _ = _ -> _ => destruct r as [f|e]; [|discriminate]
    end.
    cbn [bindR]. intros Heq. inversion Heq. lia.
  - destruct (ascii_equals wavBuffer offset (offset + 4) "data"); [discriminate|].
    intros Heq. inversion Heq. lia.
Qed.

(** With a round for every eight bytes left, and one more, the loop has
    stopped, and [chunks] has what it stopped with. *)
Lemma chunks_in_stops (wavBuffer : Buffer) (n : nat) :
  forall (offset : nat) (format : Format),
    (length wavBuffer < offset + 8 + 8 * n)%nat ->
    chunks_in (S n) wavBuffer offset format = Some (chunks (S n) wavBuffer offset format).
Proof.
  induction n as [|n IH]; intros offset format Hlen.
  - rewrite chunks_round. cbn [chunks_in].
    destruct (chunk_round wavBuffer offset format) as [[walk|offset' format']|e] eqn:Hr;
      try reflexivity.
    apply chunk_round_next in Hr. lia.
  - rewrite chunks_round. remember (S n) as n' eqn:Hn'. cbn [chunks_in].
    destruct (chunk_round wavBuffer offset format) as [[walk|offset' format']|e] eqn:Hr;
      try reflexivity.
    apply chunk_round_next in Hr. cbn [bindR]. subst n'. apply IH. lia.
Qed.

Lemma chunks_in_length (wavBuffer : Buffer) (offset : nat) (format : Format) :
  chunks_in (S (length wavBuffer / 8)) wavBuffer offset format
  = Some (chunks (length wavBuffer) wavBuffer offset format).
Proof.
  pose proof (Nat.div_mod_eq (length wavBuffer) 8) as Hdiv.
  pose proof (Nat.mod_upper_bound (length wavBuffer) 8 ltac:(lia)) as Hmod.
  rewrite chunks_in_stops by lia. f_equal.
  destruct (Nat.le_gt_cases (length wavBuffer) 0) as [Hzero|Hpos].
  - rewrite !chunks_at_end by lia. reflexivity.
  - rewrite (chunks_more wavBuffer (length wavBuffer / 8) (S (length wavBuffer / 8)))
      by lia.
    rewrite (chunks_more wavBuffer (length wavBuffer / 8) (length wavBuffer)) by lia.
    reflexivity.
Qed.

(** X28.  The chunk walk ends on every buffer, whatever the chunk sizes
    say and wherever it starts: within one round for every eight bytes of
    the buffer, and one more, the loop has stopped, at a data chunk, at
    the end of the buffer or by raising; what it has stopped with is what
    the decoder goes on with. *)
Theorem chunks_ends (wavBuffer : Buffer) (offset : nat) (format : Format) :
  chunks_in (S (length wavBuffer / 8)) wavBuffer offset format
  = Some (chunks (length wavBuffer) wavBuffer offset format).
Proof. apply chunks_in_length. Qed.

(** A chunk that claims four gigabytes in a buffer of twenty bytes: the
    loop stops in its second round, at the end of the buffer. *)
Example chunks_in_lying_size :
  chunks_in 1 [x52; x49; x46; x46; x00; x00; x00; x00; x57; x41; x56; x45;
               x4c; x49; x53; x54; xff; xff; xff; xff] 12 format0 = None
  /\ chunks_in 2 [x52; x49; x46; x46; x00; x00; x00; x00; x57; x41; x56; x45;
                  x4c; x49; x53; x54; xff; xff; xff; xff] 12 format0
     = Some (Ret (NoDataChunk format0)).
Proof. split; reflexivity. Qed.

End WavFacts.

(** ** The voice server *)

Section VoiceFacts.
Import Pcm Ws Session SessionMore Voice.


Lemma with_manager_same (server : VoiceServer) :
  with_manager server (sessionManager server) = server.
Proof. destruct server. reflexivity. Qed.



(** A message for a session id that the manager does not hold changes
    nothing. *)
Lemma onMessage_absent (sid : string) (message : MessageType) (env : Env)
    (server : VoiceServer) :
  sessions (sessionManager server) !! sid = None ->
  exists eff, onMessage sid message env server = (Ret tt, server, eff).
Proof.
  intros Hnone. destruct message as [data header | data | | text]; cbn [onMessage].
  - unfold handleHeader, setHeader. rewrite Hnone. rewrite with_manager_same. eauto.
  - unfold handleAudio, addChunk. rewrite Hnone. rewrite with_manager_same. eauto.
  - unfold handleEnd, endSession. rewrite Hnone. rewrite with_manager_same. eauto.
  - unfold handleText, setSessionData. rewrite Hnone.
    destruct (String.prefix "AUTH:" text); [|eauto].
    destruct (negb _); [|eauto]. rewrite with_manager_same. eauto.
Qed.

Lemma onMessages_absent (sid : string) (messages : list (MessageType * Env)) :
  forall server,
    sessions (sessionManager server) !! sid = None ->
    exists eff, onMessages sid messages server = (Ret tt, server, eff).
Proof.
  induction messages as [|[message env] messages IH]; intros server Hnone.
  - exists []. reflexivity.
  - cbn [onMessages].
    destruct (onMessage_absent sid message env server Hnone) as (eff & ->).
    destruct (IH server Hnone) as (eff' & ->). eauto.
Qed.

Lemma handleEnd_removes (sid : string) (env : Env) (server : VoiceServer) :
  newSessionId env <> sid ->
  sessions (sessionManager (snd (fst (handleEnd sid env server)))) !! sid = None.
Proof.
  intros Hne.
  destruct (sessions (sessionManager server) !! sid) as [session|] eqn:Hs.
  - set (m1 := set_sessions (sessionManager server)
                 (delete sid (sessions (sessionManager server)))
                 (delete sid (lastActivity (sessionManager server)))).
    assert (Hend : exists ev1, endSession sid Returns (sessionManager server)
                               = (Ret (Some session), m1, ev1)).
    { unfold endSession. rewrite Hs. fold m1. destruct (onEnd (callbacks m1)); eauto. }
    destruct Hend as (ev1 & Hend).
    set (m2 := set_sessions m1
                 (<[newSessionId env
                    := mkSession (newSessionId env) [] (now1 env) 0 None ∅]> (sessions m1))
                 (<[newSessionId env := now2 env]> (lastActivity m1))).
    assert (Hcreate : exists ev2,
               createSession (newSessionId env) None (now1 env) (now2 env) Returns m1
               = (Ret (mkSession (newSessionId env) [] (now1 env) 0 None ∅), m2, ev2)).
    { unfold createSession. fold m2. destruct (onCreate (callbacks m2)); eauto. }
    destruct Hcreate as (ev2 & Hcreate).
    assert (Hgone : sessions m2 !! sid = None).
    { cbn [m2 set_sessions sessions]. rewrite lookup_insert_ne by exact Hne.
      cbn [m1 set_sessions sessions]. apply lookup_delete_eq. }
    assert (Hfalsy : truthy (getSessionData sid "conversationId" m2) = false)
      by (unfold getSessionData; rewrite Hgone; reflexivity).
    unfold handleEnd. rewrite Hend. cbv zeta.
    cbn [with_manager sessionManager pipeline]. rewrite Hcreate, Hfalsy.
    cbn [fst snd with_manager sessionManager]. exact Hgone.
  - unfold handleEnd, endSession. rewrite Hs.
    cbn [fst snd with_manager sessionManager]. exact Hs.
Qed.

(** X30.  After the first END on a connection, the connection is dead for
    the session manager.  The end handler replaces the session by one with
    a new id, but the messages of the connection keep arriving under the
    old id: whatever follows (headers, audio, further ENDs, text) leaves
    the voice server as it is, and every audio message is answered with
    the chunk error and buffered nowhere. *)
Theorem connection_inert_after_end (sid : string) (env0 : Env) (server : VoiceServer)
    (messages : list (MessageType * Env)) (data : Buffer) (env : Env) :
  newSessionId env0 <> sid ->
  let ended := snd (fst (onMessage sid MsgEnd env0 server)) in
  snd (fst (onMessages sid messages ended)) = ended
  /\ onMessage sid (MsgAudio data) env ended
     = (Ret tt, ended, [Manager (WarnSessionNotFound sid); SendJson chunk_error]).
Proof.
  intros Hne ended.
  assert (Hgone : sessions (sessionManager ended) !! sid = None)
    by (apply handleEnd_removes; exact Hne).
  split.
  - destruct (onMessages_absent sid messages ended Hgone) as (eff & ->). reflexivity.
  - cbn [onMessage]. unfold handleAudio, addChunk. rewrite Hgone.
    rewrite with_manager_same. reflexivity.
Qed.

Lemma connection_inert_after_end_witness :
  let ended := snd (fst (onMessage "session_1" MsgEnd VoiceDemo.env1 VoiceDemo.server1)) in
  snd (fst (onMessages "session_1"
              [(MsgHeader [] (mkPcmHeader "PCM1" 16000 1 16 320 0), VoiceDemo.env1)] ended))
  = ended
  /\ onMessage "session_1" (MsgAudio [x05; x06]) VoiceDemo.env1 ended
     = (Ret tt, ended, [Manager (WarnSessionNotFound "session_1"); SendJson chunk_error]).
Proof.
  apply (connection_inert_after_end "session_1" VoiceDemo.env1 VoiceDemo.server1
           [(MsgHeader [] (mkPcmHeader "PCM1" 16000 1 16 320 0), VoiceDemo.env1)]
           [x05; x06] VoiceDemo.env1).
  discriminate.
Defined.

End VoiceFacts.
